(** * MediaCleaner: the metadata inference and ranking functions

    A shallow embedding of the pure core of [media_cleaner.py]:
    [get_quality_score], [get_episode_info], [get_normalized_title], the
    renaming computed by [clean_folder_names], and the grouping and ranking
    of [find_duplicate_movies] / [show_duplicate_report]; then the
    decisions of [matches_pattern], [process_subtitles], [organize_seasons]
    and [create_movie_nfo] that are computed from names alone.

    Modelling conventions.
    - A Python [str] is a list of characters; a character is a code point
      below 256 (the Latin-1 range), carried by [ascii].  [str.lower], the
      regular-expression classes [\s] and [\d], and [str.strip] follow
      Python's Unicode tables restricted to that range.
    - Python integers are [Z].
    - A dictionary with fixed keys is a record with the same field names.
    - [Path(x).stem] follows [PurePosixPath] (Python 3.8 to 3.13).
    - The [re] module is modelled by a backtracking matcher over the
      fragment of the pattern language the source uses.  Where a pattern
      is quoted in a comment, a blank separates a star from a closing
      parenthesis that follows it. *)

From Stdlib Require Import Ascii String List Bool Arith ZArith Lia.
From Stdlib Require Import Permutation Sorted.
From Stdlib Require DecimalString.
Import ListNotations.

Set Implicit Arguments.

Open Scope string_scope.
Open Scope nat_scope.
Open Scope list_scope.

(** ** Strings *)

Definition str := list ascii.

Coercion list_ascii_of_string : string >-> list.

Definition strs (l : list string) : list str := map list_ascii_of_string l.

Definition code (c : ascii) : nat := nat_of_ascii c.

Definition in_range (lo hi : nat) (c : ascii) : bool :=
  (lo <=? code c) && (code c <=? hi).

(** [str.lower] on one character: A-Z, and the Latin-1 capitals
    U+00C0..U+00DE except the multiplication sign U+00D7. *)
Definition lower_char (c : ascii) : ascii :=
  if in_range 65 90 c then ascii_of_nat (code c + 32)
  else if in_range 192 222 c && negb (code c =? 215) then ascii_of_nat (code c + 32)
  else c.

Definition lower (s : str) : str := map lower_char s.

(** [str.isspace] for one character, which is also the class [\s]:
    TAB..CR, FS..US, space, NEL and the no-break space. *)
Definition is_space (c : ascii) : bool :=
  in_range 9 13 c || in_range 28 31 c || (code c =? 32)
  || (code c =? 133) || (code c =? 160).

(** The class [\d]: the decimal digits of the range. *)
Definition is_digit (c : ascii) : bool := in_range 48 57 c.

Definition str_eqb (a b : str) : bool :=
  if list_eq_dec ascii_dec a b then true else false.

Fixpoint starts_with (p s : str) : bool :=
  match p, s with
  | [], _ => true
  | _ :: _, [] => false
  | a :: p', b :: s' => Ascii.eqb a b && starts_with p' s'
  end.

(** [x in s] for strings. *)
Fixpoint contains (x s : str) : bool :=
  starts_with x s ||
  match s with
  | [] => false
  | _ :: s' => contains x s'
  end.

(** [any(x in s for x in xs)] *)
Definition any_in (xs : list str) (s : str) : bool :=
  existsb (fun x => contains x s) xs.

(** ** Quality scoring *)

Record quality := mkQuality {
  score : Z;
  resolution : str;
  codec : str;
  source : str;
  audio : str;
  hdr : bool;
  details : list str
}.

Definition set_resolution (v : str) (q : quality) : quality :=
  mkQuality (score q) v (codec q) (source q) (audio q) (hdr q) (details q).
Definition set_codec (v : str) (q : quality) : quality :=
  mkQuality (score q) (resolution q) v (source q) (audio q) (hdr q) (details q).
Definition set_source (v : str) (q : quality) : quality :=
  mkQuality (score q) (resolution q) (codec q) v (audio q) (hdr q) (details q).
Definition set_audio (v : str) (q : quality) : quality :=
  mkQuality (score q) (resolution q) (codec q) (source q) v (hdr q) (details q).
Definition set_hdr (v : bool) (q : quality) : quality :=
  mkQuality (score q) (resolution q) (codec q) (source q) (audio q) v (details q).
(** [quality['score'] += n] *)
Definition add_score (n : Z) (q : quality) : quality :=
  mkQuality (score q + n) (resolution q) (codec q) (source q) (audio q) (hdr q)
            (details q).
(** [quality['details'].append(d)] *)
Definition append_detail (d : str) (q : quality) : quality :=
  mkQuality (score q) (resolution q) (codec q) (source q) (audio q) (hdr q)
            (details q ++ [d]).

Definition quality_init : quality :=
  mkQuality 0%Z "Unknown" "Unknown" "Unknown" "Unknown" false [].

Definition score_resolution (fl : str) (q : quality) : quality :=
  if any_in (strs ["2160p"; "4k"; "uhd"]) fl then
    append_detail "4K/2160p (+100)" (add_score 100 (set_resolution "2160p" q))
  else if contains "1080p" fl then
    append_detail "1080p (+80)" (add_score 80 (set_resolution "1080p" q))
  else if contains "720p" fl then
    append_detail "720p (+60)" (add_score 60 (set_resolution "720p" q))
  else if any_in (strs ["480p"; "dvd"]) fl then
    append_detail "480p (+40)" (add_score 40 (set_resolution "480p" q))
  else q.

Definition score_source (fl : str) (q : quality) : quality :=
  if any_in (strs ["bluray"; "blu-ray"; "bdrip"; "brrip"]) fl then
    append_detail "BluRay (+30)" (add_score 30 (set_source "BluRay" q))
  else if any_in (strs ["web-dl"; "webdl"]) fl then
    append_detail "WEB-DL (+25)" (add_score 25 (set_source "WEB-DL" q))
  else if contains "webrip" fl then
    append_detail "WEBRip (+20)" (add_score 20 (set_source "WEBRip" q))
  else if contains "hdtv" fl then
    append_detail "HDTV (+15)" (add_score 15 (set_source "HDTV" q))
  else if contains "dvdrip" fl then
    append_detail "DVDRip (+10)" (add_score 10 (set_source "DVDRip" q))
  else q.

Definition score_codec (fl : str) (q : quality) : quality :=
  if any_in (strs ["x265"; "h265"; "h.265"; "hevc"]) fl then
    append_detail "HEVC/x265 (+20)" (add_score 20 (set_codec "HEVC/x265" q))
  else if any_in (strs ["x264"; "h264"; "h.264"; "avc"]) fl then
    append_detail "x264 (+15)" (add_score 15 (set_codec "x264" q))
  else if any_in (strs ["xvid"; "divx"]) fl then
    append_detail "XviD (+5)" (add_score 5 (set_codec "XviD" q))
  else q.

Definition score_audio (fl : str) (q : quality) : quality :=
  if contains "atmos" fl then
    append_detail "Atmos (+15)" (add_score 15 (set_audio "Atmos" q))
  else if contains "truehd" fl then
    append_detail "TrueHD (+12)" (add_score 12 (set_audio "TrueHD" q))
  else if any_in (strs ["dts-hd"; "dtshd"]) fl then
    append_detail "DTS-HD (+10)" (add_score 10 (set_audio "DTS-HD" q))
  else if contains "dts" fl then
    append_detail "DTS (+8)" (add_score 8 (set_audio "DTS" q))
  else if any_in (strs ["ac3"; "dd5.1"; "dd5 1"]) fl then
    append_detail "AC3 (+5)" (add_score 5 (set_audio "AC3" q))
  else if contains "aac" fl then
    append_detail "AAC (+3)" (add_score 3 (set_audio "AAC" q))
  else q.

Definition score_hdr (fl : str) (q : quality) : quality :=
  if any_in (strs ["hdr10+"; "hdr10plus"]) fl then
    append_detail "HDR10+ (+15)" (add_score 15 (set_hdr true q))
  else if any_in (strs ["dolby vision"; "dolbyvision"; "dovi"; " dv "]) fl then
    append_detail "Dolby Vision (+15)" (add_score 15 (set_hdr true q))
  else if contains "hdr10" fl then
    append_detail "HDR10 (+12)" (add_score 12 (set_hdr true q))
  else if contains "hdr" fl then
    append_detail "HDR (+10)" (add_score 10 (set_hdr true q))
  else q.

(** [get_quality_score]: the five [if]/[elif] chains run one after the
    other on the same dictionary. *)
Definition get_quality_score (filename : str) : quality :=
  let quality := quality_init in
  let filename_lower := lower filename in
  let quality := score_resolution filename_lower quality in
  let quality := score_source filename_lower quality in
  let quality := score_codec filename_lower quality in
  let quality := score_audio filename_lower quality in
  let quality := score_hdr filename_lower quality in
  quality.

(** ** Exceptions *)

Inductive exception : Type :=
| TypeError
| ValueError.

Inductive result (A : Type) : Type :=
| Ok (a : A)
| Raise (e : exception).

Arguments Ok {A} a.
Arguments Raise {A} e.

Definition bind {A B : Type} (m : result A) (f : A -> result B) : result B :=
  match m with
  | Ok a => f a
  | Raise e => Raise e
  end.

Notation "x <- m ;; f" := (bind m (fun x => f))
  (at level 61, m at next level, right associativity).

(** ** Regular expressions: the fragment of [re] the source uses

    Repetition is only ever applied to a single character class in the
    source, so [Rep] carries the class, the bounds and the greediness.
    Groups are numbered as Python numbers them, by their opening
    parenthesis. *)

Inductive regex : Type :=
| Eps : regex
| Chr : (ascii -> bool) -> regex
| Rep : (ascii -> bool) -> nat -> option nat -> bool -> regex
| Seq : regex -> regex -> regex
| Alt : regex -> regex -> regex
| Opt : regex -> regex
| Grp : nat -> regex -> regex
| Bos : regex
| Eos : regex.

Definition groups := nat -> option str.

Definition no_groups : groups := fun _ => None.

Definition set_group (n : nat) (w : str) (g : groups) : groups :=
  fun m => if m =? n then Some w else g m.

Definition can_take (hi : option nat) : bool :=
  match hi with
  | Some 0 => false
  | _ => true
  end.

Definition dec_bound (hi : option nat) : option nat := option_map pred hi.

Definition newline : ascii := ascii_of_nat 10.

Section Matcher.
Variable A : Type.

(** [x*], [x+], [x{m,n}]: take as many characters as allowed, then give
    them back one at a time until the rest of the pattern matches. *)
Fixpoint rep_greedy (p : ascii -> bool) (lo : nat) (hi : option nat)
         (pos : nat) (s : str) (k : nat -> str -> option A) {struct s}
  : option A :=
  let stop := match lo with 0 => k pos s | S _ => None end in
  match s with
  | c :: s' =>
      if p c && can_take hi then
        match rep_greedy p (pred lo) (dec_bound hi) (S pos) s' k with
        | Some a => Some a
        | None => stop
        end
      else stop
  | [] => stop
  end.

(** [x*?], [x+?]: try the rest of the pattern first, take one more
    character only when that fails. *)
Fixpoint rep_lazy (p : ascii -> bool) (lo : nat) (hi : option nat)
         (pos : nat) (s : str) (k : nat -> str -> option A) {struct s}
  : option A :=
  let more :=
    match s with
    | c :: s' =>
        if p c && can_take hi
        then rep_lazy p (pred lo) (dec_bound hi) (S pos) s' k
        else None
    | [] => None
    end in
  match lo with
  | 0 => match k pos s with
         | Some a => Some a
         | None => more
         end
  | S _ => more
  end.

(** The matcher, in continuation-passing style: [k] is the rest of the
    pattern, and a [None] from it makes the matcher try its next
    alternative, in the order Python's backtracking engine tries them.
    [pos] is the index of [s] in the subject string. *)
Fixpoint match_re (r : regex) (pos : nat) (s : str) (g : groups)
         (k : nat -> str -> groups -> option A) {struct r} : option A :=
  match r with
  | Eps => k pos s g
  | Chr p =>
      match s with
      | c :: s' => if p c then k (S pos) s' g else None
      | [] => None
      end
  | Rep p lo hi true => rep_greedy p lo hi pos s (fun pos' s' => k pos' s' g)
  | Rep p lo hi false => rep_lazy p lo hi pos s (fun pos' s' => k pos' s' g)
  | Seq r1 r2 =>
      match_re r1 pos s g (fun pos' s' g' => match_re r2 pos' s' g' k)
  | Alt r1 r2 =>
      match match_re r1 pos s g k with
      | Some a => Some a
      | None => match_re r2 pos s g k
      end
  | Opt r1 =>
      match match_re r1 pos s g k with
      | Some a => Some a
      | None => k pos s g
      end
  | Grp n r1 =>
      match_re r1 pos s g
        (fun pos' s' g' => k pos' s' (set_group n (firstn (pos' - pos) s) g'))
  | Bos => if pos =? 0 then k pos s g else None
  | Eos =>
      match s with
      | [] => k pos s g
      | [c] => if Ascii.eqb c newline then k pos s g else None
      | _ => None
      end
  end.
End Matcher.

(** A match object: where the match ends, and the groups. *)
Record match_obj := mkMatch {
  m_end : nat;
  m_groups : groups
}.

(** One attempt of the pattern at index [pos], [s] being the subject from
    there on. *)
Definition match_at (r : regex) (pos : nat) (s : str) : option match_obj :=
  match_re r pos s no_groups (fun pos' _ g => Some (mkMatch pos' g)).

(** [re.match(r, s)] *)
Definition re_match (r : regex) (s : str) : option match_obj := match_at r 0 s.

(** [re.search(r, s)]: the first index at which the pattern matches, with
    the match. *)
Fixpoint search_from (r : regex) (pos : nat) (s : str)
  : option (nat * match_obj) :=
  match match_at r pos s with
  | Some m => Some (pos, m)
  | None =>
      match s with
      | [] => None
      | _ :: s' => search_from r (S pos) s'
      end
  end.

Definition re_search (r : regex) (s : str) : option (nat * match_obj) :=
  search_from r 0 s.

(** The text of a match found at [start] in [s]: [m.group()] *)
Definition group0 (s : str) (start : nat) (m : match_obj) : str :=
  firstn (m_end m - start) (skipn start s).

(** A replacement template: literal text and [\n] references. *)
Inductive repl_item : Type :=
| Lit (t : str)
| Ref (n : nat).

Definition expand (repl : list repl_item) (g : groups) : str :=
  flat_map (fun it =>
              match it with
              | Lit t => t
              | Ref n => match g n with Some w => w | None => [] end
              end) repl.

(** [re.sub(r, repl, s)]: every non-overlapping match, leftmost first, is
    replaced.  [skip] counts the characters of the current match still to
    be passed over.  Every pattern the source substitutes needs at least
    one character, so the case of an empty match (replacement inserted,
    one character copied) is never reached by it. *)
Fixpoint sub_from (r : regex) (repl : list repl_item) (pos : nat) (s : str)
         (skip : nat) {struct s} : str :=
  match skip with
  | S n =>
      match s with
      | [] => []
      | _ :: s' => sub_from r repl (S pos) s' n
      end
  | 0 =>
      match match_at r pos s with
      | Some m =>
          expand repl (m_groups m) ++
          match s with
          | [] => []
          | c :: s' =>
              match m_end m - pos with
              | 0 => c :: sub_from r repl (S pos) s' 0
              | S n => sub_from r repl (S pos) s' n
              end
          end
      | None =>
          match s with
          | [] => []
          | c :: s' => c :: sub_from r repl (S pos) s' 0
          end
      end
  end.

Definition re_sub (r : regex) (repl : list repl_item) (s : str) : str :=
  sub_from r repl 0 s 0.

(** [pattern.split(s)[0]]: the text before the first match. *)
Definition split_first (r : regex) (s : str) : str :=
  match re_search r s with
  | Some (start, _) => firstn start s
  | None => s
  end.

(** *** What a pattern may match

    [Matches r pos w rest g g']: at index [pos], with [w ++ rest] ahead,
    the pattern [r] can consume [w] and turn the groups [g] into [g'].
    This is the set of all the ways to match, without the order in which
    the engine tries them; the matcher returns the first of them that the
    rest of the pattern accepts. *)

Definition within (hi : option nat) (n : nat) : Prop :=
  match hi with
  | Some h => n <= h
  | None => True
  end.

Inductive Matches : regex -> nat -> str -> str -> groups -> groups -> Prop :=
| M_Eps pos rest g : Matches Eps pos [] rest g g
| M_Chr p c pos rest g : p c = true -> Matches (Chr p) pos [c] rest g g
| M_Rep p lo hi greedy pos w rest g :
    forallb p w = true -> lo <= length w -> within hi (length w) ->
    Matches (Rep p lo hi greedy) pos w rest g g
| M_Seq r1 r2 pos w1 w2 rest g g1 g2 :
    Matches r1 pos w1 (w2 ++ rest) g g1 ->
    Matches r2 (pos + length w1) w2 rest g1 g2 ->
    Matches (Seq r1 r2) pos (w1 ++ w2) rest g g2
| M_AltL r1 r2 pos w rest g g' :
    Matches r1 pos w rest g g' -> Matches (Alt r1 r2) pos w rest g g'
| M_AltR r1 r2 pos w rest g g' :
    Matches r2 pos w rest g g' -> Matches (Alt r1 r2) pos w rest g g'
| M_OptSome r pos w rest g g' :
    Matches r pos w rest g g' -> Matches (Opt r) pos w rest g g'
| M_OptNone r pos rest g : Matches (Opt r) pos [] rest g g
| M_Grp n r pos w rest g g' :
    Matches r pos w rest g g' -> Matches (Grp n r) pos w rest g (set_group n w g')
| M_Bos rest g : Matches Bos 0 [] rest g g
| M_Eos pos rest g :
    rest = [] \/ rest = [newline] -> Matches Eos pos [] rest g g.

(** *** Pattern constructors *)

Definition seq (rs : list regex) : regex := fold_right Seq Eps rs.

Fixpoint alts (rs : list regex) : regex :=
  match rs with
  | [] => Chr (fun _ => false)
  | [r] => r
  | r :: rs' => Alt r (alts rs')
  end.

Definition one_of (cs : str) (c : ascii) : bool := existsb (Ascii.eqb c) cs.

(** [.] without DOTALL *)
Definition dot (c : ascii) : bool := negb (Ascii.eqb c newline).

(** A literal, case-sensitive *)
Definition lit (t : str) : regex := seq (map (fun a => Chr (Ascii.eqb a)) t).

(** A literal under [re.IGNORECASE] *)
Definition ci (a c : ascii) : bool := Ascii.eqb (lower_char c) (lower_char a).
Definition lit_ci (t : str) : regex := seq (map (fun a => Chr (ci a)) t).

(** [[.\s_-]] *)
Definition sep_class (c : ascii) : bool := one_of "._-" c || is_space c.

(** [\d{1,2}] *)
Definition digits12 : regex := Rep is_digit 1 (Some 2) true.

(** ** Small library functions *)

Fixpoint drop_while (p : ascii -> bool) (s : str) : str :=
  match s with
  | [] => []
  | c :: s' => if p c then drop_while p s' else s
  end.

(** [s.strip(chars)], [chars] given as a class *)
Definition strip_by (p : ascii -> bool) (s : str) : str :=
  rev (drop_while p (rev (drop_while p s))).

(** [s.strip()] *)
Definition strip (s : str) : str := strip_by is_space s.

(** Truth value of a string, and of [match.group(n)] *)
Definition nonempty (s : str) : bool :=
  match s with
  | [] => false
  | _ :: _ => true
  end.

Definition truthy (o : option str) : bool :=
  match o with
  | Some s => nonempty s
  | None => false
  end.

Definition digit_val (c : ascii) : Z := Z.of_nat (code c - 48).

(** [int(x)] where [x] is [match.group(n)].  Decimal digit strings give
    their value; [None] raises [TypeError]; any other string is taken to
    raise [ValueError] (Python accepts a few more forms, a sign or
    surrounding blanks; the classes [\d{1,2}] of the source never produce
    them). *)
Definition py_int (o : option str) : result Z :=
  match o with
  | None => Raise TypeError
  | Some w =>
      if nonempty w && forallb is_digit w
      then Ok (fold_left (fun acc c => (10 * acc + digit_val c)%Z) w 0%Z)
      else Raise ValueError
  end.

(** [s.split(sep)] for a one-character separator *)
Fixpoint split_on (sep : ascii) (s : str) : list str :=
  match s with
  | [] => [[]]
  | c :: s' =>
      if Ascii.eqb c sep then [] :: split_on sep s'
      else match split_on sep s' with
           | [] => [[c]]
           | w :: ws => (c :: w) :: ws
           end
  end.

(** [s.rfind(c)], [None] standing for -1 *)
Fixpoint rfind (c : ascii) (s : str) : option nat :=
  match s with
  | [] => None
  | a :: s' =>
      match rfind c s' with
      | Some i => Some (S i)
      | None => if Ascii.eqb a c then Some 0 else None
      end
  end.

(** [PurePosixPath(s).name]: the last of the components left once the
    empty ones and the ["."] ones are dropped, the empty string when there
    is none. *)
Definition path_name (s : str) : str :=
  last (filter (fun part => nonempty part && negb (str_eqb part "."))
               (split_on "/" s)) [].

(** The index at which the suffix starts: [0 < i < len(name) - 1] *)
Definition suffix_index (name : str) : option nat :=
  match rfind "." name with
  | Some i => if (0 <? i) && (i <? length name - 1) then Some i else None
  | None => None
  end.

(** [PurePosixPath.stem] and [.suffix] of a name *)
Definition stem_of_name (name : str) : str :=
  match suffix_index name with
  | Some i => firstn i name
  | None => name
  end.

Definition suffix_of_name (name : str) : str :=
  match suffix_index name with
  | Some i => skipn i name
  | None => []
  end.

(** [Path(s).stem] *)
Definition stem (s : str) : str := stem_of_name (path_name s).

(** ** Episode parsing *)

Record episode_info := mkEpisodeInfo {
  season : option Z;
  episode : option Z;
  episodes : list Z;
  show_title : option str;
  episode_title : option str;
  is_multi_episode : bool
}.

Definition episode_info_init : episode_info :=
  mkEpisodeInfo None None [] None None false.

(** [^(.+?)[.\s_-]+[Ss](\d{1,2})[Ee](\d{1,2})(?:[Ee-](\d{1,2}))?(?:[Ee-](\d{1,2}))?(.* )$] *)
Definition pattern1 : regex :=
  seq [Bos; Grp 1 (Rep dot 1 None false); Rep sep_class 1 None true;
       Chr (one_of "Ss"); Grp 2 digits12; Chr (one_of "Ee"); Grp 3 digits12;
       Opt (seq [Chr (one_of "Ee-"); Grp 4 digits12]);
       Opt (seq [Chr (one_of "Ee-"); Grp 5 digits12]);
       Grp 6 (Rep dot 0 None true); Eos].

(** [^(.+?)[.\s_-]+(\d{1,2})x(\d{1,2})(.* )$] *)
Definition pattern2 : regex :=
  seq [Bos; Grp 1 (Rep dot 1 None false); Rep sep_class 1 None true;
       Grp 2 digits12; Chr (Ascii.eqb "x"); Grp 3 digits12;
       Grp 4 (Rep dot 0 None true); Eos].

(** [^(.+?)[.\s_-]+Season\s*(\d{1,2})[.\s_-]+Episode\s*(\d{1,2})(.* )$]
    under [re.IGNORECASE] *)
Definition pattern3 : regex :=
  seq [Bos; Grp 1 (Rep dot 1 None false); Rep sep_class 1 None true;
       lit_ci "Season"; Rep is_space 0 None true; Grp 2 digits12;
       Rep sep_class 1 None true; lit_ci "Episode"; Rep is_space 0 None true;
       Grp 3 digits12; Grp 4 (Rep dot 0 None true); Eos].

(** [\.] *)
Definition re_dot : regex := Chr (Ascii.eqb ".").

(** [^[.\s_-]+] *)
Definition re_leading_seps : regex := seq [Bos; Rep sep_class 1 None true].

(** [\s*(720p|1080p|2160p|4K|HDTV|WEB-DL|WEBRip|BluRay|x264|x265|HEVC|AAC|AC3).*$]
    under [re.IGNORECASE] *)
Definition episode_tags : list str :=
  strs ["720p"; "1080p"; "2160p"; "4K"; "HDTV"; "WEB-DL"; "WEBRip"; "BluRay";
        "x264"; "x265"; "HEVC"; "AAC"; "AC3"].

Definition re_tag_tail (tags : list str) : regex :=
  seq [Rep is_space 0 None true; Grp 1 (alts (map lit_ci tags));
       Rep dot 0 None true; Eos].

(** [re.sub(r'\.', ' ', match.group(1)).strip()]; [re.sub] raises
    [TypeError] on [None]. *)
Definition title_of_group (o : option str) : result str :=
  match o with
  | Some w => Ok (strip (re_sub re_dot [Lit " "] w))
  | None => Raise TypeError
  end.

(** The cleaning of the text after the episode numbers. *)
Definition clean_remainder (g6 : str) : str :=
  let remainder := re_sub re_leading_seps [] g6 in
  let remainder := re_sub re_dot [Lit " "] remainder in
  re_sub (re_tag_tail episode_tags) [] remainder.

Definition get_episode_info (filename : str) : result episode_info :=
  let info := episode_info_init in
  let basename := stem filename in
  match re_match pattern1 basename with
  | Some m =>
      let g := m_groups m in
      title <- title_of_group (g 1) ;;
      s <- py_int (g 2) ;;
      e <- py_int (g 3) ;;
      let eps := [e] in
      r4 <- (if truthy (g 4)
             then e2 <- py_int (g 4) ;; Ok (eps ++ [e2], true)
             else Ok (eps, false)) ;;
      eps <- (if truthy (g 5)
              then e3 <- py_int (g 5) ;; Ok (fst r4 ++ [e3])
              else Ok (fst r4)) ;;
      let etitle :=
        match g 6 with
        | Some g6 =>
            if nonempty g6 then
              let remainder := clean_remainder g6 in
              if nonempty (strip remainder) then Some (strip remainder)
              else episode_title info
            else episode_title info
        | None => episode_title info
        end in
      Ok (mkEpisodeInfo (Some s) (Some e) eps (Some title) etitle (snd r4))
  | None =>
      match re_match pattern2 basename with
      | Some m =>
          let g := m_groups m in
          title <- title_of_group (g 1) ;;
          s <- py_int (g 2) ;;
          e <- py_int (g 3) ;;
          Ok (mkEpisodeInfo (Some s) (Some e) [e] (Some title)
                            (episode_title info) (is_multi_episode info))
      | None =>
          match re_match pattern3 basename with
          | Some m =>
              let g := m_groups m in
              title <- title_of_group (g 1) ;;
              s <- py_int (g 2) ;;
              e <- py_int (g 3) ;;
              Ok (mkEpisodeInfo (Some s) (Some e) [e] (Some title)
                                (episode_title info) (is_multi_episode info))
          | None => Ok info
          end
      end
  end.

(** ** Title normalization *)

Record title_info := mkTitleInfo {
  normalized_title : str;
  year : option str
}.

(** [(19|20)\d{2}] *)
Definition re_year : regex :=
  seq [Grp 1 (Alt (lit "19") (lit "20")); Rep is_digit 2 (Some 2) true].

(** [[\(\[]?(19|20)\d{2}[\)\]]?.*$] *)
Definition re_year_tail : regex :=
  seq [Rep (one_of "([") 0 (Some 1) true;
       Grp 1 (Alt (lit "19") (lit "20")); Rep is_digit 2 (Some 2) true;
       Rep (one_of ")]") 0 (Some 1) true; Rep dot 0 None true; Eos].

(** The tags of
    [\s*(720p|1080p|2160p|4K|HDRip|DVDRip|BRRip|BluRay|WEB-DL|WEBRip|x264|x265|HEVC).*$] *)
Definition title_tags : list str :=
  strs ["720p"; "1080p"; "2160p"; "4K"; "HDRip"; "DVDRip"; "BRRip"; "BluRay";
        "WEB-DL"; "WEBRip"; "x264"; "x265"; "HEVC"].

(** [[_-]] *)
Definition re_underscore_hyphen : regex := Chr (one_of "_-").

(** [\s+] *)
Definition re_spaces : regex := Rep is_space 1 None true.

(** [^(the|a|an)\s+] *)
Definition re_article : regex :=
  seq [Bos; Grp 1 (alts [lit "the"; lit "a"; lit "an"]); Rep is_space 1 None true].

(** The two truncations: at the year, then at the first release tag. *)
Definition truncate_title (basename : str) : str :=
  let title := re_sub re_year_tail [] basename in
  re_sub (re_tag_tail title_tags) [] title.

(** Separators to blanks, blanks collapsed, stripped, lowercased. *)
Definition normalize_spaces (title : str) : str :=
  let title := re_sub re_dot [Lit " "] title in
  let title := re_sub re_underscore_hyphen [Lit " "] title in
  let title := re_sub re_spaces [Lit " "] title in
  lower (strip title).

Definition remove_article (title : str) : str := re_sub re_article [] title.

(** [get_normalized_title].  The key ['normalized_title'] starts as [None]
    and is always assigned before the return, so the field is a string. *)
Definition get_normalized_title (name : str) : title_info :=
  let basename := stem name in
  let year :=
    match re_search re_year basename with
    | Some (start, m) => Some (group0 basename start m)
    | None => None
    end in
  let title := truncate_title basename in
  let title := normalize_spaces title in
  let title := remove_article title in
  mkTitleInfo title year.

(** ** Folder name cleaning *)

(** [config.tags] *)
Definition config_tags : list str :=
  strs ["1080p"; "2160p"; "720p"; "480p"; "4K"; "2K"; "UHD";
        "HDRip"; "DVDRip"; "BRRip"; "BR-Rip"; "BDRip"; "BD-Rip"; "WEB-DL";
        "WEBRip"; "BluRay";
        "x264"; "x265"; "X265"; "H264"; "H265"; "HEVC"; "XviD"; "DivX"; "AVC";
        "AAC"; "AC3"; "DTS"; "Atmos"; "TrueHD"; "DD5.1"; "5.1"; "7.1";
        "HDR"; "HDR10"; "HDR10+"; "DolbyVision"; "SDR"; "10bit";
        "Extended"; "Unrated"; "Remastered"; "REPACK"; "PROPER";
        "YIFY"; "YTS"; "RARBG"; "SPARKS"; "NF"; "AMZN"; "HULU"; "WEB"].

(** [.strip(' .-')] *)
Definition strip_punct (s : str) : str := strip_by (one_of " .-") s.

(** One turn of the loop [for tag in config.tags] *)
Definition remove_tag (new_name tag : str) : str :=
  if contains (lower tag) (lower new_name) then
    let part0 := split_first (lit_ci tag) new_name in
    if nonempty (strip_punct part0) then strip_punct part0 else new_name
  else new_name.

(** [\s(19|20)(\d{2})$] and [\s((19|20)\d{2})$] *)
Definition re_trailing_year_search : regex :=
  seq [Chr is_space; Grp 1 (Alt (lit "19") (lit "20"));
       Grp 2 (Rep is_digit 2 (Some 2) true); Eos].

Definition re_trailing_year : regex :=
  seq [Chr is_space;
       Grp 1 (seq [Grp 2 (Alt (lit "19") (lit "20"));
                   Rep is_digit 2 (Some 2) true]);
       Eos].

(** The new name [clean_folder_names] computes for a folder; the rename
    itself is the caller's effect. *)
Definition clean_name (tags : list str) (folder_name : str) : str :=
  let new_name := fold_left remove_tag tags folder_name in
  let new_name :=
    if contains "." new_name
    then strip (re_sub re_spaces [Lit " "] (re_sub re_dot [Lit " "] new_name))
    else new_name in
  match re_search re_trailing_year_search new_name with
  | Some _ => re_sub re_trailing_year [Lit " ("; Ref 1; Lit ")"] new_name
  | None => new_name
  end.

(** ** Duplicate detection *)

(** What the directory listing gives: a child of the scanned directory,
    with, for a folder, the files it holds. *)
Record file_item := mkFile {
  file_name : str;
  is_file : bool;
  st_size : Z
}.

Record folder_item := mkFolder {
  folder_path : str;
  folder_name : str;
  is_dir : bool;
  folder_files : list file_item
}.

Record entry := mkEntry {
  path : str;
  original_name : str;
  entry_year : option str;
  entry_quality : quality;
  file_size : Z
}.

(** [config.video_extensions] *)
Definition video_extensions : list str :=
  strs [".mp4"; ".mkv"; ".avi"; ".mov"; ".wmv"; ".flv"; ".m4v"].

Definition is_video (f : file_item) : bool :=
  is_file f &&
  existsb (str_eqb (lower (suffix_of_name (path_name (file_name f)))))
          video_extensions.

(** [max((f.stat().st_size for f in video_files), default=0) if video_files else 0] *)
Definition max_size (fs : list file_item) : Z :=
  match fs with
  | [] => 0%Z
  | f :: fs' => fold_left (fun m x => Z.max m (st_size x)) fs' (st_size f)
  end.

Definition make_entry (folder : folder_item) : entry :=
  let title_info := get_normalized_title (folder_name folder) in
  let quality := get_quality_score (folder_name folder) in
  let video_files := filter is_video (folder_files folder) in
  mkEntry (folder_path folder) (folder_name folder) (year title_info) quality
          (max_size video_files).

(** [key = title; if year: key = f"{key}|{year}"] *)
Definition lookup_key (ti : title_info) : str :=
  if truthy (year ti)
  then normalized_title ti ++ "|" ++ match year ti with Some y => y | None => [] end
  else normalized_title ti.

(** [title_lookup]: a dictionary read back in insertion order. *)
Definition lookup := list (str * list entry).

(** [if key not in d: d[key] = []] then [d[key].append(e)] *)
Fixpoint lookup_append (key : str) (e : entry) (d : lookup) : lookup :=
  match d with
  | [] => [(key, [e])]
  | (k, es) :: d' =>
      if str_eqb k key then (k, es ++ [e]) :: d'
      else (k, es) :: lookup_append key e d'
  end.

Definition movie_folders (listing : list folder_item) : list folder_item :=
  filter (fun f => is_dir f && negb (str_eqb (folder_name f) "_Trailers")) listing.

Definition build_lookup (folders : list folder_item) : lookup :=
  fold_left (fun d folder =>
               lookup_append
                 (lookup_key (get_normalized_title (folder_name folder)))
                 (make_entry folder) d)
            folders [].

(** [find_duplicate_movies], from the listing of the scanned directory. *)
Definition find_duplicate_movies (listing : list folder_item)
  : list (list entry) :=
  let folders := movie_folders listing in
  match folders with
  | [] => []
  | _ =>
      filter (fun entries => 1 <? length entries)
             (map snd (build_lookup folders))
  end.

Definition entry_score (e : entry) : Z := score (entry_quality e).

(** [sorted(group, key=lambda x: x['quality']['score'], reverse=True)]:
    Python's sort is stable, also under [reverse=True]; the one stable
    descending order is computed here by insertion. *)
Fixpoint insert_desc (e : entry) (l : list entry) : list entry :=
  match l with
  | [] => [e]
  | x :: l' =>
      if (entry_score e <? entry_score x)%Z then x :: insert_desc e l'
      else e :: l
  end.

Definition sorted_group (group : list entry) : list entry :=
  fold_right insert_desc [] group.

Inductive label : Type :=
| KEEP
| DEL.

(** The lines of one group of the report: the first entry of the sorted
    group is the one to keep. *)
Definition label_group (sorted : list entry) : list (label * entry) :=
  match sorted with
  | [] => []
  | e :: rest => (KEEP, e) :: map (fun x => (DEL, x)) rest
  end.

(** [show_duplicate_report]: the groups as the report lists them. *)
Definition show_duplicate_report (listing : list folder_item)
  : list (list (label * entry)) :=
  map (fun group => label_group (sorted_group group))
      (find_duplicate_movies listing).

(** ** Further functions of the source *)

(** *** [matches_pattern]

    [fnmatch.fnmatch] on a POSIX system: the pattern is turned into a
    regular expression (a star is any text, line feeds included, a
    question mark is any character, anything else stands for itself) that
    has to match the whole name.  A pattern with an opening bracket, the
    start of a character set, is outside the model: [None]. *)

Definition any_char (c : ascii) : bool := true.

Fixpoint glob_regex (pat : str) : regex :=
  match pat with
  | [] => Eps
  | c :: pat' =>
      if Ascii.eqb c "*" then Seq (Rep any_char 0 None true) (glob_regex pat')
      else if Ascii.eqb c "?" then Seq (Chr any_char) (glob_regex pat')
      else Seq (Chr (Ascii.eqb c)) (glob_regex pat')
  end.

(** The end of the subject, as [\Z] has it. *)
Definition at_end : nat -> str -> groups -> option unit :=
  fun _ s' _ => if nonempty s' then None else Some tt.

Definition full_match (r : regex) (s : str) : bool :=
  match match_re r 0 s no_groups at_end with
  | Some _ => true
  | None => false
  end.

Definition fnmatch (name pat : str) : option bool :=
  if contains "[" pat then None else Some (full_match (glob_regex pat) name).

(** The loop of [matches_pattern], which returns at the first pattern
    that matches the name or, both in lower case, the lowered name. *)
Fixpoint matches_pattern (name : str) (patterns : list str) : option bool :=
  match patterns with
  | [] => Some false
  | pattern :: rest =>
      match fnmatch name pattern with
      | None => None
      | Some true => Some true
      | Some false =>
          match fnmatch (lower name) (lower pattern) with
          | None => None
          | Some true => Some true
          | Some false => matches_pattern name rest
          end
      end
  end.

(** [config.unnecessary_patterns] *)
Definition unnecessary_patterns : list str :=
  strs ["*Sample*"; "*Proof*"; "*Screens*"].

(** *** [process_subtitles]: which subtitles are kept *)

(** [config.preferred_subtitle_languages] *)
Definition preferred_subtitle_languages : list str :=
  strs ["eng"; "en"; "english"].

(** A letter of the alphabet, in either case. *)
Definition is_letter (c : ascii) : bool := in_range 65 90 c || in_range 97 122 c.

(** [\.{lang}$|\.{lang}\.|_{lang}$|_{lang}[_.]] for a language made of
    letters, as the languages of the configuration are.  The source puts
    the language into the pattern as it is, without [re.escape]: a
    language with a character that the pattern language reads in another
    way ("a+b") gives another pattern, or none, and is outside the model.
    What is proved of this pattern is proved for languages made of
    letters. *)
Definition re_language (lang : str) : regex :=
  alts [seq [Chr (Ascii.eqb "."); lit lang; Eos];
        seq [Chr (Ascii.eqb "."); lit lang; Chr (Ascii.eqb ".")];
        seq [Chr (Ascii.eqb "_"); lit lang; Eos];
        seq [Chr (Ascii.eqb "_"); lit lang; Chr (one_of "_.")]].

Definition language_tags : list str :=
  strs ["eng"; "en"; "english"; "spa"; "es"; "spanish"; "fre"; "fr";
        "french"; "ger"; "de"; "german"].

(** [\.(eng|en|english|spa|es|spanish|fre|fr|french|ger|de|german)(\.|$|_)] *)
Definition re_language_tag : regex :=
  seq [Chr (Ascii.eqb "."); Grp 1 (alts (map lit language_tags));
       Grp 2 (alts [Chr (Ascii.eqb "."); Eos; Chr (Ascii.eqb "_")])].

(** The truth value of [re.search(...)] *)
Definition found (o : option (nat * match_obj)) : bool :=
  match o with
  | Some _ => true
  | None => false
  end.

(** [is_preferred] at the end of one turn of the loop over the subtitle
    files; [sub] is the path of the file. *)
Definition is_preferred_subtitle (preferred : list str) (sub : str) : bool :=
  let sub_name_lower := lower (stem sub) in
  let is_preferred :=
    existsb (fun lang => found (re_search (re_language lang) sub_name_lower))
            preferred in
  let has_lang_tag := found (re_search re_language_tag sub_name_lower) in
  if negb has_lang_tag then true else is_preferred.

(** [config.keep_subtitles and is_preferred]: the file is kept; it is
    deleted, or would be in a dry run, otherwise. *)
Definition keeps_subtitle (keep_subtitles : bool) (preferred : list str)
           (sub : str) : bool :=
  keep_subtitles && is_preferred_subtitle preferred sub.

(** *** [organize_seasons]: where an episode goes *)

(** [f"{n:02d}"]: the decimal writing, with a zero in front of a lone
    digit. *)
Definition format_02d (n : Z) : str :=
  let digits : str :=
    list_ascii_of_string
      (DecimalString.NilZero.string_of_int (Z.to_int n)) in
  if length digits <? 2 then "0"%char :: digits else digits.

(** [f"Season {season:02d}"] *)
Definition season_folder_name (season : Z) : str := "Season " ++ format_02d season.

(** The folder a video file is moved to, [file_name] being [file.name] and
    [parent_name] being [file.parent.name]: none when no season is found
    and when the file is already in its season folder. *)
Definition season_target (file_name parent_name : str) : result (option str) :=
  ep_info <- get_episode_info file_name ;;
  match season ep_info with
  | Some s =>
      let season_folder := season_folder_name s in
      if str_eqb parent_name season_folder then Ok None
      else Ok (Some season_folder)
  | None => Ok None
  end.

(** *** [create_movie_nfo]: the title and the year written to the file *)

(** [\s*[\(\[]?{year}[\)\]]?.*$], the year being made of digits *)
Definition re_nfo_year (y : str) : regex :=
  seq [Rep is_space 0 None true; Rep (one_of "([") 0 (Some 1) true; lit y;
       Rep (one_of ")]") 0 (Some 1) true; Rep dot 0 None true; Eos].

(** The title taken from the folder name when none is given. *)
Definition nfo_title_of_folder (folder_name : str) : str :=
  let title_info := get_normalized_title folder_name in
  let title := folder_name in
  let title :=
    match year title_info with
    | Some y => if nonempty y then re_sub (re_nfo_year y) [] title else title
    | None => title
    end in
  strip (re_sub re_dot [Lit " "] title).

(** [title] and [year] after [if not title or not year: ...], from the
    arguments [title] and [year] of the call; [folder_name] is
    [video_file.parent.name]. *)
Definition nfo_title_year (folder_name : str) (title_arg year_arg : option str)
  : option str * option str :=
  if negb (truthy title_arg) || negb (truthy year_arg) then
    let title_info := get_normalized_title folder_name in
    let title :=
      if negb (truthy title_arg) then Some (nfo_title_of_folder folder_name)
      else title_arg in
    let year := if negb (truthy year_arg) then year title_info else year_arg in
    (title, year)
  else (title_arg, year_arg).

(** *** Notions for the further properties *)

(** One category either leaves the dictionary alone, or adds at least 3
    points and one line. *)
Definition grows (q q' : quality) : Prop :=
  q' = q \/
  ((score q + 3 <= score q')%Z /\ length (details q) < length (details q')).

(** The key under which [find_duplicate_movies] files a folder. *)
Definition folder_key (f : folder_item) : str :=
  lookup_key (get_normalized_title (folder_name f)).

(** The entries of the folders that have the key [k], in their order. *)
Definition bucket (k : str) (folders : list folder_item) : list entry :=
  map make_entry (filter (fun f => str_eqb (folder_key f) k) folders).

(** What the dictionary holds once the folders [seen] are filed. *)
Definition lookup_filed (d : lookup) (seen : list folder_item) : Prop :=
  NoDup (map fst d) /\
  (forall k es, In (k, es) d -> es = bucket k seen /\ es <> []) /\
  (forall f, In f seen -> In (folder_key f) (map fst d)).

(** Neither a dot nor an underscore. *)
Definition not_dot (c : ascii) : bool := negb (Ascii.eqb c ".").

Definition not_dot_underscore (c : ascii) : bool := negb (one_of "._" c).

(** The language tags of [process_subtitles] that are not preferred
    languages. *)
Definition foreign_tags : list str :=
  strs ["spa"; "es"; "spanish"; "fre"; "fr"; "french"; "ger"; "de"; "german"].

(** A character that stands for itself in a [fnmatch] pattern. *)
Definition glob_plain (c : ascii) : bool := negb (one_of "*?[" c).

(** A captured group made of one or two decimal digits, as [\d{1,2}]
    captures it. *)
Definition short_number (o : option str) : Prop :=
  exists w, o = Some w /\ forallb is_digit w = true /\
            1 <= length w /\ length w <= 2.

(** A season or episode number [int] can give on such a group. *)
Definition two_digits (z : Z) : Prop := (0 <= z <= 99)%Z.

(** The end of [pattern1] after the first episode number. *)
Definition pattern1_more : regex :=
  seq [Opt (seq [Chr (one_of "Ee-"); Grp 4 digits12]);
       Opt (seq [Chr (one_of "Ee-"); Grp 5 digits12]);
       Grp 6 (Rep dot 0 None true); Eos].

(** ** Notions used to state the properties *)


(** Descending order of scores. *)
Definition desc_score (a b : entry) : Prop := (entry_score b <= entry_score a)%Z.

(** The entries of a list that have the score [v], in their order. *)
Definition with_score (v : Z) (l : list entry) : list entry :=
  filter (fun e => (entry_score e =? v)%Z) l.

(** Two entries that differ at most in their [file_size]. *)
Definition same_but_size (e e' : entry) : Prop :=
  path e = path e' /\ original_name e = original_name e' /\
  entry_year e = entry_year e' /\ entry_quality e = entry_quality e'.

(** The length of the longest prefix of [s] in the class [p]. *)
Fixpoint run (p : ascii -> bool) (s : str) : nat :=
  match s with
  | [] => 0
  | c :: s' => if p c then S (run p s') else 0
  end.

Definition starts_in (p : ascii -> bool) (s : str) : bool :=
  match s with
  | [] => false
  | c :: _ => p c
  end.

(** What [re.sub(r'\s+', ' ', s)] computes, by structural recursion: a
    blank character followed by another one is dropped, the last one of a
    run becomes a space. *)
Fixpoint squeeze (s : str) : str :=
  match s with
  | [] => []
  | c :: s' =>
      if is_space c then
        if starts_in is_space s' then squeeze s' else " "%char :: squeeze s'
      else c :: squeeze s'
  end.

(** What the two one-character substitutions of the normalization do to
    a character: a dot, an underscore or a hyphen becomes a space. *)
Definition sep_to_space (c : ascii) : ascii :=
  if one_of "._-" c then " "%char else c.

(** A year token: "19" or "20" and two digits. *)
Definition year_tok (f : str) : Prop :=
  exists y d1 d2, f = y ++ [d1; d2] /\ In y (strs ["19"; "20"]) /\
                  is_digit d1 = true /\ is_digit d2 = true.

(** An occurrence of one of the tags, whatever the case of its letters. *)
Definition tag_tok (tags : list str) (f : str) : Prop :=
  exists tag, In tag tags /\ lower f = lower tag.

(** [t] holds a piece of text that satisfies [Q]. *)
Definition has (Q : str -> Prop) (t : str) : Prop :=
  exists a f b, t = a ++ f ++ b /\ Q f.

(** The text before the first index at which [r] matches. *)
Fixpoint cut_at (r : regex) (pos : nat) (s : str) : str :=
  match match_at r pos s with
  | Some _ => []
  | None =>
      match s with
      | [] => []
      | c :: s' => c :: cut_at r (S pos) s'
      end
  end.

(** *** The words of the corrected invariant on the empty title *)

(** [s] begins with a year token: 19 or 20 and two digits. *)
Definition year_here (s : str) : bool :=
  match s with
  | a :: b :: c :: d :: _ =>
      ((Ascii.eqb a "1" && Ascii.eqb b "9") || (Ascii.eqb a "2" && Ascii.eqb b "0"))
      && is_digit c && is_digit d
  | _ => false
  end.

(** [s] begins with a year token, or with an opening bracket directly
    followed by one. *)
Definition year_cut_here (s : str) : bool :=
  year_here s ||
  match s with
  | c :: s' => one_of "([" c && year_here s'
  | [] => false
  end.

(** [s] begins with the tag, whatever the case of the letters. *)
Definition tag_prefix (s tag : str) : bool :=
  str_eqb (lower (firstn (length tag) s)) (lower tag).

(** [s] begins, after any blanks, with one of the tags. *)
Fixpoint tag_cut_here (tags : list str) (s : str) : bool :=
  existsb (tag_prefix s) tags ||
  match s with
  | c :: s' => is_space c && tag_cut_here tags s'
  | [] => false
  end.

(** The text before the first place at which [here] holds. *)
Fixpoint before (here : str -> bool) (s : str) : str :=
  match s with
  | [] => []
  | c :: s' => if here s then [] else c :: before here s'
  end.

(** The part of the stem in front of the first year, cut again in front
    of the first release tag. *)
Definition title_part (basename : str) : str :=
  before (tag_cut_here title_tags) (before year_cut_here basename).

(** The shape of a normalized title: no separator and no slash, lower
    case, no blank but the space, no two blanks in a row, none at either
    end. *)
Definition clean_char (c : ascii) : bool :=
  negb (one_of "./_-" c) && Ascii.eqb (lower_char c) c
  && (negb (is_space c) || Ascii.eqb c " ").

Fixpoint spaced (s : str) : bool :=
  match s with
  | [] => true
  | c :: s' => negb (is_space c && starts_in is_space s') && spaced s'
  end.

Definition stripped (s : str) : bool :=
  negb (starts_in is_space s) && negb (starts_in is_space (rev s)).

Definition normal (s : str) : Prop :=
  forallb clean_char s = true /\ spaced s = true /\ stripped s = true.


Definition not_space (c : ascii) : bool := negb (is_space c).

Definition not_slash (c : ascii) : bool := negb (Ascii.eqb c "/").

Definition not_sep_slash (c : ascii) : bool := negb (one_of "./_-" c).

(** [clean_char] but for the case of the letters. *)
Definition clean_upto_case (c : ascii) : bool :=
  not_sep_slash c && (negb (is_space c) || Ascii.eqb c " ").

(** The normalized title of a name. *)
Definition nt (name : str) : str := normalized_title (get_normalized_title name).

(** Neither a line feed nor a slash. *)
Definition plain (c : ascii) : bool := dot c && not_slash c.

(** [s] begins with a complete episode marker: S or s, one or two digits,
    E or e, and a digit. *)
Definition episode_start (s : str) : bool :=
  match s with
  | a :: d1 :: s1 =>
      one_of "Ss" a && is_digit d1 &&
      match s1 with
      | e :: d :: s2 =>
          (one_of "Ee" e && is_digit d) ||
          (is_digit e && one_of "Ee" d && starts_in is_digit s2)
      | _ => false
      end
  | _ => false
  end.

(** [s] begins with separators, then a complete marker. *)
Fixpoint marker_at (s : str) : bool :=
  match s with
  | [] => false
  | c :: s' => sep_class c && (marker_at s' || episode_start s')
  end.

(** Somewhere in [x] a separator is directly followed by a complete
    marker. *)
Fixpoint marker_in (x : str) : bool :=
  match x with
  | [] => false
  | c :: x' => (sep_class c && episode_start x') || marker_in x'
  end.

(** The same for a separator that is not the first character of [x]: a
    place before the end of [x] at which a title, separators and a
    complete marker can be read. *)
Definition earlier_marker (x : str) : bool := marker_in (tl x).

(** The parts of [pattern1]: the season and episode marker with what
    follows it, and the same after the separators. *)
Definition pattern1_marker : regex :=
  seq [Chr (one_of "Ss"); Grp 2 digits12; Chr (one_of "Ee"); Grp 3 digits12;
       Opt (seq [Chr (one_of "Ee-"); Grp 4 digits12]);
       Opt (seq [Chr (one_of "Ee-"); Grp 5 digits12]);
       Grp 6 (Rep dot 0 None true); Eos].

Definition pattern1_after_title : regex :=
  Seq (Rep sep_class 1 None true) pattern1_marker.

(** The continuation of [match_at]. *)
Definition accept : nat -> str -> groups -> option match_obj :=
  fun pos' _ g => Some (mkMatch pos' g).

(** A captured group that is absent, or present and made of one or more
    decimal digits. *)
Definition is_number (w : str) : Prop :=
  forallb is_digit w = true /\ 1 <= length w.

Definition number_group (o : option str) : Prop :=
  exists w, o = Some w /\ is_number w.

Definition optional_number_group (o : option str) : Prop :=
  o = None \/ number_group o.

(** The same entry with another [file_size]. *)
Definition resize (sizes : entry -> Z) (e : entry) : entry :=
  mkEntry (path e) (original_name e) (entry_year e) (entry_quality e) (sizes e).

(** Two report lines with the same label, for entries that differ at most
    in their size; two dictionary items likewise. *)
Definition same_line (a b : label * entry) : Prop :=
  fst a = fst b /\ same_but_size (snd a) (snd b).

Definition same_item (a b : str * list entry) : Prop :=
  fst a = fst b /\ Forall2 same_but_size (snd a) (snd b).

(** The same listing with other files in each folder. *)
Definition with_files (files : folder_item -> list file_item)
           (listing : list folder_item) : list folder_item :=
  map (fun f => mkFolder (folder_path f) (folder_name f) (is_dir f) (files f))
      listing.

(** * Properties *)

(** ** Quality scoring *)

(** C2: on ["Movie.2160p.BluRay.x265.Atmos.HDR10+"] the scorer returns the
    total 180 = 100 + 30 + 20 + 15 + 15, one tier per category in the
    order resolution, source, codec, audio, HDR, and sets the [hdr] flag. *)
Theorem quality_score_c2 :
  let q := get_quality_score "Movie.2160p.BluRay.x265.Atmos.HDR10+" in
  score q = 180%Z /\ hdr q = true /\
  score q = (100 + 30 + 20 + 15 + 15)%Z /\
  resolution q = "2160p" /\ source q = "BluRay" /\ codec q = "HEVC/x265" /\
  audio q = "Atmos" /\
  details q = strs ["4K/2160p (+100)"; "BluRay (+30)"; "HEVC/x265 (+20)";
                    "Atmos (+15)"; "HDR10+ (+15)"].
Proof. vm_compute. repeat split; reflexivity. Qed.

Section CategoryBounds.
Variable fl : str.
Variable q : quality.







End CategoryBounds.



(** ** Folder name cleaning *)

(** C9: with the tag list ["1080p"; "WEB-DL"] the name is cut at "1080p",
    the first tag of the list that occurs in it, what is left no longer
    holds "WEB-DL", and the dots become blanks: "S01" is kept. *)
Theorem clean_name_c9 :
  let name : str := "Show.Name.S01.1080p.WEB-DL" in
  remove_tag name "1080p" = "Show.Name.S01" /\
  remove_tag "Show.Name.S01" "WEB-DL" = "Show.Name.S01" /\
  clean_name (strs ["1080p"; "WEB-DL"]) name = "Show Name S01" /\
  clean_name config_tags name = "Show Name S01".
Proof. vm_compute. repeat split; reflexivity. Qed.

(** ** Duplicate detection *)

(** C1: the two Inception folders, whatever their paths and files and in
    either listing order, fall under the one key made of the title
    "inception" and the year "2010", form one group, and the report ranks
    the 1080p WEB-DL entry (120 points) before the 720p BluRay one (105). *)
Theorem duplicates_c1 (pathA pathB : str) (filesA filesB : list file_item) :
  let A := mkFolder pathA "Inception.2010.720p.BluRay.x264" true filesA in
  let B := mkFolder pathB "Inception.2010.1080p.WEB-DL.x264" true filesB in
  get_normalized_title (folder_name A) = mkTitleInfo "inception" (Some ("2010" : str)) /\
  get_normalized_title (folder_name B) = mkTitleInfo "inception" (Some ("2010" : str)) /\
  lookup_key (get_normalized_title (folder_name A)) = "inception|2010" /\
  lookup_key (get_normalized_title (folder_name B)) = "inception|2010" /\
  entry_score (make_entry A) = (60 + 30 + 15)%Z /\
  entry_score (make_entry B) = (80 + 25 + 15)%Z /\
  find_duplicate_movies [A; B] = [[make_entry A; make_entry B]] /\
  find_duplicate_movies [B; A] = [[make_entry B; make_entry A]] /\
  show_duplicate_report [A; B] = [[(KEEP, make_entry B); (DEL, make_entry A)]] /\
  show_duplicate_report [B; A] = [[(KEEP, make_entry B); (DEL, make_entry A)]].
Proof.
  intros A B.
  repeat split; vm_compute; reflexivity.
Qed.

(** ** Ranking of a group *)

Lemma insert_desc_perm (e : entry) (l : list entry) :
  Permutation (insert_desc e l) (e :: l).
Proof.
  induction l as [| x l IH]; simpl; [reflexivity |].
  destruct (entry_score e <? entry_score x)%Z; [| reflexivity].
  rewrite IH. apply perm_swap.
Qed.

Lemma sorted_group_perm (g : list entry) : Permutation (sorted_group g) g.
Proof.
  induction g as [| e g IH]; simpl; [constructor |].
  rewrite insert_desc_perm. auto.
Qed.

Lemma insert_desc_hd (a e : entry) (l : list entry) :
  desc_score a e -> HdRel desc_score a l -> HdRel desc_score a (insert_desc e l).
Proof.
  intros Hae Hl. destruct l as [| x l]; simpl.
  - constructor; assumption.
  - destruct (entry_score e <? entry_score x)%Z; constructor;
      solve [assumption | inversion Hl; assumption].
Qed.

Lemma insert_desc_sorted (e : entry) (l : list entry) :
  Sorted desc_score l -> Sorted desc_score (insert_desc e l).
Proof.
  induction 1 as [| x l Hs IH Hd]; simpl.
  - repeat constructor.
  - destruct (Z.ltb_spec (entry_score e) (entry_score x)).
    + constructor; [assumption |].
      apply insert_desc_hd; [unfold desc_score; lia | assumption].
    + constructor; [constructor; assumption |].
      constructor. unfold desc_score. lia.
Qed.

Lemma sorted_group_sorted (g : list entry) :
  StronglySorted desc_score (sorted_group g).
Proof.
  apply Sorted_StronglySorted.
  - intros a b c Hab Hbc. unfold desc_score in *. lia.
  - induction g as [| e g IH]; simpl; [constructor |].
    apply insert_desc_sorted, IH.
Qed.

Lemma insert_desc_stable (v : Z) (e : entry) (l : list entry) :
  with_score v (insert_desc e l) = with_score v (e :: l).
Proof.
  unfold with_score.
  induction l as [| x l IH]; simpl; [reflexivity |].
  destruct (Z.ltb_spec (entry_score e) (entry_score x)); [| reflexivity].
  simpl. rewrite IH. simpl.
  destruct (Z.eqb_spec (entry_score e) v), (Z.eqb_spec (entry_score x) v);
    try reflexivity; lia.
Qed.

Lemma sorted_group_stable (v : Z) (g : list entry) :
  with_score v (sorted_group g) = with_score v g.
Proof.
  induction g as [| e g IH]; simpl; [reflexivity |].
  rewrite insert_desc_stable. unfold with_score in *. simpl. rewrite IH.
  reflexivity.
Qed.

Lemma with_score_head (v : Z) (l r : list entry) (x : entry) :
  with_score v l = x :: r -> In x l /\ entry_score x = v.
Proof.
  intros H. assert (I : In x (with_score v l)) by (rewrite H; left; reflexivity).
  unfold with_score in I. apply filter_In in I. destruct I as [I E].
  split; [exact I | apply Z.eqb_eq; exact E].
Qed.

Lemma with_score_cons (v : Z) (x : entry) (l : list entry) :
  with_score v (x :: l) =
  if (entry_score x =? v)%Z then x :: with_score v l else with_score v l.
Proof. reflexivity. Qed.

(** Two descending lists that hold, for every score, the same entries in
    the same order are the same list. *)
Lemma sorted_stable_unique (l1 : list entry) : forall l2,
  StronglySorted desc_score l1 -> StronglySorted desc_score l2 ->
  (forall v, with_score v l1 = with_score v l2) -> l1 = l2.
Proof.
  induction l1 as [| a l1 IH]; intros l2 S1 S2 H.
  - destruct l2 as [| b l2]; [reflexivity |].
    specialize (H (entry_score b)). rewrite with_score_cons, Z.eqb_refl in H.
    discriminate.
  - destruct l2 as [| b l2].
    { specialize (H (entry_score a)). rewrite with_score_cons, Z.eqb_refl in H.
      discriminate. }
    inversion S1 as [| ? ? S1' F1]; subst.
    inversion S2 as [| ? ? S2' F2]; subst.
    rewrite Forall_forall in F1, F2.
    assert (Eab : entry_score a = entry_score b).
    { pose proof (H (entry_score a)) as Ha.
      pose proof (H (entry_score b)) as Hb.
      rewrite !with_score_cons, Z.eqb_refl in Ha.
      rewrite !with_score_cons, Z.eqb_refl in Hb.
      destruct (Z.eqb_spec (entry_score b) (entry_score a)) as [E | N];
        [symmetry; exact E |].
      destruct (Z.eqb_spec (entry_score a) (entry_score b)) as [E | _];
        [exact E |].
      symmetry in Ha. apply with_score_head in Ha. destruct Ha as [Ia _].
      apply with_score_head in Hb. destruct Hb as [Ib _].
      specialize (F1 b Ib). specialize (F2 a Ia). unfold desc_score in *. lia. }
    assert (E : a = b).
    { specialize (H (entry_score a)).
      rewrite !with_score_cons, <- Eab, Z.eqb_refl in H. congruence. }
    subst b. f_equal. apply IH; auto.
    intros v. specialize (H v). rewrite !with_score_cons in H.
    destruct (entry_score a =? v)%Z; congruence.
Qed.

(** So [sorted_group] is the result of any stable descending sort. *)
Lemma sorted_group_unique (g l : list entry) :
  StronglySorted desc_score l ->
  (forall v, with_score v l = with_score v g) -> l = sorted_group g.
Proof.
  intros S H. apply sorted_stable_unique; [exact S | apply sorted_group_sorted |].
  intros v. rewrite H, sorted_group_stable. reflexivity.
Qed.

Lemma insert_desc_resize (sizes : entry -> Z) (e : entry) (l : list entry) :
  insert_desc (resize sizes e) (map (resize sizes) l) =
  map (resize sizes) (insert_desc e l).
Proof.
  induction l as [| x l IH]; simpl; [reflexivity |].
  change (entry_score (resize sizes e)) with (entry_score e).
  change (entry_score (resize sizes x)) with (entry_score x).
  destruct (entry_score e <? entry_score x)%Z; simpl; [rewrite IH |]; reflexivity.
Qed.

Lemma sorted_group_resize (sizes : entry -> Z) (g : list entry) :
  sorted_group (map (resize sizes) g) = map (resize sizes) (sorted_group g).
Proof.
  induction g as [| e g IH]; simpl; [reflexivity |].
  rewrite IH. apply insert_desc_resize.
Qed.

Lemma same_but_size_score (e e' : entry) :
  same_but_size e e' -> entry_score e = entry_score e'.
Proof. intros (_ & _ & _ & Hq). unfold entry_score. rewrite Hq. reflexivity. Qed.

Lemma insert_desc_same (e e' : entry) (l l' : list entry) :
  same_but_size e e' -> Forall2 same_but_size l l' ->
  Forall2 same_but_size (insert_desc e l) (insert_desc e' l').
Proof.
  intros He Hl. induction Hl as [| x x' l l' Hx Hl IH]; simpl.
  - constructor; [assumption | constructor].
  - rewrite <- (same_but_size_score He), <- (same_but_size_score Hx).
    destruct (entry_score e <? entry_score x)%Z.
    + constructor; assumption.
    + constructor; [assumption |]. constructor; assumption.
Qed.

Lemma sorted_group_same (g g' : list entry) :
  Forall2 same_but_size g g' ->
  Forall2 same_but_size (sorted_group g) (sorted_group g').
Proof.
  induction 1; simpl; [constructor |]. apply insert_desc_same; assumption.
Qed.

Lemma label_group_same (l l' : list entry) :
  Forall2 same_but_size l l' -> Forall2 same_line (label_group l) (label_group l').
Proof.
  intros H. destruct H as [| x x' l l' Hx Hl]; simpl; constructor.
  - split; [reflexivity | assumption].
  - induction Hl; simpl; constructor; [split; [reflexivity | assumption] | assumption].
Qed.

(** ** Grouping does not look at the files *)

Lemma lookup_append_same (key : str) (e e' : entry) (d d' : lookup) :
  same_but_size e e' -> Forall2 same_item d d' ->
  Forall2 same_item (lookup_append key e d) (lookup_append key e' d').
Proof.
  intros He Hd. induction Hd as [| [k es] [k' es'] d d' [Hk Hes] Hd IH]; simpl in *.
  - constructor; [| constructor]. split; [reflexivity |].
    constructor; [assumption | constructor].
  - subst k'. destruct (str_eqb k key).
    + constructor; [| assumption]. split; [reflexivity |]. simpl.
      apply Forall2_app; [assumption |].
      constructor; [assumption | constructor].
    + constructor; [split; [reflexivity | assumption] | assumption].
Qed.

Lemma make_entry_same (files : list file_item) (f : folder_item) :
  same_but_size (make_entry f)
    (make_entry (mkFolder (folder_path f) (folder_name f) (is_dir f) files)).
Proof. repeat split. Qed.

Lemma build_lookup_same (files : folder_item -> list file_item)
      (folders : list folder_item) :
  Forall2 same_item (build_lookup folders) (build_lookup (with_files files folders)).
Proof.
  unfold build_lookup.
  assert (G : forall d d', Forall2 same_item d d' ->
    Forall2 same_item
      (fold_left (fun d folder =>
                    lookup_append
                      (lookup_key (get_normalized_title (folder_name folder)))
                      (make_entry folder) d) folders d)
      (fold_left (fun d folder =>
                    lookup_append
                      (lookup_key (get_normalized_title (folder_name folder)))
                      (make_entry folder) d) (with_files files folders) d')).
  { induction folders as [| f fs IH]; intros d d' Hd; simpl; [assumption |].
    apply IH. apply lookup_append_same; [apply make_entry_same | assumption]. }
  apply G. constructor.
Qed.

Lemma movie_folders_with_files (files : folder_item -> list file_item)
      (listing : list folder_item) :
  movie_folders (with_files files listing) =
  with_files files (movie_folders listing).
Proof.
  unfold movie_folders, with_files.
  rewrite filter_map_swap. reflexivity.
Qed.

Lemma find_duplicate_movies_same (files : folder_item -> list file_item)
      (listing : list folder_item) :
  Forall2 (Forall2 same_but_size)
          (find_duplicate_movies listing)
          (find_duplicate_movies (with_files files listing)).
Proof.
  unfold find_duplicate_movies.
  rewrite movie_folders_with_files.
  pose proof (build_lookup_same files (movie_folders listing)) as H.
  destruct (movie_folders listing) as [| f fs] eqn:Ef; simpl with_files.
  - constructor.
  - change (mkFolder (folder_path f) (folder_name f) (is_dir f) (files f)
              :: with_files files fs)
      with (with_files files (f :: fs)) in *.
    cbv iota.
    induction H as [| [k es] [k' es'] d d' [Hk Hes] Hd IH]; simpl; [constructor |].
    simpl in Hes. rewrite <- (Forall2_length Hes).
    destruct (1 <? length es); [constructor |]; assumption.
Qed.

(** C7: the report lists each group in the order [sorted_group] gives it,
    which is descending in the score, a rearrangement of the group, and
    keeps the entries of any one score [v] in the order they were inserted;
    changing the sizes of the entries changes nothing to the order, and
    changing the files of the folders (so also leaving a folder without any
    video file, size 0) changes neither the groups nor their ranking. *)
Theorem ranking_c7 (listing : list folder_item)
        (files : folder_item -> list file_item)
        (group : list entry) (sizes : entry -> Z) (v : Z) :
  map (map snd) (show_duplicate_report listing)
    = map sorted_group (find_duplicate_movies listing) /\
  StronglySorted desc_score (sorted_group group) /\
  Permutation (sorted_group group) group /\
  with_score v (sorted_group group) = with_score v group /\
  sorted_group (map (resize sizes) group)
    = map (resize sizes) (sorted_group group) /\
  Forall2 (Forall2 same_line)
          (show_duplicate_report listing)
          (show_duplicate_report (with_files files listing)).
Proof.
  repeat split.
  - unfold show_duplicate_report. rewrite map_map. apply map_ext.
    intros g. destruct (sorted_group g) as [| e l]; simpl; [reflexivity |].
    rewrite map_map. simpl. rewrite map_id. reflexivity.
  - apply sorted_group_sorted.
  - apply sorted_group_perm.
  - apply sorted_group_stable.
  - apply sorted_group_resize.
  - unfold show_duplicate_report.
    pose proof (find_duplicate_movies_same files listing) as H.
    induction H; simpl; constructor; [| assumption].
    apply label_group_same, sorted_group_same. assumption.
Qed.

(** ** The matcher and the patterns it may match *)

Section MatcherFacts.
Variable A : Type.
Implicit Types (k : nat -> str -> option A) (s w rest : str).

Lemma rep_greedy_sound p s : forall lo hi pos k a,
  rep_greedy p lo hi pos s k = Some a ->
  exists w rest, s = w ++ rest /\ forallb p w = true /\ lo <= length w /\
                 within hi (length w) /\ k (pos + length w) rest = Some a.
Proof.
  induction s as [| c s IH]; intros lo hi pos k a H; simpl in H.
  - destruct lo; [| discriminate].
    exists [], []. simpl. rewrite Nat.add_0_r.
    repeat split; auto. destruct hi; simpl; lia.
  - assert (Stop : match lo with 0 => k pos (c :: s) | S _ => None end = Some a ->
                   exists w rest, c :: s = w ++ rest /\ forallb p w = true /\
                     lo <= length w /\ within hi (length w) /\
                     k (pos + length w) rest = Some a).
    { intros Hs. destruct lo; [| discriminate].
      exists [], (c :: s). simpl. rewrite Nat.add_0_r.
      repeat split; auto. destruct hi; simpl; lia. }
    destruct (p c) eqn:Hp; simpl in H; [| auto].
    destruct (can_take hi) eqn:Hc; [| auto].
    destruct (rep_greedy p (pred lo) (dec_bound hi) (S pos) s k) as [a' |] eqn:Hr;
      [| auto].
    injection H as ->.
    apply IH in Hr. destruct Hr as (w & rest & -> & Hw & Hlo & Hhi & Hk).
    exists (c :: w), rest. simpl. rewrite Hp, Hw.
    replace (pos + S (length w)) with (S pos + length w) by lia.
    repeat split; auto; [lia |].
    destruct hi as [[| h] |]; simpl in *; try discriminate; try lia; auto.
Qed.

Lemma rep_lazy_sound p s : forall lo hi pos k a,
  rep_lazy p lo hi pos s k = Some a ->
  exists w rest, s = w ++ rest /\ forallb p w = true /\ lo <= length w /\
                 within hi (length w) /\ k (pos + length w) rest = Some a.
Proof.
  induction s as [| c s IH]; intros lo hi pos k a H; simpl in H.
  - destruct lo; [| discriminate].
    destruct (k pos []) eqn:Hk; [| discriminate]. injection H as ->.
    exists [], []. simpl. rewrite Nat.add_0_r.
    repeat split; auto. destruct hi; simpl; lia.
  - assert (More : (if p c && can_take hi
                    then rep_lazy p (pred lo) (dec_bound hi) (S pos) s k
                    else None) = Some a ->
                   exists w rest, c :: s = w ++ rest /\ forallb p w = true /\
                     lo <= length w /\ within hi (length w) /\
                     k (pos + length w) rest = Some a).
    { intros Hm. destruct (p c) eqn:Hp; simpl in Hm; [| discriminate].
      destruct (can_take hi) eqn:Hc; [| discriminate].
      apply IH in Hm. destruct Hm as (w & rest & -> & Hw & Hlo & Hhi & Hk).
      exists (c :: w), rest. simpl. rewrite Hp, Hw.
      replace (pos + S (length w)) with (S pos + length w) by lia.
      repeat split; auto; [lia |].
      destruct hi as [[| h] |]; simpl in *; try discriminate; try lia; auto. }
    destruct lo; [| auto].
    destruct (k pos (c :: s)) eqn:Hk; [| auto].
    injection H as ->.
    exists [], (c :: s). simpl. rewrite Nat.add_0_r.
    repeat split; auto. destruct hi; simpl; lia.
Qed.

Lemma can_take_within hi n : within hi (S n) -> can_take hi = true.
Proof. destruct hi as [[| h] |]; simpl; auto; lia. Qed.

Lemma within_dec hi n : within hi (S n) -> within (dec_bound hi) n.
Proof. destruct hi as [[| h] |]; simpl; auto; lia. Qed.

Lemma rep_greedy_complete p w : forall lo hi pos rest k a,
  forallb p w = true -> lo <= length w -> within hi (length w) ->
  k (pos + length w) rest = Some a ->
  exists a', rep_greedy p lo hi pos (w ++ rest) k = Some a'.
Proof.
  induction w as [| c w IH]; intros lo hi pos rest k a Hw Hlo Hhi Hk; simpl in *.
  - rewrite Nat.add_0_r in Hk. assert (lo = 0) as -> by lia.
    destruct rest as [| c rest]; simpl; [eauto |].
    destruct (p c && can_take hi); [| eauto].
    destruct (rep_greedy p 0 (dec_bound hi) (S pos) rest k); eauto.
  - apply andb_prop in Hw. destruct Hw as [Hp Hw].
    rewrite Hp, (can_take_within _ _ Hhi). simpl.
    destruct (IH (pred lo) (dec_bound hi) (S pos) rest k a) as [a' Ha'];
      auto; [lia | apply within_dec; assumption
             | rewrite <- Hk; f_equal; lia |].
    rewrite Ha'. eauto.
Qed.

Lemma rep_lazy_complete p w : forall lo hi pos rest k a,
  forallb p w = true -> lo <= length w -> within hi (length w) ->
  k (pos + length w) rest = Some a ->
  exists a', rep_lazy p lo hi pos (w ++ rest) k = Some a'.
Proof.
  induction w as [| c w IH]; intros lo hi pos rest k a Hw Hlo Hhi Hk; simpl in *.
  - rewrite Nat.add_0_r in Hk. assert (lo = 0) as -> by lia.
    destruct rest as [| c rest]; simpl; rewrite Hk; eauto.
  - apply andb_prop in Hw. destruct Hw as [Hp Hw].
    rewrite Hp, (can_take_within _ _ Hhi). simpl.
    destruct (IH (pred lo) (dec_bound hi) (S pos) rest k a) as [a' Ha'];
      auto; [lia | apply within_dec; assumption
             | rewrite <- Hk; f_equal; lia |].
    rewrite Ha'. destruct lo; [| eauto].
    destruct (k pos (c :: w ++ rest)); eauto.
Qed.

(** Whatever the matcher returns was returned by the rest of the
    pattern, after one of the possible matches of [r]. *)
Lemma match_re_sound r : forall pos s g (k : nat -> str -> groups -> option A) a,
  match_re r pos s g k = Some a ->
  exists w rest g', s = w ++ rest /\ Matches r pos w rest g g' /\
                    k (pos + length w) rest g' = Some a.
Proof.
  induction r as [| p | p lo hi greedy | r1 IH1 r2 IH2 | r1 IH1 r2 IH2
                  | r1 IH1 | n r1 IH1 | |];
    intros pos s g k a H; simpl in H.
  - exists [], s, g. simpl. rewrite Nat.add_0_r. repeat split; auto. constructor.
  - destruct s as [| c s]; [discriminate |].
    destruct (p c) eqn:Hp; [| discriminate].
    exists [c], s, g. simpl. replace (pos + 1) with (S pos) by lia.
    repeat split; auto. constructor; assumption.
  - assert (E : exists w rest, s = w ++ rest /\ forallb p w = true /\
                  lo <= length w /\ within hi (length w) /\
                  k (pos + length w) rest g = Some a).
    { destruct greedy; [apply rep_greedy_sound in H | apply rep_lazy_sound in H];
        exact H. }
    destruct E as (w & rest & -> & Hw & Hlo & Hhi & Hk).
    exists w, rest, g. repeat split; auto. constructor; assumption.
  - apply IH1 in H. destruct H as (w1 & rest1 & g1 & -> & M1 & H).
    apply IH2 in H. destruct H as (w2 & rest & g2 & -> & M2 & H).
    exists (w1 ++ w2), rest, g2. rewrite <- app_assoc, length_app, Nat.add_assoc.
    repeat split; auto. econstructor; eassumption.
  - destruct (match_re r1 pos s g k) as [a' |] eqn:H1.
    + injection H as ->. apply IH1 in H1.
      destruct H1 as (w & rest & g' & -> & M & Hk).
      exists w, rest, g'. repeat split; auto. apply M_AltL; assumption.
    + apply IH2 in H. destruct H as (w & rest & g' & -> & M & Hk).
      exists w, rest, g'. repeat split; auto. apply M_AltR; assumption.
  - destruct (match_re r1 pos s g k) as [a' |] eqn:H1.
    + injection H as ->. apply IH1 in H1.
      destruct H1 as (w & rest & g' & -> & M & Hk).
      exists w, rest, g'. repeat split; auto. apply M_OptSome; assumption.
    + exists [], s, g. simpl. rewrite Nat.add_0_r. repeat split; auto.
      apply M_OptNone.
  - apply IH1 in H. destruct H as (w & rest & g' & -> & M & Hk).
    exists w, rest, (set_group n w g').
    replace (pos + length w - pos) with (length w) in Hk by lia.
    rewrite firstn_app, Nat.sub_diag, firstn_all in Hk. simpl in Hk.
    rewrite app_nil_r in Hk.
    repeat split; auto. constructor; assumption.
  - destruct (Nat.eqb_spec pos 0) as [-> |]; [| discriminate].
    exists [], s, g. simpl. repeat split; auto. constructor.
  - exists [], s, g. simpl. rewrite Nat.add_0_r.
    destruct s as [| c [| c' s]]; try discriminate.
    + repeat split; auto. constructor. auto.
    + destruct (Ascii.eqb_spec c newline) as [-> |]; [| discriminate].
      repeat split; auto. constructor. auto.
Qed.

(** Any possible match of [r] that the rest of the pattern accepts makes
    the matcher return something. *)
Lemma match_re_complete r pos w rest g g' :
  Matches r pos w rest g g' ->
  forall (k : nat -> str -> groups -> option A) a,
    k (pos + length w) rest g' = Some a ->
    exists a', match_re r pos (w ++ rest) g k = Some a'.
Proof.
  induction 1 as [pos rest g | p c pos rest g Hp
                  | p lo hi greedy pos w rest g Hw Hlo Hhi
                  | r1 r2 pos w1 w2 rest g g1 g2 M1 IH1 M2 IH2
                  | r1 r2 pos w rest g g' M IH | r1 r2 pos w rest g g' M IH
                  | r pos w rest g g' M IH | r pos rest g
                  | n r pos w rest g g' M IH | rest g | pos rest g Hrest];
    intros k a Hk; simpl in *.
  - rewrite Nat.add_0_r in Hk. eauto.
  - rewrite Hp. replace (pos + 1) with (S pos) in Hk by lia. eauto.
  - destruct greedy.
    + eapply rep_greedy_complete with (k := fun pos' s' => k pos' s' g); eauto.
    + eapply rep_lazy_complete with (k := fun pos' s' => k pos' s' g); eauto.
  - rewrite length_app, Nat.add_assoc in Hk.
    destruct (IH2 k a Hk) as [a2 H2].
    rewrite <- app_assoc. eapply IH1. exact H2.
  - destruct (IH k a Hk) as [a' ->]. eauto.
  - destruct (IH k a Hk) as [a' Ha'].
    destruct (match_re r1 pos (w ++ rest) g k); eauto.
  - destruct (IH k a Hk) as [a' ->]. eauto.
  - rewrite Nat.add_0_r in Hk.
    destruct (match_re r pos rest g k); eauto.
  - eapply IH.
    replace (pos + length w - pos) with (length w) by lia.
    rewrite firstn_app, Nat.sub_diag, firstn_all. simpl.
    rewrite app_nil_r. exact Hk.
  - eauto.
  - rewrite Nat.add_0_r in Hk.
    destruct Hrest as [-> | ->]; simpl; eauto.
Qed.
End MatcherFacts.

(** ** The episode patterns capture numbers *)

Ltac inv_matches :=
  repeat match goal with
  | H : Matches (Seq _ _) _ _ _ _ _ |- _ => inversion H; subst; clear H
  | H : Matches (Grp _ _) _ _ _ _ _ |- _ => inversion H; subst; clear H
  | H : Matches (Opt _) _ _ _ _ _ |- _ => inversion H; subst; clear H
  | H : Matches (Alt _ _) _ _ _ _ _ |- _ => inversion H; subst; clear H
  | H : Matches (Chr _) _ _ _ _ _ |- _ => inversion H; subst; clear H
  | H : Matches (Rep _ _ _ _) _ _ _ _ _ |- _ => inversion H; subst; clear H
  | H : Matches Eps _ _ _ _ _ |- _ => inversion H; subst; clear H
  | H : Matches Bos _ _ _ _ _ |- _ => inversion H; subst; clear H
  | H : Matches Eos _ _ _ _ _ |- _ => inversion H; subst; clear H
  end.

Lemma match_at_sound (r : regex) (pos : nat) (s : str) (m : match_obj) :
  match_at r pos s = Some m ->
  exists w rest, s = w ++ rest /\ Matches r pos w rest no_groups (m_groups m) /\
                 m_end m = pos + length w.
Proof.
  unfold match_at. intros H. apply match_re_sound in H.
  destruct H as (w & rest & g' & -> & M & E). injection E as <-.
  exists w, rest. auto.
Qed.

Lemma match_at_complete (r : regex) (pos : nat) (w rest : str) (g' : groups) :
  Matches r pos w rest no_groups g' ->
  exists m, match_at r pos (w ++ rest) = Some m.
Proof.
  intros M. unfold match_at.
  eapply match_re_complete in M; [exact M | reflexivity].
Qed.

Lemma number_group_intro (w : str) :
  forallb is_digit w = true -> 1 <= length w -> number_group (Some w).
Proof. intros Hd Hl. exists w. repeat split; assumption. Qed.

Lemma pattern1_groups (s : str) (m : match_obj) :
  re_match pattern1 s = Some m ->
  (exists t, m_groups m 1 = Some t) /\
  number_group (m_groups m 2) /\ number_group (m_groups m 3) /\
  optional_number_group (m_groups m 4) /\ optional_number_group (m_groups m 5).
Proof.
  intros H. apply match_at_sound in H. destruct H as (w & rest & _ & M & _).
  unfold pattern1, seq, digits12 in M. cbn [fold_right] in M.
  inv_matches; unfold set_group, no_groups; cbn [Nat.eqb];
    repeat split;
    solve [ eexists; reflexivity
          | apply number_group_intro; assumption
          | right; apply number_group_intro; assumption
          | left; reflexivity ].
Qed.

Lemma pattern2_groups (s : str) (m : match_obj) :
  re_match pattern2 s = Some m ->
  (exists t, m_groups m 1 = Some t) /\
  number_group (m_groups m 2) /\ number_group (m_groups m 3).
Proof.
  intros H. apply match_at_sound in H. destruct H as (w & rest & _ & M & _).
  unfold pattern2, seq, digits12 in M. cbn [fold_right] in M.
  inv_matches; unfold set_group, no_groups; cbn [Nat.eqb];
    (split; [eexists; reflexivity |]);
    split; apply number_group_intro; assumption.
Qed.

Lemma pattern3_groups (s : str) (m : match_obj) :
  re_match pattern3 s = Some m ->
  (exists t, m_groups m 1 = Some t) /\
  number_group (m_groups m 2) /\ number_group (m_groups m 3).
Proof.
  intros H. apply match_at_sound in H. destruct H as (w & rest & _ & M & _).
  unfold pattern3, lit_ci, seq, digits12 in M.
  cbn [fold_right map list_ascii_of_string] in M.
  inv_matches; unfold set_group, no_groups; cbn [Nat.eqb];
    (split; [eexists; reflexivity |]);
    split; apply number_group_intro; assumption.
Qed.

Lemma py_int_number (o : option str) :
  number_group o -> exists z, py_int o = Ok z /\ truthy o = true.
Proof.
  intros (w & -> & Hd & Hl). unfold py_int, truthy.
  destruct w as [| c w]; [simpl in Hl; lia |].
  cbn [nonempty]. rewrite Hd. simpl. eauto.
Qed.

(** [get_episode_info] raises nothing, and what it returns either has a
    season and at least one episode number, or is the initial dictionary. *)
Lemma get_episode_info_returns (filename : str) :
  exists info, get_episode_info filename = Ok info /\
    ((season info <> None /\ episode info <> None /\ episodes info <> [])
     \/ info = episode_info_init).
Proof.
  unfold get_episode_info.
  destruct (re_match pattern1 (stem filename)) as [m |] eqn:E1.
  - apply pattern1_groups in E1. destruct E1 as ((t1 & ->) & G2 & G3 & G4 & G5).
    cbn [title_of_group bind].
    destruct (py_int_number G2) as (z2 & -> & _).
    destruct (py_int_number G3) as (z3 & -> & _).
    cbn [bind].
    destruct G4 as [-> | G4]; [| destruct (py_int_number G4) as (z4 & -> & ->)];
      (destruct G5 as [-> | G5]; [| destruct (py_int_number G5) as (z5 & -> & ->)]);
      cbn [bind truthy fst snd];
      eexists; (split; [reflexivity |]); left; cbn;
      repeat split; discriminate.
  - destruct (re_match pattern2 (stem filename)) as [m |] eqn:E2.
    + apply pattern2_groups in E2. destruct E2 as ((t1 & ->) & G2 & G3).
      cbn [title_of_group bind].
      destruct (py_int_number G2) as (z2 & -> & _).
      destruct (py_int_number G3) as (z3 & -> & _).
      cbn [bind]. eexists; (split; [reflexivity |]); left; cbn;
      repeat split; discriminate.
    + destruct (re_match pattern3 (stem filename)) as [m |] eqn:E3.
      * apply pattern3_groups in E3. destruct E3 as ((t1 & ->) & G2 & G3).
        cbn [title_of_group bind].
        destruct (py_int_number G2) as (z2 & -> & _).
        destruct (py_int_number G3) as (z3 & -> & _).
        cbn [bind]. eexists; (split; [reflexivity |]); left; cbn;
        repeat split; discriminate.
      * eexists; split; [reflexivity |]. right. reflexivity.
Qed.

(** C8: the three inference functions raise nothing.  [get_episode_info]
    is the only one with operations that can raise ([int] on a group), and
    it returns a dictionary for every name; the other two are built from
    operations that cannot raise.  On the empty string each returns its
    initial value: no season, episode, titles or episode list; the empty
    title without a year; score 0 with every category "Unknown". *)
Theorem core_functions_total (name : str) :
  (exists info, get_episode_info name = Ok info) /\
  (exists t, get_normalized_title name = t) /\
  (exists q, get_quality_score name = q) /\
  get_episode_info [] = Ok (mkEpisodeInfo None None [] None None false) /\
  get_normalized_title [] = mkTitleInfo [] None /\
  get_quality_score [] =
    mkQuality 0 "Unknown" "Unknown" "Unknown" "Unknown" false [].
Proof.
  repeat split; try (eexists; reflexivity).
  destruct (get_episode_info_returns name) as (info & E & _). eauto.
Qed.

(** C6: in the dictionary [get_episode_info] returns, the list [episodes]
    is non-empty exactly when [season] is set. *)
Theorem episodes_iff_season (filename : str) :
  exists info, get_episode_info filename = Ok info /\
               (episodes info <> [] <-> season info <> None).
Proof.
  destruct (get_episode_info_returns filename) as (info & E & [(Hs & _ & He) | ->]).
  - exists info. split; [assumption |]. tauto.
  - eexists. split; [eassumption |]. simpl. tauto.
Qed.

(** ** Characters *)

Ltac all_chars c := destruct c as [[] [] [] [] [] [] [] []]; vm_compute; try reflexivity.

Lemma str_eqb_eq (a b : str) : str_eqb a b = true <-> a = b.
Proof.
  unfold str_eqb. destruct (list_eq_dec ascii_dec a b); split;
    congruence || auto.
Qed.

Lemma str_eqb_refl (a : str) : str_eqb a a = true.
Proof. apply str_eqb_eq. reflexivity. Qed.

Lemma str_eqb_neq (a b : str) : str_eqb a b = false <-> a <> b.
Proof.
  unfold str_eqb. destruct (list_eq_dec ascii_dec a b); split;
    congruence || auto.
Qed.

Lemma is_space_lower (c : ascii) : is_space (lower_char c) = is_space c.
Proof. all_chars c. Qed.

Lemma lower_char_idem (c : ascii) : lower_char (lower_char c) = lower_char c.
Proof. all_chars c. Qed.

Lemma sep_class_lower (c : ascii) : sep_class (lower_char c) = sep_class c.
Proof. all_chars c. Qed.

(** ** Runs, [strip] *)

Lemma skipn_run (p : ascii -> bool) (s : str) : skipn (run p s) s = drop_while p s.
Proof.
  induction s as [| c s IH]; simpl; [reflexivity |].
  destruct (p c); simpl; auto.
Qed.

Lemma run_le (p : ascii -> bool) (s : str) : run p s <= length s.
Proof. induction s as [| c s IH]; simpl; [lia |]. destruct (p c); simpl; lia. Qed.

Lemma drop_while_length (p : ascii -> bool) (s : str) :
  length (drop_while p s) <= length s.
Proof. induction s as [| c s IH]; simpl; [lia |]. destruct (p c); simpl; lia. Qed.

Lemma drop_while_starts (p : ascii -> bool) (s : str) :
  starts_in p (drop_while p s) = false.
Proof.
  induction s as [| c s IH]; simpl; [reflexivity |].
  destruct (p c) eqn:E; simpl; auto.
Qed.

Lemma drop_while_nil (p : ascii -> bool) (s : str) :
  drop_while p s = [] <-> forallb p s = true.
Proof.
  induction s as [| c s IH]; simpl; [tauto |].
  destruct (p c); simpl; [exact IH |]. split; discriminate.
Qed.


Lemma drop_while_suffix (p : ascii -> bool) (s : str) :
  exists a, s = a ++ drop_while p s /\ forallb p a = true.
Proof.
  induction s as [| c s (a & E & Ha)]; simpl.
  - exists []. auto.
  - destruct (p c) eqn:Hc.
    + exists (c :: a). simpl. rewrite Hc, Ha, <- E. auto.
    + exists []. auto.
Qed.

Lemma forallb_drop_while (p : ascii -> bool) (s : str) :
  forallb p (drop_while p s) = forallb p s.
Proof.
  induction s as [| c s IH]; simpl; [reflexivity |].
  destruct (p c) eqn:E; simpl; [exact IH | rewrite E; reflexivity].
Qed.

Lemma forallb_map (p : ascii -> bool) (f : ascii -> ascii) (s : str) :
  forallb p (map f s) = forallb (fun c => p (f c)) s.
Proof. induction s as [| c s IH]; simpl; [| rewrite IH]; reflexivity. Qed.

Lemma forallb_ext (p q : ascii -> bool) (s : str) :
  (forall c, p c = q c) -> forallb p s = forallb q s.
Proof.
  intros E. induction s as [| c s IH]; simpl; [| rewrite IH, E]; reflexivity.
Qed.

Lemma forallb_rev (p : ascii -> bool) (s : str) :
  forallb p (rev s) = forallb p s.
Proof.
  induction s as [| c s IH]; simpl; [reflexivity |].
  rewrite forallb_app, IH. simpl. rewrite andb_true_r. apply andb_comm.
Qed.

Lemma strip_by_nil (p : ascii -> bool) (s : str) :
  strip_by p s = [] <-> forallb p s = true.
Proof.
  unfold strip_by.
  rewrite <- forallb_drop_while with (s := s).
  rewrite <- forallb_rev with (s := drop_while p s).
  rewrite <- drop_while_nil.
  split; intros H.
  - apply (f_equal (@rev ascii)) in H. rewrite rev_involutive in H. exact H.
  - rewrite H. reflexivity.
Qed.

(** A stripped string does not end with a character of the class. *)
Lemma strip_by_last (p : ascii -> bool) (s a : str) (c : ascii) :
  strip_by p s = a ++ [c] -> p c = false.
Proof.
  unfold strip_by. intros H.
  pose proof (drop_while_starts p (rev (drop_while p s))) as D.
  destruct (drop_while p (rev (drop_while p s))) as [| c' l]; simpl in *.
  - destruct a; discriminate.
  - apply app_inj_tail in H. destruct H as [_ ->]. exact D.
Qed.

(** ** Substitution *)

Lemma sub_from_skip (r : regex) (repl : list repl_item) (s : str) :
  forall pos n, n <= length s ->
    sub_from r repl pos s n = sub_from r repl (pos + n) (skipn n s) 0.
Proof.
  induction s as [| c s IH]; intros pos n Hn.
  - simpl in Hn. assert (n = 0) as -> by lia. rewrite Nat.add_0_r. reflexivity.
  - destruct n as [| n].
    + rewrite Nat.add_0_r. reflexivity.
    + change (sub_from r repl pos (c :: s) (S n))
        with (sub_from r repl (S pos) s n).
      simpl in Hn. rewrite IH by lia. simpl skipn. f_equal. lia.
Qed.

Lemma sub_from_none (r : regex) (repl : list repl_item) (pos : nat)
      (c : ascii) (s : str) :
  match_at r pos (c :: s) = None ->
  sub_from r repl pos (c :: s) 0 = c :: sub_from r repl (S pos) s 0.
Proof. intros H. simpl. rewrite H. reflexivity. Qed.

Lemma sub_from_some (r : regex) (repl : list repl_item) (pos n : nat)
      (c : ascii) (s : str) (m : match_obj) :
  match_at r pos (c :: s) = Some m -> m_end m = pos + S n -> n <= length s ->
  sub_from r repl pos (c :: s) 0 =
  expand repl (m_groups m) ++ sub_from r repl (S pos + n) (skipn n s) 0.
Proof.
  intros H E Hn. simpl. rewrite H, E.
  replace (pos + S n - pos) with (S n) by lia.
  rewrite sub_from_skip by assumption. reflexivity.
Qed.

(** A one-character pattern replaced by a space is a [map]. *)
Lemma sub_chr_space (p : ascii -> bool) (s : str) : forall pos,
  sub_from (Chr p) [Lit " "] pos s 0 =
  map (fun c => if p c then " "%char else c) s.
Proof.
  induction s as [| c s IH]; intros pos; [reflexivity |].
  destruct (p c) eqn:Hp.
  - rewrite sub_from_some with (n := 0) (m := mkMatch (S pos) no_groups).
    + simpl. rewrite Nat.add_0_r, IH, Hp. reflexivity.
    + unfold match_at. simpl. rewrite Hp. reflexivity.
    + simpl. lia.
    + lia.
  - rewrite sub_from_none.
    + simpl. rewrite IH, Hp. reflexivity.
    + unfold match_at. simpl. rewrite Hp. reflexivity.
Qed.

(** A greedy, unbounded repetition in front of a continuation that always
    accepts takes the whole run. *)
Lemma rep_greedy_run (A : Type) (p : ascii -> bool) (f : nat -> str -> A)
      (s : str) : forall lo pos,
  rep_greedy p lo None pos s (fun pos' s' => Some (f pos' s')) =
  if lo <=? run p s then Some (f (pos + run p s) (drop_while p s)) else None.
Proof.
  induction s as [| c s IH]; intros lo pos; simpl.
  - destruct lo; simpl; [rewrite Nat.add_0_r |]; reflexivity.
  - destruct (p c) eqn:Hp; simpl.
    + rewrite IH. destruct lo as [| lo]; simpl.
      * replace (pos + S (run p s)) with (S pos + run p s) by lia. reflexivity.
      * replace (pos + S (run p s)) with (S pos + run p s) by lia.
        destruct (lo <=? run p s); reflexivity.
    + destruct lo; simpl; [rewrite Nat.add_0_r |]; reflexivity.
Qed.

Lemma squeeze_run (c : ascii) (s : str) :
  is_space c = true ->
  squeeze (c :: s) = " "%char :: squeeze (drop_while is_space s).
Proof.
  intros Hc. revert c Hc.
  induction s as [| c' s IH]; intros c Hc.
  - simpl. rewrite Hc. reflexivity.
  - change (squeeze (c :: c' :: s))
      with (if is_space c
            then if is_space c' then squeeze (c' :: s)
                 else " "%char :: squeeze (c' :: s)
            else c :: squeeze (c' :: s)).
    rewrite Hc. simpl drop_while. destruct (is_space c') eqn:Hc'.
    + apply IH; assumption.
    + reflexivity.
Qed.

(** [re.sub(r'\s+', ' ', s)] is [squeeze s]. *)
Lemma sub_spaces_squeeze (s : str) : forall pos,
  sub_from re_spaces [Lit " "] pos s 0 = squeeze s.
Proof.
  remember (length s) as n eqn:Hn. revert s Hn.
  induction n as [n IH] using lt_wf_ind. intros s Hn pos.
  destruct s as [| c s]; [reflexivity |].
  assert (M : match_at re_spaces pos (c :: s) =
              if is_space c then Some (mkMatch (pos + S (run is_space s)) no_groups)
              else None).
  { unfold match_at, re_spaces. cbn [match_re].
    rewrite rep_greedy_run with (f := fun pos' _ => mkMatch pos' no_groups).
    simpl. destruct (is_space c); reflexivity. }
  destruct (is_space c) eqn:Hc.
  - rewrite sub_from_some with (n := run is_space s)
                               (m := mkMatch (pos + S (run is_space s)) no_groups);
      auto using run_le.
    rewrite skipn_run, squeeze_run by assumption. simpl. f_equal.
    apply IH with (m := length (drop_while is_space s)); [| reflexivity].
    subst n. simpl. pose proof (drop_while_length is_space s). lia.
  - rewrite sub_from_none by assumption.
    simpl. rewrite Hc. f_equal.
    apply IH with (m := length s); [subst n; simpl; lia | reflexivity].
Qed.

(** A pattern anchored at the start can only match at index 0. *)
Lemma sub_from_anchored (r : regex) (repl : list repl_item) (s : str) :
  forall pos, 0 < pos -> sub_from (Seq Bos r) repl pos s 0 = s.
Proof.
  induction s as [| c s IH]; intros pos Hpos.
  - simpl. unfold match_at. simpl.
    destruct pos; [lia | reflexivity].
  - rewrite sub_from_none; [rewrite IH by lia; reflexivity |].
    unfold match_at. simpl. destruct pos; [lia | reflexivity].
Qed.

Lemma re_sub_anchored (r : regex) (repl : list repl_item) (s : str) :
  re_sub (Seq Bos r) repl s =
  match match_at (Seq Bos r) 0 s with
  | Some m => expand repl (m_groups m) ++ skipn (m_end m) s
  | None => s
  end.
Proof.
  unfold re_sub.
  destruct (match_at (Seq Bos r) 0 s) as [m |] eqn:E.
  - pose proof (match_at_sound _ _ _ E) as (w & rest & Hs & _ & He).
    simpl in He.
    destruct s as [| c s]; simpl; rewrite E.
    + destruct w; [| discriminate]. simpl in He. rewrite He. reflexivity.
    + rewrite Nat.sub_0_r. destruct (m_end m) as [| n] eqn:En.
      * rewrite sub_from_anchored by lia. reflexivity.
      * assert (n <= length s).
        { apply (f_equal (@length ascii)) in Hs. rewrite length_app in Hs.
          simpl in Hs. lia. }
        rewrite sub_from_skip by assumption.
        rewrite sub_from_anchored by lia. reflexivity.
  - destruct s as [| c s]; simpl; rewrite E; [reflexivity |].
    rewrite sub_from_anchored by lia. reflexivity.
Qed.

(** ** Title normalization: when the title is empty *)

Lemma sep_to_space_eq (c : ascii) :
  (if one_of "_-" (if Ascii.eqb "." c then " "%char else c) then " "%char
   else if Ascii.eqb "." c then " "%char else c) = sep_to_space c.
Proof. all_chars c. Qed.

Lemma is_space_sep_to_space (c : ascii) : is_space (sep_to_space c) = sep_class c.
Proof. all_chars c. Qed.

Lemma normalize_spaces_eq (u : str) :
  normalize_spaces u = lower (strip (squeeze (map sep_to_space u))).
Proof.
  unfold normalize_spaces, re_sub, re_dot, re_underscore_hyphen.
  rewrite sub_spaces_squeeze, !sub_chr_space, map_map.
  do 3 f_equal. apply map_ext. intros c. apply sep_to_space_eq.
Qed.

Lemma forallb_space_squeeze (v : str) :
  forallb is_space (squeeze v) = forallb is_space v.
Proof.
  induction v as [| c v IH]; simpl; [reflexivity |].
  destruct (is_space c) eqn:Hc; simpl.
  - destruct (starts_in is_space v); simpl; exact IH.
  - rewrite Hc. reflexivity.
Qed.

Lemma normalize_spaces_nil (u : str) :
  normalize_spaces u = [] <-> forallb sep_class u = true.
Proof.
  rewrite normalize_spaces_eq. unfold lower, strip.
  split.
  - intros H. apply map_eq_nil in H. apply strip_by_nil in H.
    rewrite forallb_space_squeeze, forallb_map in H.
    rewrite <- H. apply forallb_ext. intros c.
    symmetry. apply is_space_sep_to_space.
  - intros H.
    assert (E : strip_by is_space (squeeze (map sep_to_space u)) = []).
    { apply strip_by_nil. rewrite forallb_space_squeeze, forallb_map.
      rewrite <- H. apply forallb_ext. intros c. apply is_space_sep_to_space. }
    rewrite E. reflexivity.
Qed.

(** The normalized string does not end with a blank. *)
Lemma normalize_spaces_last (u a : str) (c : ascii) :
  normalize_spaces u = a ++ [c] -> is_space c = false.
Proof.
  rewrite normalize_spaces_eq. unfold lower. intros H.
  apply map_eq_app in H. destruct H as (a' & l & E & _ & Hl).
  destruct l as [| c' [| ? ?]]; try discriminate.
  injection Hl as <-. rewrite is_space_lower.
  eapply strip_by_last. exact E.
Qed.

Lemma re_article_match (x : str) (m : match_obj) :
  match_at re_article 0 x = Some m ->
  exists art ws rest,
    x = art ++ ws ++ rest /\ m_end m = length (art ++ ws) /\
    In art (strs ["the"; "a"; "an"]) /\
    forallb is_space ws = true /\ 1 <= length ws.
Proof.
  intros H. apply match_at_sound in H. destruct H as (w & rest & -> & M & E).
  unfold re_article, seq, alts, lit in M.
  cbn [fold_right map list_ascii_of_string] in M.
  inv_matches;
    repeat match goal with
           | H : Ascii.eqb _ _ = true |- _ => apply Ascii.eqb_eq in H; subst
           end;
    match goal with
    | |- context [ [] ++ ?a ++ ?ws ++ [] ] => exists a, ws, rest
    end;
    (split; [cbn [app]; rewrite app_nil_r; reflexivity |]);
    (split; [rewrite E, !length_app; simpl; lia |]);
    (split; [| split; assumption]); simpl; auto.
Qed.

Lemma remove_article_eq (x : str) :
  remove_article x =
  match match_at re_article 0 x with
  | Some m => skipn (m_end m) x
  | None => x
  end.
Proof.
  unfold remove_article, re_article, seq. cbn [fold_right].
  rewrite re_sub_anchored. destruct (match_at _ 0 x); reflexivity.
Qed.

Lemma remove_article_nil (x : str) :
  (forall a c, x = a ++ [c] -> is_space c = false) ->
  remove_article x = [] <-> x = [].
Proof.
  intros Hlast. rewrite remove_article_eq.
  destruct (match_at re_article 0 x) as [m |] eqn:E; [| tauto].
  apply re_article_match in E.
  destruct E as (art & ws & rest & -> & -> & _ & Hws & Hlen).
  rewrite app_assoc, skipn_app, skipn_all, Nat.sub_diag. simpl.
  split.
  - intros ->. exfalso.
    destruct (exists_last (l := ws)) as (ws' & c & ->).
    { intros ->. simpl in Hlen. lia. }
    rewrite forallb_app in Hws. simpl in Hws.
    apply andb_prop in Hws. destruct Hws as [_ Hc].
    rewrite andb_true_r in Hc.
    rewrite (Hlast (art ++ ws') c) in Hc; [discriminate |].
    rewrite app_nil_r, app_assoc. reflexivity.
  - intros H. apply app_eq_nil in H. tauto.
Qed.

(** ** Truncation at a year or a tag *)

Lemma has_suffix (Q : str -> Prop) (a t : str) : has Q t -> has Q (a ++ t).
Proof.
  intros (a' & f & b & -> & HQ). exists (a ++ a'), f, b.
  rewrite <- app_assoc. auto.
Qed.

Lemma has_prefix (Q : str -> Prop) (t b : str) : has Q t -> has Q (t ++ b).
Proof.
  intros (a & f & b' & -> & HQ). exists a, f, (b' ++ b).
  rewrite <- !app_assoc. auto.
Qed.

Lemma has_skipn (Q : str -> Prop) (n : nat) (t : str) :
  has Q (skipn n t) -> has Q t.
Proof.
  intros H. rewrite <- (firstn_skipn n t). apply has_suffix. exact H.
Qed.


Lemma forallb_dot_app (a b : str) :
  forallb dot (a ++ b) = true -> forallb dot a = true /\ forallb dot b = true.
Proof. rewrite forallb_app. apply andb_prop. Qed.

(** On a subject without line feed, [$] only holds at the end. *)
Lemma eos_no_newline (rest : str) :
  forallb dot rest = true -> rest = [] \/ rest = [newline] -> rest = [].
Proof. intros H [-> | ->]; [reflexivity | discriminate]. Qed.

Lemma matches_lit (t : str) : forall pos w rest g g',
  Matches (lit t) pos w rest g g' -> w = t /\ g' = g.
Proof.
  unfold lit, seq.
  induction t as [| a t IH]; intros pos w rest g g' M; cbn [map fold_right] in M.
  - inversion M; subst. auto.
  - inversion M; subst.
    match goal with
    | H : Matches (Chr _) _ _ _ _ _ |- _ => inversion H; subst
    end.
    match goal with
    | H : Ascii.eqb _ _ = true |- _ => apply Ascii.eqb_eq in H; subst
    end.
    match goal with
    | H : Matches (fold_right _ _ _) _ _ _ _ _ |- _ =>
        apply IH in H; destruct H as [-> ->]
    end.
    auto.
Qed.

Lemma lit_matches (t : str) : forall pos rest g,
  Matches (lit t) pos t rest g g.
Proof.
  unfold lit, seq.
  induction t as [| a t IH]; intros pos rest g; cbn [map fold_right].
  - constructor.
  - change (a :: t) with ([a] ++ t). eapply M_Seq.
    + constructor. apply Ascii.eqb_refl.
    + apply IH.
Qed.

Lemma matches_lit_ci (t : str) : forall pos w rest g g',
  Matches (lit_ci t) pos w rest g g' -> lower w = lower t /\ g' = g.
Proof.
  unfold lit_ci, seq.
  induction t as [| a t IH]; intros pos w rest g g' M; cbn [map fold_right] in M.
  - inversion M; subst. auto.
  - inversion M; subst.
    match goal with
    | H : Matches (Chr _) _ _ _ _ _ |- _ => inversion H; subst
    end.
    match goal with
    | H : ci _ _ = true |- _ => apply Ascii.eqb_eq in H
    end.
    match goal with
    | H : Matches (fold_right _ _ _) _ _ _ _ _ |- _ =>
        apply IH in H; destruct H as [E ->]
    end.
    split; [| reflexivity]. simpl. f_equal; assumption.
Qed.

Lemma lit_ci_matches (t : str) : forall pos w rest g,
  lower w = lower t -> Matches (lit_ci t) pos w rest g g.
Proof.
  unfold lit_ci, seq.
  induction t as [| a t IH]; intros pos w rest g E; cbn [map fold_right].
  - destruct w; [constructor | discriminate].
  - destruct w as [| c w]; [discriminate |]. injection E as Ec Ew.
    change (c :: w) with ([c] ++ w). eapply M_Seq.
    + constructor. unfold ci. rewrite Ec. apply Ascii.eqb_refl.
    + apply IH. exact Ew.
Qed.

Lemma matches_alts (rs : list regex) : forall pos w rest g g',
  Matches (alts rs) pos w rest g g' ->
  exists r, In r rs /\ Matches r pos w rest g g'.
Proof.
  induction rs as [| r rs IH]; intros pos w rest g g' M.
  - simpl in M. inversion M; subst. discriminate.
  - destruct rs as [| r' rs].
    + exists r. simpl. auto.
    + change (alts (r :: r' :: rs)) with (Alt r (alts (r' :: rs))) in M.
      inversion M as [| | | | r1 r2 p0 w0 rest0 g0 g0' ML
                      | r1 r2 p0 w0 rest0 g0 g0' MR | | | | |]; subst.
      * exists r. simpl. auto.
      * apply IH in MR. destruct MR as (r0 & Hin & MR).
        exists r0. split; [right |]; assumption.
Qed.

Lemma alts_matches (rs : list regex) (r : regex) : forall pos w rest g g',
  In r rs -> Matches r pos w rest g g' -> Matches (alts rs) pos w rest g g'.
Proof.
  induction rs as [| r1 rs IH]; intros pos w rest g g' Hin M; [contradiction |].
  destruct rs as [| r2 rs].
  - destruct Hin as [-> | []]. exact M.
  - change (alts (r1 :: r2 :: rs)) with (Alt r1 (alts (r2 :: rs))).
    destruct Hin as [-> | Hin].
    + apply M_AltL. exact M.
    + apply M_AltR. apply IH; assumption.
Qed.

Ltac app_norm :=
  repeat (rewrite <- app_assoc || rewrite app_nil_r || rewrite app_nil_l);
  try reflexivity.

Lemma two_chars (w : str) :
  2 <= length w -> length w <= 2 -> exists d1 d2, w = [d1; d2].
Proof.
  destruct w as [| d1 [| d2 [| d3 w]]]; simpl; intros; try lia. eauto.
Qed.

(** What [re_year_tail] and [re_tag_tail] match holds a year, a tag;
    without line feed the match runs to the end of the subject. *)
Lemma year_tail_sound (pos : nat) (s : str) (m : match_obj) :
  match_at re_year_tail pos s = Some m ->
  has year_tok s /\ (forallb dot s = true -> m_end m = pos + length s).
Proof.
  intros H. apply match_at_sound in H. destruct H as (w & rest & -> & M & E).
  unfold re_year_tail, seq in M. cbn [fold_right] in M.
  inversion M as [| | | r1 r2 p0 br w1 rest0 g0 g1 g2 Mbr M1 | | | | | | |]; subst; clear M.
  inversion M1 as [| | | r1 r2 p0 y w2 rest0 g0 g3 g4 My M2 | | | | | | |]; subst; clear M1.
  inversion M2 as [| | | r1 r2 p0 dd w3 rest0 g0 g5 g6 Mdd M3 | | | | | | |]; subst; clear M2.
  inversion M3 as [| | | r1 r2 p0 cl w4 rest0 g0 g7 g8 Mcl M4 | | | | | | |]; subst; clear M3.
  inversion M4 as [| | | r1 r2 p0 tl w5 rest0 g0 g9 g10 Mtl M5 | | | | | | |]; subst; clear M4.
  inversion M5 as [| | | r1 r2 p0 e1 e2 rest0 g0 g11 g12 Me M6 | | | | | | |]; subst; clear M5.
  inversion Me as [| | | | | | | | | | p0 rest0 g0 Hrest]; subst; clear Me.
  inversion M6; subst; clear M6.
  inversion My as [| | | | | | | | n0 r0 p0 w0 rest0 g0 g0' Malt | |]; subst; clear My.
  inversion Mdd; subst; clear Mdd.
  destruct (two_chars dd) as (d1 & d2 & ->); [assumption.. |].
  assert (Hy : In y (strs ["19"; "20"])).
  { inversion Malt; subst;
      match goal with
      | H : Matches (lit _) _ _ _ _ _ |- _ => apply matches_lit in H; destruct H as [-> _]
      end; simpl; auto. }
  split.
  - exists br, (y ++ [d1; d2]), (cl ++ tl ++ rest).
    split; [app_norm |].
    exists y, d1, d2.
    match goal with
    | H : forallb is_digit [d1; d2] = true |- _ =>
        simpl in H; rewrite andb_true_r in H; apply andb_prop in H; destruct H
    end.
    auto.
  - intros Hdot. rewrite E.
    apply forallb_dot_app in Hdot. destruct Hdot as [_ Hdot].
    simpl in Hrest. rewrite (eos_no_newline Hdot Hrest).
    do 2 f_equal. app_norm.
Qed.

Lemma tag_tail_sound (tags : list str) (pos : nat) (s : str) (m : match_obj) :
  match_at (re_tag_tail tags) pos s = Some m ->
  has (tag_tok tags) s /\ (forallb dot s = true -> m_end m = pos + length s).
Proof.
  intros H. apply match_at_sound in H. destruct H as (w & rest & -> & M & E).
  unfold re_tag_tail, seq in M. cbn [fold_right] in M.
  inversion M as [| | | r1 r2 p0 ws w1 rest0 g0 g1 g2 Mws M1 | | | | | | |]; subst; clear M.
  inversion M1 as [| | | r1 r2 p0 tg w2 rest0 g0 g3 g4 Mtg M2 | | | | | | |]; subst; clear M1.
  inversion M2 as [| | | r1 r2 p0 tl w3 rest0 g0 g5 g6 Mtl M3 | | | | | | |]; subst; clear M2.
  inversion M3 as [| | | r1 r2 p0 e1 e2 rest0 g0 g7 g8 Me M4 | | | | | | |]; subst; clear M3.
  inversion Me as [| | | | | | | | | | p0 rest0 g0 Hrest]; subst; clear Me.
  inversion M4; subst; clear M4.
  inversion Mtg as [| | | | | | | | n0 r0 p0 w0 rest0 g0 g0' Malt | |]; subst; clear Mtg.
  apply matches_alts in Malt. destruct Malt as (r & Hin & Mr).
  apply in_map_iff in Hin. destruct Hin as (tag & <- & Hin).
  apply matches_lit_ci in Mr. destruct Mr as [Elow _].
  split.
  - exists ws, tg, (tl ++ rest).
    split; [app_norm |].
    exists tag. auto.
  - intros Hdot. rewrite E.
    apply forallb_dot_app in Hdot. destruct Hdot as [_ Hdot].
    simpl in Hrest. rewrite (eos_no_newline Hdot Hrest).
    do 2 f_equal. app_norm.
Qed.

Lemma year_tail_complete (pos : nat) (f b : str) :
  year_tok f -> forallb dot b = true ->
  exists m, match_at re_year_tail pos (f ++ b) = Some m.
Proof.
  intros (y & d1 & d2 & -> & Hy & H1 & H2) Hb.
  assert (M : Matches re_year_tail pos
                ([] ++ y ++ [d1; d2] ++ [] ++ b ++ [] ++ []) []
                no_groups (set_group 1 y no_groups)).
  { unfold re_year_tail, seq. cbn [fold_right].
    eapply M_Seq; [constructor; simpl; auto; lia |].
    eapply M_Seq.
    { constructor. simpl in Hy. destruct Hy as [<- | [<- | []]].
      - apply M_AltL. apply lit_matches.
      - apply M_AltR. apply lit_matches. }
    eapply M_Seq; [constructor; simpl; auto; rewrite H1, H2; reflexivity |].
    eapply M_Seq; [constructor; simpl; auto; lia |].
    eapply M_Seq; [constructor; simpl; auto; lia |].
    eapply M_Seq; [constructor; auto | constructor]. }
  apply match_at_complete in M. destruct M as [m M]. exists m.
  rewrite <- M. f_equal. app_norm.
Qed.

Lemma tag_tail_complete (tags : list str) (pos : nat) (f b : str) :
  tag_tok tags f -> forallb dot b = true ->
  exists m, match_at (re_tag_tail tags) pos (f ++ b) = Some m.
Proof.
  intros (tag & Hin & E) Hb.
  assert (M : Matches (re_tag_tail tags) pos ([] ++ f ++ b ++ [] ++ []) []
                no_groups (set_group 1 f no_groups)).
  { unfold re_tag_tail, seq. cbn [fold_right].
    eapply M_Seq; [constructor; simpl; auto; lia |].
    eapply M_Seq.
    { constructor. eapply alts_matches.
      - apply in_map. exact Hin.
      - apply lit_ci_matches. exact E. }
    eapply M_Seq; [constructor; simpl; auto; lia |].
    eapply M_Seq; [constructor; auto | constructor]. }
  apply match_at_complete in M. destruct M as [m M]. exists m.
  rewrite <- M. f_equal. app_norm.
Qed.

Lemma year_tok_nonempty (f : str) : year_tok f -> f <> [].
Proof.
  intros (y & d1 & d2 & -> & _) E. apply app_eq_nil in E.
  destruct E as [_ E]. discriminate.
Qed.

Lemma lower_nil (w : str) : lower w = [] -> w = [].
Proof. apply map_eq_nil. Qed.

Lemma tag_tok_nonempty (f : str) : tag_tok title_tags f -> f <> [].
Proof.
  intros (tag & Hin & E) ->.
  simpl in Hin. decompose [or] Hin; subst; try discriminate; contradiction.
Qed.

Section Cut.
Variable r : regex.
Variable Q : str -> Prop.

Hypothesis match_to_end : forall pos s m,
  forallb dot s = true -> match_at r pos s = Some m -> m_end m = pos + length s.
Hypothesis Q_matched : forall pos f b,
  Q f -> forallb dot b = true -> exists m, match_at r pos (f ++ b) = Some m.
Hypothesis Q_nonempty : forall f, Q f -> f <> [].

Lemma sub_from_nil (pos : nat) : sub_from r [] pos [] 0 = [].
Proof. simpl. destruct (match_at r pos []); reflexivity. Qed.

(** On a subject without line feed, deleting the matches of a pattern
    that runs to the end of the line cuts the subject at the first
    match. *)
Lemma sub_cut (s : str) : forall pos,
  forallb dot s = true -> sub_from r [] pos s 0 = cut_at r pos s.
Proof.
  induction s as [| c s IH]; intros pos Hs.
  - rewrite sub_from_nil. simpl. destruct (match_at r pos []); reflexivity.
  - destruct (match_at r pos (c :: s)) as [m |] eqn:E.
    + rewrite sub_from_some with (n := length s) (m := m); auto.
      * rewrite skipn_all, sub_from_nil. simpl. rewrite E. reflexivity.
      * rewrite (@match_to_end pos (c :: s) m Hs E). reflexivity.
    + rewrite sub_from_none by assumption. simpl. rewrite E. f_equal.
      apply IH. simpl in Hs. apply andb_prop in Hs. tauto.
Qed.

Lemma cut_at_prefix (s : str) : forall pos,
  exists rest, s = cut_at r pos s ++ rest.
Proof.
  induction s as [| c s IH]; intros pos; simpl.
  - destruct (match_at r pos []); exists []; reflexivity.
  - destruct (match_at r pos (c :: s)).
    + exists (c :: s). reflexivity.
    + destruct (IH (S pos)) as [rest E]. exists rest. simpl. f_equal. exact E.
Qed.

Lemma cut_at_clean (s : str) : forall pos,
  forallb dot s = true -> ~ has Q (cut_at r pos s).
Proof.
  induction s as [| c s IH]; intros pos Hs (a & f & b & E & HQ).
  - assert (E' : a ++ f ++ b = []).
    { simpl in E. destruct (match_at r pos []); symmetry; exact E. }
    apply app_eq_nil in E'. destruct E' as [_ E'].
    apply app_eq_nil in E'. destruct E' as [E' _].
    exact (@Q_nonempty f HQ E').
  - simpl in E. destruct (match_at r pos (c :: s)) as [m |] eqn:Em.
    + symmetry in E. apply app_eq_nil in E. destruct E as [_ E].
      apply app_eq_nil in E. destruct E as [E _].
      exact (@Q_nonempty f HQ E).
    + destruct a as [| c' a].
      * destruct (cut_at_prefix s (S pos)) as [rest Hrest].
        simpl in E.
        assert (Es : c :: s = f ++ (b ++ rest)).
        { rewrite Hrest at 1. rewrite app_comm_cons, E, app_assoc. reflexivity. }
        destruct (@Q_matched pos f (b ++ rest) HQ) as [m Hm].
        { rewrite Es in Hs. apply forallb_dot_app in Hs. tauto. }
        rewrite <- Es in Hm. congruence.
      * simpl in E. injection E as _ E.
        simpl in Hs. apply andb_prop in Hs.
        apply (IH (S pos)); [tauto |]. exists a, f, b. auto.
Qed.
End Cut.

(** ** Normalization keeps apart what was apart

    A piece of text without blank that shows up in the normalized title
    was already there, up to the case of its letters, before the
    normalization. *)

Ltac all_chars_imp c :=
  destruct c as [[] [] [] [] [] [] [] []]; vm_compute;
  intros; try discriminate; try reflexivity.

Lemma sep_to_space_id (c : ascii) :
  not_space (sep_to_space c) = true -> sep_to_space c = c.
Proof. all_chars_imp c. Qed.

Lemma digit_not_space (c : ascii) : is_digit c = true -> not_space c = true.
Proof. all_chars_imp c. Qed.

Lemma lower_digit (c : ascii) : is_digit (lower_char c) = true -> lower_char c = c.
Proof. all_chars_imp c. Qed.

Lemma map_fixed (g : ascii -> ascii) (P : ascii -> bool) (w : str) :
  (forall c, P (g c) = true -> g c = c) ->
  forallb P (map g w) = true -> map g w = w.
Proof.
  intros Hg. induction w as [| c w IH]; simpl; [reflexivity |].
  intros H. apply andb_prop in H. destruct H as [Hc Hw].
  rewrite (Hg c Hc), IH by assumption. reflexivity.
Qed.

Lemma strip_by_factor (p : ascii -> bool) (y : str) :
  exists pre post, y = pre ++ strip_by p y ++ post.
Proof.
  unfold strip_by.
  destruct (drop_while_suffix p y) as (a & Ea & _).
  destruct (drop_while_suffix p (rev (drop_while p y))) as (a2 & Ea2 & _).
  exists a, (rev a2).
  rewrite <- rev_app_distr, <- Ea2, rev_involutive. exact Ea.
Qed.

Lemma squeeze_starts (v : str) :
  starts_in is_space (squeeze v) = starts_in is_space v.
Proof.
  destruct v as [| c v]; [reflexivity |].
  destruct (is_space c) eqn:Hc.
  - rewrite squeeze_run by assumption. simpl. rewrite Hc. reflexivity.
  - simpl. rewrite Hc. simpl. rewrite Hc. reflexivity.
Qed.

Lemma squeeze_prefix (f : str) : forall v b,
  forallb not_space f = true -> squeeze v = f ++ b -> exists b', v = f ++ b'.
Proof.
  induction f as [| d f IH]; intros v b Hf E; [exists v; reflexivity |].
  simpl in Hf. apply andb_prop in Hf. destruct Hf as [Hd Hf].
  destruct v as [| c v]; [discriminate |].
  destruct (is_space c) eqn:Hc.
  - rewrite squeeze_run in E by assumption. injection E as <- _.
    discriminate.
  - simpl in E. rewrite Hc in E. injection E as -> E.
    destruct (IH v b Hf E) as [b' ->]. exists b'. reflexivity.
Qed.

Lemma squeeze_factor (v : str) : forall a f b,
  forallb not_space f = true -> squeeze v = a ++ f ++ b ->
  exists a' b', v = a' ++ f ++ b'.
Proof.
  induction v as [| c v IH]; intros a f b Hf E.
  - simpl in E. symmetry in E. apply app_eq_nil in E. destruct E as [_ E].
    apply app_eq_nil in E. destruct E as [-> _]. exists [], []. reflexivity.
  - destruct a as [| c' a].
    + destruct (squeeze_prefix f (c :: v) b Hf E) as [b' ->].
      exists [], b'. reflexivity.
    + simpl in E. destruct (is_space c) eqn:Hc.
      * destruct (starts_in is_space v).
        -- destruct (IH (c' :: a) f b Hf E) as (a' & b' & ->).
           exists (c :: a'), b'. reflexivity.
        -- injection E as _ E. destruct (IH a f b Hf E) as (a' & b' & ->).
           exists (c :: a'), b'. reflexivity.
      * injection E as _ E. destruct (IH a f b Hf E) as (a' & b' & ->).
        exists (c :: a'), b'. reflexivity.
Qed.

Section Tokens.
Variable Q : str -> Prop.
Hypothesis Q_no_space : forall f, Q f -> forallb not_space f = true.
Hypothesis Q_lower : forall f, Q (lower f) -> Q f.

Lemma has_lower (x : str) : has Q (lower x) -> has Q x.
Proof.
  intros (a & f & b & E & HQ). unfold lower in E.
  apply map_eq_app in E. destruct E as (a' & r & -> & _ & E).
  apply map_eq_app in E. destruct E as (f' & b' & -> & <- & _).
  exists a', f', b'. split; [reflexivity |]. apply Q_lower. exact HQ.
Qed.

Lemma has_strip (p : ascii -> bool) (y : str) : has Q (strip_by p y) -> has Q y.
Proof.
  intros H. destruct (strip_by_factor p y) as (pre & post & E).
  rewrite E. apply has_suffix, has_prefix. exact H.
Qed.

Lemma has_squeeze (v : str) : has Q (squeeze v) -> has Q v.
Proof.
  intros (a & f & b & E & HQ).
  destruct (squeeze_factor v a f b (Q_no_space HQ) E) as (a' & b' & ->).
  exists a', f, b'. auto.
Qed.

Lemma has_map_sep (u : str) : has Q (map sep_to_space u) -> has Q u.
Proof.
  intros (a & f & b & E & HQ).
  apply map_eq_app in E. destruct E as (a' & r & -> & _ & E).
  apply map_eq_app in E. destruct E as (f' & b' & -> & Ef & _).
  exists a', f', b'. split; [reflexivity |].
  pose proof (Q_no_space HQ) as Hf. rewrite <- Ef in Hf.
  rewrite (map_fixed sep_to_space not_space f' sep_to_space_id Hf) in Ef.
  rewrite Ef. exact HQ.
Qed.

Lemma has_normalize (u : str) : has Q (normalize_spaces u) -> has Q u.
Proof.
  rewrite normalize_spaces_eq. intros H.
  apply has_map_sep, has_squeeze, has_strip with (p := is_space), has_lower.
  exact H.
Qed.

Lemma has_remove_article (t : str) : has Q (remove_article t) -> has Q t.
Proof.
  rewrite remove_article_eq.
  destruct (match_at re_article 0 t); [apply has_skipn | auto].
Qed.
End Tokens.

Lemma year_tok_digits (f : str) : year_tok f -> forallb is_digit f = true.
Proof.
  intros (y & d1 & d2 & -> & Hy & H1 & H2).
  rewrite forallb_app. simpl. rewrite H1, H2.
  simpl in Hy. destruct Hy as [<- | [<- | []]]; reflexivity.
Qed.

Lemma year_tok_no_space (f : str) : year_tok f -> forallb not_space f = true.
Proof.
  intros H. apply year_tok_digits in H.
  rewrite forallb_forall in *. intros c Hc. apply digit_not_space. auto.
Qed.

Lemma year_tok_lower (f : str) : year_tok (lower f) -> year_tok f.
Proof.
  intros H.
  rewrite <- (map_fixed lower_char is_digit f lower_digit (year_tok_digits H)).
  exact H.
Qed.

Lemma forallb_not_space_lower (w : str) :
  forallb not_space (lower w) = forallb not_space w.
Proof.
  unfold lower. rewrite forallb_map. apply forallb_ext.
  intros c. unfold not_space. rewrite is_space_lower. reflexivity.
Qed.

Lemma tag_tok_no_space (f : str) :
  tag_tok title_tags f -> forallb not_space f = true.
Proof.
  intros (tag & Hin & E).
  rewrite <- forallb_not_space_lower, E, forallb_not_space_lower.
  assert (A : forallb (forallb not_space) title_tags = true) by reflexivity.
  rewrite forallb_forall in A. apply A. exact Hin.
Qed.

Lemma lower_idem (w : str) : lower (lower w) = lower w.
Proof.
  unfold lower. rewrite map_map. apply map_ext. apply lower_char_idem.
Qed.

Lemma tag_tok_lower (tags : list str) (f : str) :
  tag_tok tags (lower f) -> tag_tok tags f.
Proof.
  intros (tag & Hin & E). exists tag. rewrite lower_idem in E. auto.
Qed.

(** ** The shape of a normalized title *)

Lemma clean_lower (c : ascii) :
  clean_upto_case c = true -> clean_char (lower_char c) = true.
Proof. all_chars_imp c. Qed.

Lemma clean_upto_case_intro (c : ascii) :
  not_sep_slash c = true -> not_space c = true -> clean_upto_case c = true.
Proof. all_chars_imp c. Qed.

Lemma not_sep_slash_sep_to_space (c : ascii) :
  not_sep_slash (sep_to_space c) = not_slash c.
Proof. all_chars c. Qed.


Lemma forallb_drop_while_imp (P p : ascii -> bool) (s : str) :
  forallb P s = true -> forallb P (drop_while p s) = true.
Proof.
  induction s as [| c s IH]; simpl; [auto |].
  intros H. destruct (p c); [apply IH | simpl]; auto.
  apply andb_prop in H. tauto.
Qed.

Lemma forallb_strip (P p : ascii -> bool) (s : str) :
  forallb P s = true -> forallb P (strip_by p s) = true.
Proof.
  intros H. unfold strip_by. rewrite forallb_rev.
  apply forallb_drop_while_imp. rewrite forallb_rev.
  apply forallb_drop_while_imp. exact H.
Qed.

Lemma forallb_squeeze_clean (v : str) :
  forallb not_sep_slash v = true -> forallb clean_upto_case (squeeze v) = true.
Proof.
  induction v as [| c v IH]; simpl; [auto |].
  intros H. apply andb_prop in H. destruct H as [Hc Hv].
  destruct (is_space c) eqn:Es.
  - destruct (starts_in is_space v); simpl; auto.
  - simpl. rewrite IH by assumption.
    rewrite clean_upto_case_intro; auto. unfold not_space. rewrite Es. reflexivity.
Qed.

Lemma clean_normalize (u : str) :
  forallb not_slash u = true -> forallb clean_char (normalize_spaces u) = true.
Proof.
  intros H. rewrite normalize_spaces_eq. unfold lower. rewrite forallb_map.
  assert (C : forallb clean_upto_case
                (strip (squeeze (map sep_to_space u))) = true).
  { apply forallb_strip, forallb_squeeze_clean. rewrite forallb_map.
    rewrite <- H. apply forallb_ext. apply not_sep_slash_sep_to_space. }
  rewrite forallb_forall in *. intros c Hc. apply clean_lower. auto.
Qed.

Lemma spaced_app_r (a b : str) : spaced (a ++ b) = true -> spaced b = true.
Proof.
  induction a as [| c a IH]; simpl; [auto |].
  intros H. apply andb_prop in H. tauto.
Qed.

Lemma starts_in_app (p : ascii -> bool) (a b : str) :
  a <> [] -> starts_in p (a ++ b) = starts_in p a.
Proof. destruct a; [congruence | reflexivity]. Qed.

Lemma spaced_app_l (a b : str) : spaced (a ++ b) = true -> spaced a = true.
Proof.
  induction a as [| c a IH]; simpl; [auto |].
  intros H. apply andb_prop in H. destruct H as [Hc Ha].
  rewrite IH by assumption. rewrite andb_true_r.
  destruct a as [| c' a]; simpl in *; [| exact Hc].
  rewrite andb_false_r. reflexivity.
Qed.

Lemma spaced_squeeze (v : str) : spaced (squeeze v) = true.
Proof.
  induction v as [| c v IH]; simpl; [reflexivity |].
  destruct (is_space c) eqn:Hc.
  - destruct (starts_in is_space v) eqn:Hv; [exact IH |].
    simpl. rewrite squeeze_starts, Hv, IH. reflexivity.
  - simpl. rewrite Hc, IH. reflexivity.
Qed.

Lemma starts_in_lower (w : str) :
  starts_in is_space (lower w) = starts_in is_space w.
Proof. destruct w; simpl; [reflexivity | apply is_space_lower]. Qed.

Lemma spaced_lower (w : str) : spaced (lower w) = spaced w.
Proof.
  induction w as [| c w IH]; simpl; [reflexivity |].
  fold (lower w). rewrite IH, starts_in_lower, is_space_lower. reflexivity.
Qed.

Lemma strip_by_prefix (p : ascii -> bool) (z : str) :
  exists post, z = rev (drop_while p (rev z)) ++ post.
Proof.
  destruct (drop_while_suffix p (rev z)) as (a & E & _).
  exists (rev a). rewrite <- rev_app_distr, <- E, rev_involutive. reflexivity.
Qed.

Lemma spaced_strip (y : str) : spaced y = true -> spaced (strip y) = true.
Proof.
  intros H. unfold strip, strip_by.
  destruct (drop_while_suffix is_space y) as (a & E & _).
  rewrite E in H. apply spaced_app_r in H.
  destruct (strip_by_prefix is_space (drop_while is_space y)) as (post & E').
  rewrite E' in H. apply spaced_app_l in H. exact H.
Qed.

Lemma stripped_strip (y : str) : stripped (strip y) = true.
Proof.
  unfold stripped, strip, strip_by.
  rewrite rev_involutive, drop_while_starts, andb_true_r.
  pose proof (drop_while_starts is_space y) as D.
  destruct (strip_by_prefix is_space (drop_while is_space y)) as (post & E).
  destruct (rev (drop_while is_space (rev (drop_while is_space y)))) as [| c l];
    [reflexivity |].
  rewrite E in D. simpl in *. rewrite D. reflexivity.
Qed.

Lemma stripped_lower (w : str) : stripped (lower w) = stripped w.
Proof.
  unfold stripped. rewrite starts_in_lower.
  unfold lower at 1. rewrite <- map_rev. fold (lower (rev w)).
  rewrite starts_in_lower. reflexivity.
Qed.

Lemma normal_normalize (u : str) :
  forallb not_slash u = true -> normal (normalize_spaces u).
Proof.
  intros H. split; [apply clean_normalize; exact H |].
  rewrite normalize_spaces_eq, spaced_lower, stripped_lower.
  split; [apply spaced_strip, spaced_squeeze | apply stripped_strip].
Qed.

(** After an article, a normal title has one space and goes on with a
    character that is not a blank. *)
Lemma normal_remove_article (t : str) : normal t -> normal (remove_article t).
Proof.
  intros (Hc & Hs & Hst). rewrite remove_article_eq.
  destruct (match_at re_article 0 t) as [m |] eqn:E; [| repeat split; assumption].
  apply re_article_match in E.
  destruct E as (art & ws & rest & -> & -> & _ & Hws & Hlen).
  rewrite app_assoc, skipn_app, skipn_all, Nat.sub_diag. simpl.
  rewrite !forallb_app in Hc.
  apply andb_prop in Hc. destruct Hc as [_ Hc].
  apply andb_prop in Hc. destruct Hc as [_ Hc].
  apply spaced_app_r in Hs.
  destruct (exists_last (l := ws)) as (ws' & c & ->).
  { intros ->. simpl in Hlen. lia. }
  rewrite <- app_assoc in Hs. apply spaced_app_r in Hs. simpl in Hs.
  rewrite forallb_app in Hws. simpl in Hws.
  apply andb_prop in Hws. destruct Hws as [_ Hcs].
  rewrite andb_true_r in Hcs. rewrite Hcs in Hs. simpl in Hs.
  apply andb_prop in Hs. destruct Hs as [Hr Hs].
  apply negb_true_iff in Hr.
  repeat split; try assumption.
  unfold stripped in *. rewrite Hr. simpl.
  destruct rest as [| r0 rest]; [reflexivity |].
  apply andb_prop in Hst. destruct Hst as [_ Hst].
  rewrite !rev_app_distr, <- !app_assoc in Hst.
  rewrite starts_in_app in Hst; [exact Hst |].
  simpl. intros E. apply app_eq_nil in E. destruct E as [_ E]. discriminate.
Qed.

Lemma split_on_none (s : str) :
  forallb not_slash s = true -> split_on "/" s = [s].
Proof.
  induction s as [| c s IH]; simpl; [reflexivity |].
  intros H. apply andb_prop in H. destruct H as [Hc Hs].
  unfold not_slash in Hc. apply negb_true_iff in Hc. rewrite Hc, IH by assumption.
  reflexivity.
Qed.

Lemma rfind_none (x : ascii) (s : str) :
  forallb (fun c => negb (Ascii.eqb c x)) s = true -> rfind x s = None.
Proof.
  induction s as [| c s IH]; simpl; [reflexivity |].
  intros H. apply andb_prop in H. destruct H as [Hc Hs].
  apply negb_true_iff in Hc. rewrite IH, Hc by assumption. reflexivity.
Qed.



(** ** The stem *)

Lemma split_on_parts (sep : ascii) (P : ascii -> bool) (s : str) :
  (forall c, In c s -> c <> sep -> P c = true) ->
  Forall (fun part => forallb P part = true) (split_on sep s).
Proof.
  induction s as [| c s IH]; intros H; simpl.
  - repeat constructor.
  - assert (IH' : Forall (fun part => forallb P part = true) (split_on sep s)).
    { apply IH. intros c' Hin. apply H. right. exact Hin. }
    destruct (Ascii.eqb_spec c sep) as [-> | Hne].
    + constructor; [reflexivity | exact IH'].
    + assert (Pc : P c = true) by (apply H; [left; reflexivity | exact Hne]).
      destruct (split_on sep s) as [| w ws].
      * repeat constructor. simpl. rewrite Pc. reflexivity.
      * inversion IH' as [| ? ? Hw Hws]; subst.
        constructor; [simpl; rewrite Pc, Hw; reflexivity | exact Hws].
Qed.

Lemma last_forall (P : str -> Prop) (l : list str) (d : str) :
  Forall P l -> P d -> P (last l d).
Proof.
  induction 1 as [| x l Hx Hl IH]; intros Hd; [exact Hd |].
  destruct l as [| y l]; [exact Hx | apply IH; exact Hd].
Qed.

Lemma forall_filter (P : str -> Prop) (f : str -> bool) (l : list str) :
  Forall P l -> Forall P (filter f l).
Proof.
  induction 1 as [| x l Hx Hl IH]; simpl; [constructor |].
  destruct (f x); [constructor |]; assumption.
Qed.

Lemma forallb_firstn (P : ascii -> bool) (n : nat) (s : str) :
  forallb P s = true -> forallb P (firstn n s) = true.
Proof.
  intros H. rewrite <- (firstn_skipn n s), forallb_app in H.
  apply andb_prop in H. tauto.
Qed.

Lemma stem_chars (P : ascii -> bool) (name : str) :
  (forall c, In c name -> c <> "/"%char -> P c = true) ->
  forallb P (stem name) = true.
Proof.
  intros H.
  assert (N : forallb P (path_name name) = true).
  { unfold path_name.
    apply last_forall with (P := fun part => forallb P part = true);
      [| reflexivity].
    apply forall_filter, split_on_parts. exact H. }
  unfold stem, stem_of_name.
  destruct (suffix_index (path_name name)); [apply forallb_firstn |]; exact N.
Qed.

Lemma stem_no_slash (name : str) : forallb not_slash (stem name) = true.
Proof.
  apply stem_chars. intros c _ Hc. unfold not_slash.
  apply negb_true_iff. apply Ascii.eqb_neq. exact Hc.
Qed.

Lemma stem_no_newline (name : str) :
  forallb dot name = true -> forallb dot (stem name) = true.
Proof.
  intros H. apply stem_chars. intros c Hin _.
  rewrite forallb_forall in H. auto.
Qed.

(** ** Normalizing a normalized title *)

Lemma forallb_prefix (P : ascii -> bool) (a b : str) :
  forallb P (a ++ b) = true -> forallb P a = true.
Proof. rewrite forallb_app. intros H. apply andb_prop in H. tauto. Qed.

(** Without line feed in the stem, the truncated title is a part of the
    stem that holds neither a year nor a tag. *)
Lemma year_tail_to_end (pos : nat) (s : str) (m : match_obj) :
  forallb dot s = true -> match_at re_year_tail pos s = Some m ->
  m_end m = pos + length s.
Proof. intros Hs Hm. apply (year_tail_sound _ _ Hm). exact Hs. Qed.

Lemma tag_tail_to_end (tags : list str) (pos : nat) (s : str) (m : match_obj) :
  forallb dot s = true -> match_at (re_tag_tail tags) pos s = Some m ->
  m_end m = pos + length s.
Proof. intros Hs Hm. apply (tag_tail_sound _ _ _ Hm). exact Hs. Qed.

Lemma truncate_title_clean (b : str) :
  forallb dot b = true ->
  ~ has year_tok (truncate_title b) /\
  ~ has (tag_tok title_tags) (truncate_title b) /\
  (forall P, forallb P b = true -> forallb P (truncate_title b) = true).
Proof.
  intros Hb. unfold truncate_title, re_sub.
  rewrite (sub_cut re_year_tail year_tail_to_end b 0 Hb).
  destruct (cut_at_prefix re_year_tail b 0) as [rest1 E1].
  set (u1 := cut_at re_year_tail 0 b) in *.
  assert (Hu1 : forallb dot u1 = true).
  { rewrite E1 in Hb. apply forallb_prefix in Hb. exact Hb. }
  rewrite (sub_cut (re_tag_tail title_tags) (tag_tail_to_end title_tags) u1 0 Hu1).
  destruct (cut_at_prefix (re_tag_tail title_tags) u1 0) as [rest2 E2].
  set (u := cut_at (re_tag_tail title_tags) 0 u1) in *.
  split; [| split].
  - intros H. apply has_prefix with (b := rest2) in H. rewrite <- E2 in H.
    revert H. apply cut_at_clean; auto using year_tok_nonempty.
    intros pos f b0. apply year_tail_complete.
  - apply cut_at_clean; auto using tag_tok_nonempty.
    intros pos f b0. apply tag_tail_complete.
  - intros P HP. rewrite E1 in HP. apply forallb_prefix in HP.
    rewrite E2 in HP. apply forallb_prefix in HP. exact HP.
Qed.


Lemma starts_with_app (a b : str) : starts_with a (a ++ b) = true.
Proof.
  induction a as [| c a IH]; simpl; [reflexivity |].
  rewrite Ascii.eqb_refl, IH. reflexivity.
Qed.




(** Why the line feed is excluded: [.] stops at a line feed and [$] does
    not hold in front of one that is not last, so the year is kept the
    first time and cut the second. *)
Example renormalize_title_line_feed :
  let name : str := "foo 1999" ++ [newline] ++ "bar" in
  nt name = "foo 1999 bar" /\ nt (nt name) = "foo".
Proof. split; reflexivity. Qed.


(** ** What the truncations leave, on a name without line feed *)

Lemma before_prefix (here : str -> bool) (s : str) :
  exists rest, s = before here s ++ rest.
Proof.
  induction s as [| c s (rest & E)]; [exists []; reflexivity |].
  simpl. destruct (here (c :: s)).
  - exists (c :: s). reflexivity.
  - exists rest. simpl. f_equal. exact E.
Qed.

(** Cutting at the first match is cutting at the first place described by
    [here], when [here] tells where the pattern matches. *)
Lemma cut_at_before (r : regex) (here : str -> bool) :
  (forall pos s m, match_at r pos s = Some m -> here s = true) ->
  (forall pos s, forallb dot s = true -> here s = true ->
                 exists m, match_at r pos s = Some m) ->
  forall s pos, forallb dot s = true -> cut_at r pos s = before here s.
Proof.
  intros Hs Hc. induction s as [| c s IH]; intros pos Hd.
  - simpl. destruct (match_at r pos []); reflexivity.
  - simpl. destruct (match_at r pos (c :: s)) as [m |] eqn:E.
    + rewrite (Hs pos (c :: s) m E). reflexivity.
    + destruct (here (c :: s)) eqn:H.
      * destruct (Hc pos (c :: s) Hd H) as [m Hm]. congruence.
      * f_equal. apply IH. simpl in Hd. apply andb_prop in Hd. tauto.
Qed.

Lemma year_here_tok (s : str) :
  year_here s = true <-> exists f rest, s = f ++ rest /\ year_tok f.
Proof.
  split.
  - destruct s as [| a [| b [| c [| d rest]]]]; try discriminate.
    cbn [year_here]. intros H.
    apply andb_prop in H. destruct H as [H Hd].
    apply andb_prop in H. destruct H as [H Hc].
    exists [a; b; c; d], rest. split; [reflexivity |].
    exists [a; b], c, d. split; [reflexivity |]. split; [| auto].
    apply orb_prop in H. destruct H as [H | H];
      apply andb_prop in H; destruct H as [Ha Hb];
      apply Ascii.eqb_eq in Ha; apply Ascii.eqb_eq in Hb; subst; simpl; auto.
  - intros (f & rest & -> & y & d1 & d2 & -> & Hy & H1 & H2).
    simpl in Hy. destruct Hy as [<- | [<- | []]];
      cbn [app list_ascii_of_string year_here]; rewrite H1, H2; reflexivity.
Qed.

Lemma year_tail_here (pos : nat) (s : str) (m : match_obj) :
  match_at re_year_tail pos s = Some m -> year_cut_here s = true.
Proof.
  intros H. apply match_at_sound in H. destruct H as (w & rest & -> & M & E).
  unfold re_year_tail, seq in M. cbn [fold_right] in M.
  inversion M as [| | | r1 r2 p0 br w1 rest0 g0 g1 g2 Mbr M1 | | | | | | |]; subst; clear M.
  inversion M1 as [| | | r3 r4 p1 y w2 rest1 g3 g4 g5 My M2 | | | | | | |]; subst; clear M1.
  inversion M2 as [| | | r5 r6 p2 dd w3 rest2 g6 g7 g8 Mdd M3 | | | | | | |]; subst; clear M2 M3.
  inversion My as [| | | | | | | | n0 r0 p3 w0 rest3 g9 g10 Malt | |]; subst; clear My.
  inversion Mdd; subst; clear Mdd.
  inversion Mbr; subst; clear Mbr.
  destruct (two_chars dd) as (d1 & d2 & ->); [assumption.. |].
  assert (Y : forall tail, year_here (y ++ d1 :: d2 :: tail) = true).
  { intros tail. apply year_here_tok. exists (y ++ [d1; d2]), tail.
    split; [rewrite <- app_assoc; reflexivity |]. exists y, d1, d2.
    match goal with
    | H : forallb is_digit [d1; d2] = true |- _ =>
        simpl in H; rewrite andb_true_r in H; apply andb_prop in H; destruct H
    end.
    repeat split; auto.
    inversion Malt; subst;
      match goal with
      | H : Matches (lit _) _ _ _ _ _ |- _ =>
          apply matches_lit in H; destruct H as [-> _]
      end; simpl; auto. }
  unfold year_cut_here.
  destruct br as [| c [| c' br]].
  - rewrite <- !app_assoc. cbn [app]. rewrite Y. reflexivity.
  - match goal with
    | H : forallb _ [c] = true |- _ =>
        cbn [forallb] in H; rewrite andb_true_r in H; rename H into Hc
    end.
    rewrite <- !app_assoc. cbn [app list_ascii_of_string].
    rewrite Hc, Y. apply orb_true_r.
  - match goal with
    | H : within (Some 1) _ |- _ => simpl in H; lia
    end.
Qed.

Lemma year_here_match (pos : nat) (br s : str) :
  forallb (one_of "([") br = true -> length br <= 1 ->
  year_here s = true -> forallb dot s = true ->
  exists m, match_at re_year_tail pos (br ++ s) = Some m.
Proof.
  intros Hbr Lbr H Hd. apply year_here_tok in H.
  destruct H as (f & rest & -> & y & d1 & d2 & -> & Hy & H1 & H2).
  apply forallb_dot_app in Hd. destruct Hd as [_ Hrest].
  assert (M : Matches re_year_tail pos
                (br ++ y ++ [d1; d2] ++ [] ++ rest ++ [] ++ []) []
                no_groups (set_group 1 y no_groups)).
  { unfold re_year_tail, seq. cbn [fold_right].
    eapply M_Seq; [constructor; simpl; auto; lia |].
    eapply M_Seq.
    { constructor. simpl in Hy. destruct Hy as [<- | [<- | []]].
      - apply M_AltL. apply lit_matches.
      - apply M_AltR. apply lit_matches. }
    eapply M_Seq; [constructor; simpl; auto; rewrite H1, H2; reflexivity |].
    eapply M_Seq; [constructor; simpl; auto; lia |].
    eapply M_Seq; [constructor; simpl; auto; lia |].
    eapply M_Seq; [constructor; auto | constructor]. }
  apply match_at_complete in M. destruct M as [m M]. exists m.
  rewrite <- M. f_equal; app_norm.
Qed.

Lemma year_cut_here_match (pos : nat) (s : str) :
  forallb dot s = true -> year_cut_here s = true ->
  exists m, match_at re_year_tail pos s = Some m.
Proof.
  intros Hd H. unfold year_cut_here in H. apply orb_prop in H.
  destruct H as [H | H].
  - apply (@year_here_match pos [] s); auto.
  - destruct s as [| c s]; [discriminate |].
    apply andb_prop in H. destruct H as [Hc H].
    simpl in Hd. apply andb_prop in Hd. destruct Hd as [_ Hd].
    apply (@year_here_match pos [c] s); auto.
    cbn [forallb]. rewrite Hc. reflexivity.
Qed.

Lemma tag_prefix_intro (tg rest tag : str) :
  lower tg = lower tag -> tag_prefix (tg ++ rest) tag = true.
Proof.
  intros E. unfold tag_prefix.
  assert (L : length tag = length tg).
  { apply (f_equal (@length ascii)) in E. unfold lower in E.
    rewrite !length_map in E. auto. }
  rewrite L, firstn_app, Nat.sub_diag, firstn_all. simpl.
  rewrite app_nil_r, E. apply str_eqb_refl.
Qed.

Lemma tag_prefix_elim (s tag : str) :
  tag_prefix s tag = true -> exists tg rest, s = tg ++ rest /\ lower tg = lower tag.
Proof.
  unfold tag_prefix. intros H. apply str_eqb_eq in H.
  exists (firstn (length tag) s), (skipn (length tag) s).
  split; [symmetry; apply firstn_skipn | exact H].
Qed.

Lemma tag_cut_here_intro (tags : list str) (ws tg rest tag : str) :
  forallb is_space ws = true -> In tag tags -> lower tg = lower tag ->
  tag_cut_here tags (ws ++ tg ++ rest) = true.
Proof.
  intros Hws Hin E. induction ws as [| c ws IH].
  - simpl app.
    assert (P : existsb (tag_prefix (tg ++ rest)) tags = true).
    { apply existsb_exists. exists tag. split; [exact Hin |].
      apply tag_prefix_intro. exact E. }
    destruct (tg ++ rest); simpl; rewrite P; reflexivity.
  - simpl in Hws. apply andb_prop in Hws. destruct Hws as [Hc Hws].
    cbn [app tag_cut_here]. rewrite Hc, (IH Hws). apply orb_true_r.
Qed.

Lemma tag_cut_here_elim (tags : list str) (s : str) :
  tag_cut_here tags s = true ->
  exists ws tg rest tag, s = ws ++ tg ++ rest /\ forallb is_space ws = true /\
                         In tag tags /\ lower tg = lower tag.
Proof.
  induction s as [| c s IH]; intros H.
  - simpl in H. rewrite orb_false_r in H. apply existsb_exists in H.
    destruct H as (tag & Hin & P). apply tag_prefix_elim in P.
    destruct P as (tg & rest & E & El). exists [], tg, rest, tag. auto.
  - cbn [tag_cut_here] in H. apply orb_prop in H. destruct H as [H | H].
    + apply existsb_exists in H. destruct H as (tag & Hin & P).
      apply tag_prefix_elim in P. destruct P as (tg & rest & E & El).
      exists [], tg, rest, tag. auto.
    + apply andb_prop in H. destruct H as [Hc H].
      destruct (IH H) as (ws & tg & rest & tag & -> & Hws & Hin & El).
      exists (c :: ws), tg, rest, tag. repeat split; auto.
      simpl. rewrite Hc, Hws. reflexivity.
Qed.

Lemma tag_tail_here (tags : list str) (pos : nat) (s : str) (m : match_obj) :
  match_at (re_tag_tail tags) pos s = Some m -> tag_cut_here tags s = true.
Proof.
  intros H. apply match_at_sound in H. destruct H as (w & rest & -> & M & E).
  unfold re_tag_tail, seq in M. cbn [fold_right] in M.
  inversion M as [| | | r1 r2 p0 ws w1 rest0 g0 g1 g2 Mws M1 | | | | | | |]; subst; clear M.
  inversion M1 as [| | | r3 r4 p1 tg w2 rest1 g3 g4 g5 Mtg M2 | | | | | | |]; subst; clear M1 M2.
  inversion Mtg as [| | | | | | | | n0 r0 p2 w0 rest2 g6 g7 Malt | |]; subst; clear Mtg.
  inversion Mws; subst; clear Mws.
  apply matches_alts in Malt. destruct Malt as (r & Hin & Mr).
  apply in_map_iff in Hin. destruct Hin as (tag & <- & Hin).
  apply matches_lit_ci in Mr. destruct Mr as [Elow _].
  rewrite <- !app_assoc. eapply tag_cut_here_intro; eauto.
Qed.

Lemma tag_cut_here_match (tags : list str) (pos : nat) (s : str) :
  forallb dot s = true -> tag_cut_here tags s = true ->
  exists m, match_at (re_tag_tail tags) pos s = Some m.
Proof.
  intros Hd H. apply tag_cut_here_elim in H.
  destruct H as (ws & tg & rest & tag & -> & Hws & Hin & El).
  apply forallb_dot_app in Hd. destruct Hd as [_ Hd].
  apply forallb_dot_app in Hd. destruct Hd as [_ Hrest].
  assert (M : Matches (re_tag_tail tags) pos (ws ++ tg ++ rest ++ [] ++ []) []
                no_groups (set_group 1 tg no_groups)).
  { unfold re_tag_tail, seq. cbn [fold_right].
    eapply M_Seq; [constructor; simpl; auto; lia |].
    eapply M_Seq.
    { constructor. eapply alts_matches.
      - apply in_map. exact Hin.
      - apply lit_ci_matches. exact El. }
    eapply M_Seq; [constructor; simpl; auto; lia |].
    eapply M_Seq; [constructor; auto | constructor]. }
  apply match_at_complete in M. destruct M as [m M]. exists m.
  rewrite <- M. f_equal; app_norm.
Qed.

(** On a stem without line feed the two truncations leave the part in
    front of the first year, cut again in front of the first tag. *)
Lemma truncate_title_part (b : str) :
  forallb dot b = true -> truncate_title b = title_part b.
Proof.
  intros Hb. unfold truncate_title, title_part, re_sub.
  rewrite (sub_cut re_year_tail year_tail_to_end b 0 Hb).
  rewrite (cut_at_before re_year_tail year_cut_here year_tail_here
             (fun pos s Hd H => @year_cut_here_match pos s Hd H) b 0 Hb).
  destruct (before_prefix year_cut_here b) as [rest E].
  assert (Hu : forallb dot (before year_cut_here b) = true).
  { rewrite E in Hb. apply forallb_prefix in Hb. exact Hb. }
  rewrite (sub_cut (re_tag_tail title_tags) (tag_tail_to_end title_tags) _ 0 Hu).
  apply (cut_at_before (re_tag_tail title_tags) (tag_cut_here title_tags)
           (@tag_tail_here title_tags)
           (fun pos s Hd H => @tag_cut_here_match title_tags pos s Hd H)).
  exact Hu.
Qed.

(** C4, as the code has it: the normalized title is empty exactly when
    what the two truncations leave of the stem holds nothing but dots,
    underscores, hyphens and blanks.  For a name without line feed, what
    they leave is the part of the stem in front of the first place where
    a year token begins, or an opening bracket directly followed by one,
    cut again in front of the first place where, after any blanks, a
    release tag begins.  So the title is empty for the empty name, and for
    other names as well. *)
Theorem normalized_title_empty_iff (name : str) :
  (normalized_title (get_normalized_title name) = [] <->
   forallb sep_class (truncate_title (stem name)) = true) /\
  (forallb dot name = true ->
   truncate_title (stem name) = title_part (stem name) /\
   (normalized_title (get_normalized_title name) = [] <->
    forallb sep_class (title_part (stem name)) = true)) /\
  normalized_title (get_normalized_title []) = [].
Proof.
  assert (G : normalized_title (get_normalized_title name) = [] <->
              forallb sep_class (truncate_title (stem name)) = true).
  { unfold get_normalized_title. cbn [normalized_title].
    rewrite remove_article_nil by apply normalize_spaces_last.
    apply normalize_spaces_nil. }
  split; [exact G |]. split; [| reflexivity].
  intros Hname.
  pose proof (@truncate_title_part (stem name) (@stem_no_newline name Hname)) as T.
  split; [exact T |]. rewrite <- T. exact G.
Qed.

Lemma normalized_title_empty_iff_witness :
  forallb dot "(1999) The Matrix" = true /\
  title_part (stem "(1999) The Matrix") = [] /\
  normalized_title (get_normalized_title "(1999) The Matrix") = [].
Proof.
  assert (Hd : forallb dot "(1999) The Matrix" = true) by reflexivity.
  destruct (normalized_title_empty_iff "(1999) The Matrix") as (_ & H & _).
  destruct (H Hd) as [_ I].
  split; [exact Hd |]. split; [reflexivity |]. apply I. reflexivity.
Defined.

(** C4 as stated fails: the name "1999" is not empty, its normalized
    title is. *)
Lemma normalized_title_nonempty_counterexample :
  ("1999" : str) <> [] /\ normalized_title (get_normalized_title "1999") = [].
Proof. split; [discriminate | reflexivity]. Qed.

(** ** The stem of a name with the marker .S01E01. *)

Lemma rfind_lt (c : ascii) (s : str) (i : nat) :
  rfind c s = Some i -> i < length s.
Proof.
  revert i. induction s as [| a s IH]; intros i H; simpl in *; [discriminate |].
  destruct (rfind c s) as [j |].
  - injection H as <-. specialize (IH j eq_refl). lia.
  - destruct (Ascii.eqb a c); [| discriminate]. injection H as <-. lia.
Qed.

Lemma rfind_app (c : ascii) (a b : str) :
  exists j, rfind c (a ++ c :: b) = Some j /\ length a <= j.
Proof.
  induction a as [| x a (j & E & Hj)]; simpl.
  - destruct (rfind c b) as [j |].
    + exists (S j). split; [reflexivity | lia].
    + rewrite Ascii.eqb_refl. exists 0. auto.
  - rewrite E. exists (S j). split; [reflexivity | lia].
Qed.

Lemma plain_dot (s : str) : forallb plain s = true -> forallb dot s = true.
Proof.
  intros H. rewrite forallb_forall in *. intros c Hc.
  specialize (H c Hc). unfold plain in H. apply andb_prop in H. tauto.
Qed.

Lemma plain_not_slash (s : str) :
  forallb plain s = true -> forallb not_slash s = true.
Proof.
  intros H. rewrite forallb_forall in *. intros c Hc.
  specialize (H c Hc). unfold plain in H. apply andb_prop in H. tauto.
Qed.

Lemma stem_marker (x y : str) :
  forallb plain x = true -> forallb plain y = true ->
  exists z, stem (x ++ ".S01E01." ++ y) = x ++ ".S01E01" ++ z /\
            forallb dot z = true /\ starts_in (one_of "Ee-") z = false.
Proof.
  intros Hx Hy.
  set (a := x ++ ".S01E01").
  assert (En : x ++ ".S01E01." ++ y = a ++ "."%char :: y).
  { unfold a. rewrite <- app_assoc. reflexivity. }
  assert (La : 7 <= length a).
  { unfold a. rewrite length_app. simpl. lia. }
  assert (Ep : path_name (a ++ "."%char :: y) = a ++ "."%char :: y).
  { unfold path_name. rewrite split_on_none.
    - destruct (a ++ "."%char :: y) as [| c0 l] eqn:El.
      { apply (f_equal (@length ascii)) in El. rewrite length_app in El.
        simpl in El. lia. }
      cbn [filter nonempty andb].
      assert (D : str_eqb (c0 :: l) "." = false).
      { unfold str_eqb.
        destruct (list_eq_dec ascii_dec (c0 :: l) ".") as [E |]; [| reflexivity].
        rewrite <- El in E. apply (f_equal (@length ascii)) in E.
        rewrite length_app in E. simpl in E. lia. }
      rewrite D. reflexivity.
    - unfold a. rewrite !forallb_app.
      rewrite (plain_not_slash _ Hx). simpl. apply (plain_not_slash _ Hy). }
  assert (Ea : forall z, a ++ z = x ++ ".S01E01" ++ z).
  { intros z. unfold a. rewrite <- app_assoc. reflexivity. }
  rewrite En. unfold stem. rewrite Ep. unfold stem_of_name, suffix_index.
  destruct (rfind_app "." a y) as (j & Ej & Hj). rewrite Ej.
  destruct ((0 <? j) && (j <? length (a ++ "."%char :: y) - 1)).
  - exists (firstn (j - length a) ("."%char :: y)).
    split; [| split].
    + rewrite <- Ea, firstn_app.
      rewrite firstn_all2 by lia. reflexivity.
    + apply forallb_firstn. simpl. apply (plain_dot _ Hy).
    + destruct (j - length a); reflexivity.
  - exists ("."%char :: y). split; [| split].
    + rewrite <- Ea. reflexivity.
    + simpl. apply (plain_dot _ Hy).
    + reflexivity.
Qed.

(** ** The title in front of the marker *)

Lemma title_split (x : str) :
  x <> [] ->
  exists t r, x = t ++ r /\ t <> [] /\ forallb sep_class r = true /\
              (forall i, 1 <= i -> i < length t ->
                         forallb sep_class (skipn i t) = false).
Proof.
  induction x as [| c x' IH] using rev_ind; intros Hx; [congruence |].
  destruct x' as [| c0 x0].
  - exists [c], []. repeat split; try discriminate.
    intros i H1 H2. simpl in H2. lia.
  - destruct (sep_class c) eqn:Hc.
    + destruct IH as (t & r & E & Ht & Hr & Hmin); [discriminate |].
      exists t, (r ++ [c]). rewrite E, <- app_assoc.
      repeat split; auto.
      rewrite forallb_app, Hr. simpl. rewrite Hc. reflexivity.
    + exists ((c0 :: x0) ++ [c]), []. rewrite app_nil_r.
      split; [reflexivity |]. split; [discriminate |].
      split; [reflexivity |].
      intros i H1 H2. rewrite length_app in H2. simpl in H2.
      rewrite skipn_app, forallb_app.
      replace (i - length (c0 :: x0)) with 0 by (simpl; lia).
      simpl. rewrite Hc. simpl. apply andb_false_r.
Qed.

Lemma marker_in_suffix (a b : str) :
  marker_in b = true -> marker_in (a ++ b) = true.
Proof.
  intros H. induction a as [| c a IH]; simpl; [exact H |].
  rewrite IH. apply orb_true_r.
Qed.

(** A complete marker holds no dot: one that is read where a dot follows
    [x] lies in [x]. *)
Lemma episode_start_dot (x w : str) :
  episode_start (x ++ "."%char :: w) = true -> episode_start x = true.
Proof.
  assert (D : is_digit "." = false) by reflexivity.
  assert (S : one_of "Ss" "."%char = false) by reflexivity.
  assert (E : one_of "Ee" "."%char = false) by reflexivity.
  destruct x as [| a [| d1 [| e [| d [| d' x]]]]]; cbn [app episode_start starts_in].
  - destruct w as [| d1 w]; [discriminate |]. rewrite S. discriminate.
  - rewrite D, andb_false_r. discriminate.
  - destruct w as [| d w]; rewrite ?E, ?D; cbn [andb orb];
      rewrite ?andb_false_r; discriminate.
  - rewrite D, E, !andb_false_r. cbn [andb orb]. rewrite ?andb_false_r.
    discriminate.
  - rewrite D. auto.
  - auto.
Qed.

(** A marker found before the real one is inside [x], unless only
    separators lie between its start and the real one. *)
Lemma marker_before (z x2 : str) :
  marker_at (x2 ++ ".S01E01" ++ z) = true ->
  marker_in x2 = true \/ forallb sep_class x2 = true.
Proof.
  induction x2 as [| c x2 IH]; intros H; [right; reflexivity |].
  simpl in H. apply andb_prop in H. destruct H as [Hc H].
  apply orb_prop in H. destruct H as [H | H].
  - destruct (IH H) as [E | E].
    + left. simpl. rewrite E. apply orb_true_r.
    + right. simpl. rewrite Hc, E. reflexivity.
  - left. apply episode_start_dot in H. simpl. rewrite Hc, H. reflexivity.
Qed.

(** ** Steps of the matcher *)

Section MatcherSteps.
Variable A : Type.
Implicit Types (k : nat -> str -> groups -> option A).

(** A lazy repetition stops at the first length the rest accepts. *)
Lemma rep_lazy_first (p : ascii -> bool) (w : str) :
  forall lo pos rest (k : nat -> str -> option A) a,
    forallb p w = true -> lo <= length w ->
    (forall i, lo <= i -> i < length w -> k (pos + i) (skipn i w ++ rest) = None) ->
    k (pos + length w) rest = Some a ->
    rep_lazy p lo None pos (w ++ rest) k = Some a.
Proof.
  induction w as [| c w IH]; intros lo pos rest k a Hw Hlo Hnone Hk.
  - simpl in *. assert (lo = 0) as -> by lia. rewrite Nat.add_0_r in Hk.
    destruct rest; simpl; rewrite Hk; reflexivity.
  - simpl in Hw. apply andb_prop in Hw. destruct Hw as [Hc Hw].
    assert (More : rep_lazy p (pred lo) None (S pos) (w ++ rest) k = Some a).
    { apply IH; auto.
      - simpl in Hlo. lia.
      - intros i H1 H2. replace (S pos + i) with (pos + S i) by lia.
        apply (Hnone (S i)); simpl; lia.
      - rewrite <- Hk. f_equal. simpl. lia. }
    simpl. rewrite Hc. simpl. rewrite More.
    destruct lo as [| lo]; [| reflexivity].
    specialize (Hnone 0). simpl in Hnone. rewrite Nat.add_0_r in Hnone.
    rewrite Hnone by lia. reflexivity.
Qed.

(** A greedy repetition keeps the whole run when the rest accepts it. *)
Lemma rep_greedy_max (p : ascii -> bool) (w : str) :
  forall lo pos rest (k : nat -> str -> option A) a,
    forallb p w = true -> starts_in p rest = false -> lo <= length w ->
    k (pos + length w) rest = Some a ->
    rep_greedy p lo None pos (w ++ rest) k = Some a.
Proof.
  induction w as [| c w IH]; intros lo pos rest k a Hw Hrest Hlo Hk.
  - simpl in *. assert (lo = 0) as -> by lia. rewrite Nat.add_0_r in Hk.
    destruct rest as [| c rest]; simpl; [exact Hk |].
    simpl in Hrest. rewrite Hrest. exact Hk.
  - simpl in Hw. apply andb_prop in Hw. destruct Hw as [Hc Hw].
    simpl. rewrite Hc. simpl.
    rewrite (IH (pred lo) (S pos) rest k a); auto.
    + simpl in Hlo. lia.
    + rewrite <- Hk. f_equal. simpl. lia.
Qed.

Lemma rep_greedy_zero (p : ascii -> bool) (pos : nat) (s : str)
      (k : nat -> str -> option A) :
  rep_greedy p 0 (Some 0) pos s k = k pos s.
Proof. destruct s; simpl; rewrite ?andb_false_r; reflexivity. Qed.

(** A greedy repetition runs to the end when the rest refuses anything
    else. *)
Lemma rep_greedy_to_end (p : ascii -> bool) (s : str) :
  forall pos (k : nat -> str -> option A),
    forallb p s = true ->
    (forall pos' c s', p c = true -> k pos' (c :: s') = None) ->
    rep_greedy p 0 None pos s k = k (pos + length s) [].
Proof.
  induction s as [| c s IH]; intros pos k Hs Hk.
  - simpl. rewrite Nat.add_0_r. reflexivity.
  - simpl in Hs. apply andb_prop in Hs. destruct Hs as [Hc Hs].
    simpl. rewrite Hc. simpl. rewrite IH by assumption.
    replace (S pos + length s) with (pos + S (length s)) by lia.
    destruct (k (pos + S (length s)) []); [reflexivity | apply Hk; exact Hc].
Qed.

Lemma step_chr (p : ascii -> bool) (R : regex) (pos : nat) (c : ascii)
      (s : str) (g : groups) k :
  p c = true ->
  match_re (Seq (Chr p) R) pos (c :: s) g k = match_re R (S pos) s g k.
Proof. intros H. simpl. rewrite H. reflexivity. Qed.

Lemma step_digits01 (n : nat) (R : regex) (pos : nat) (s : str) (g : groups)
      k a :
  match_re R (S (S pos)) s (set_group n "01" g) k = Some a ->
  match_re (Seq (Grp n digits12) R) pos ("0"%char :: "1"%char :: s) g k = Some a.
Proof.
  intros H. unfold digits12. cbn [match_re].
  cbn [rep_greedy is_digit in_range code nat_of_ascii andb can_take pred
       dec_bound option_map].
  change (is_digit "0") with true. change (is_digit "1") with true.
  cbn [andb]. rewrite rep_greedy_zero.
  replace (S (S pos) - pos) with 2 by lia.
  cbn [firstn].
  change (list_ascii_of_string "01") with ["0"%char; "1"%char] in H.
  rewrite H. reflexivity.
Qed.

Lemma step_opt_skip (p : ascii -> bool) (r R : regex) (pos : nat) (z : str)
      (g : groups) k :
  starts_in p z = false ->
  match_re (Seq (Opt (Seq (Chr p) r)) R) pos z g k = match_re R pos z g k.
Proof.
  intros H. cbn [match_re].
  destruct z as [| c z]; [reflexivity |].
  simpl in H. rewrite H. reflexivity.
Qed.
End MatcherSteps.

Lemma step_rest_eos (n : nat) (pos : nat) (z : str) (g : groups) :
  forallb dot z = true ->
  match_re (Seq (Grp n (Rep dot 0 None true)) (Seq Eos Eps)) pos z g accept =
  Some (mkMatch (pos + length z) (set_group n z g)).
Proof.
  intros Hz. cbn [match_re].
  rewrite rep_greedy_to_end.
  - unfold accept. replace (pos + length z - pos) with (length z) by lia.
    rewrite firstn_all. reflexivity.
  - exact Hz.
  - intros pos' c s' Hc. destruct s' as [| c' s']; [| reflexivity].
    unfold dot in Hc. apply negb_true_iff in Hc. cbn [match_re].
    rewrite Hc. reflexivity.
Qed.

(** ** [pattern1] on a name with the marker S01E01 *)

Lemma pattern1_parts :
  pattern1 = Seq Bos (Seq (Grp 1 (Rep dot 1 None false)) pattern1_after_title).
Proof. reflexivity. Qed.

(** On "S01E01" and a rest that does not go on with E, e or a hyphen,
    the marker is read as season "01", episode "01", and nothing else. *)
Lemma marker_match (pos : nat) (z : str) (g : groups) :
  forallb dot z = true -> starts_in (one_of "Ee-") z = false ->
  match_re pattern1_marker pos ("S01E01" ++ z) g accept =
  Some (mkMatch (pos + 6 + length z)
                (set_group 6 z (set_group 3 "01" (set_group 2 "01" g)))).
Proof.
  intros Hz Hs. unfold pattern1_marker, seq. cbn [fold_right].
  cbn [list_ascii_of_string app].
  rewrite step_chr by reflexivity.
  apply step_digits01.
  rewrite step_chr by reflexivity.
  apply step_digits01.
  rewrite !step_opt_skip by assumption.
  rewrite step_rest_eos by assumption.
  do 2 f_equal. lia.
Qed.

Lemma after_title_match (pos : nat) (r z : str) (g : groups) :
  forallb sep_class r = true ->
  forallb dot z = true -> starts_in (one_of "Ee-") z = false ->
  match_re pattern1_after_title pos (r ++ ".S01E01" ++ z) g accept =
  Some (mkMatch (pos + length r + 7 + length z)
                (set_group 6 z (set_group 3 "01" (set_group 2 "01" g)))).
Proof.
  intros Hr Hz Hs. unfold pattern1_after_title. cbn [match_re].
  replace (r ++ ".S01E01" ++ z) with ((r ++ ["."%char]) ++ "S01E01" ++ z)
    by (rewrite <- app_assoc; reflexivity).
  apply rep_greedy_max.
  - rewrite forallb_app, Hr. reflexivity.
  - reflexivity.
  - rewrite length_app. simpl. lia.
  - rewrite marker_match by assumption.
    do 2 f_equal. rewrite length_app. simpl. lia.
Qed.

Lemma marker_at_intro (seps s : str) :
  forallb sep_class seps = true -> 1 <= length seps ->
  episode_start s = true -> marker_at (seps ++ s) = true.
Proof.
  induction seps as [| c seps IH]; intros Hs Hl Hm; [simpl in Hl; lia |].
  simpl in Hs. apply andb_prop in Hs. destruct Hs as [Hc Hs].
  simpl. rewrite Hc. simpl.
  destruct seps as [| c' seps].
  - simpl. rewrite Hm. apply orb_true_r.
  - rewrite IH; auto. simpl. lia.
Qed.

Lemma episode_start_intro (sc ec : ascii) (ds es tail : str) :
  one_of "Ss" sc = true -> one_of "Ee" ec = true ->
  forallb is_digit ds = true -> 1 <= length ds -> length ds <= 2 ->
  forallb is_digit es = true -> 1 <= length es ->
  episode_start ([sc] ++ ds ++ [ec] ++ es ++ tail) = true.
Proof.
  intros Hs He Hd L1 L2 Hes Le.
  destruct es as [| e1 es]; [simpl in Le; lia |].
  simpl in Hes. apply andb_prop in Hes. destruct Hes as [H1 _].
  destruct ds as [| d1 [| d2 [| d3 ds]]]; simpl in L1, L2; try lia;
    simpl in Hd; repeat (apply andb_prop in Hd; destruct Hd as [?Hd Hd]);
    cbn [app episode_start starts_in].
  - rewrite Hs, Hd0, He, H1. reflexivity.
  - rewrite Hs, Hd0, Hd1, He, H1. cbn [andb]. apply orb_true_r.
Qed.

(** Whatever [pattern1] may match after the title begins with
    separators and a complete marker. *)
Lemma matches_after_title (pos : nat) (w rest : str) (g g' : groups) :
  Matches pattern1_after_title pos w rest g g' -> marker_at (w ++ rest) = true.
Proof.
  intros M. unfold pattern1_after_title, pattern1_marker, seq, digits12 in M.
  cbn [fold_right] in M.
  inversion M as [| | | r1 r2 p0 seps w1 rest0 g0 g1 g2 Mseps M1 | | | | | | |];
    subst; clear M.
  inversion M1 as [| | | r1 r2 p0 sc w2 rest0 g0 g3 g4 Msc M2 | | | | | | |];
    subst; clear M1.
  inversion M2 as [| | | r1 r2 p0 ds w3 rest0 g0 g5 g6 Mds M3 | | | | | | |];
    subst; clear M2.
  inversion M3 as [| | | r1 r2 p0 ec w4 rest0 g0 g7 g8 Mec M4 | | | | | | |];
    subst; clear M3.
  inversion M4 as [| | | r1 r2 p0 es w5 rest0 g0 g9 g10 Mes M5 | | | | | | |];
    subst; clear M4 M5.
  inversion Mseps; subst; clear Mseps.
  inversion Msc; subst; clear Msc.
  inversion Mec; subst; clear Mec.
  inversion Mds as [| | | | | | | | n0 r0 p0 w0 rest0 g0 g0' Mrep | |];
    subst; clear Mds.
  inversion Mrep; subst; clear Mrep.
  inversion Mes as [| | | | | | | | n1 r3 p1 w6 rest1 g11 g12 Mrep | |];
    subst; clear Mes.
  inversion Mrep; subst; clear Mrep.
  rewrite <- app_assoc. apply marker_at_intro; auto.
  rewrite <- !app_assoc.
  apply episode_start_intro; auto.
Qed.

Lemma pattern1_match (x z : str) :
  x <> [] -> forallb dot x = true -> earlier_marker x = false ->
  forallb dot z = true -> starts_in (one_of "Ee-") z = false ->
  exists m, re_match pattern1 (x ++ ".S01E01" ++ z) = Some m /\
            (exists t, m_groups m 1 = Some t) /\
            m_groups m 2 = Some ("01" : str) /\
            m_groups m 3 = Some ("01" : str) /\
            m_groups m 4 = None /\ m_groups m 5 = None.
Proof.
  intros Hx Hdx Hem Hz Hs.
  destruct (title_split Hx) as (t & r & Ex & Ht & Hr & Hmin).
  unfold re_match, match_at. rewrite pattern1_parts. cbn [match_re Nat.eqb].
  subst x. rewrite <- app_assoc.
  apply forallb_dot_app in Hdx. destruct Hdx as [Hdt _].
  eexists. split.
  - apply rep_lazy_first with (p := dot).
    + exact Hdt.
    + destruct t; [congruence | simpl; lia].
    + intros i H1 H2. simpl "+".
      match goal with
      | |- ?lhs = None => destruct lhs as [a |] eqn:E; [exfalso | reflexivity]
      end.
      apply match_re_sound in E. destruct E as (w & rest & g' & Es & M & _).
      apply matches_after_title in M. rewrite <- Es in M.
      rewrite app_assoc in M. apply marker_before in M.
      destruct M as [M | M].
      * destruct t as [| c0 t0]; [congruence |].
        destruct i as [| j]; [lia |].
        unfold earlier_marker in Hem. cbn [app tl] in Hem.
        cbn [skipn] in M.
        rewrite <- (firstn_skipn j t0), <- app_assoc in Hem.
        rewrite marker_in_suffix in Hem; [discriminate | exact M].
      * rewrite forallb_app in M. apply andb_prop in M. destruct M as [M _].
        rewrite (Hmin i H1 H2) in M. discriminate.
    + simpl "+". apply after_title_match; assumption.
  - cbn [m_groups]. unfold set_group, no_groups. cbn [Nat.eqb].
    split; [eexists; reflexivity | auto].
Qed.

(** C5, as the code has it: for a name [x ++ ".S01E01." ++ y] where [x]
    is not empty, neither [x] nor [y] holds a slash or a line feed, and no
    separator of [x] other than its first character is directly followed
    by a complete marker (S or s, one or two digits, E or e, a digit),
    the locator returns season 1, the one episode 1, and no multi-episode
    flag. *)
Theorem locate_s01e01 (x y : str) :
  x <> [] -> forallb plain x = true -> forallb plain y = true ->
  earlier_marker x = false ->
  exists info, get_episode_info (x ++ ".S01E01." ++ y) = Ok info /\
               season info = Some 1%Z /\ episodes info = [1%Z] /\
               is_multi_episode info = false.
Proof.
  intros Hx Hpx Hpy Hem.
  destruct (stem_marker x y Hpx Hpy) as (z & Estem & Hz & Hs).
  destruct (@pattern1_match x z Hx (plain_dot _ Hpx) Hem Hz Hs)
    as (m & Em & (t1 & E1) & E2 & E3 & E4 & E5).
  unfold get_episode_info. rewrite Estem, Em. cbv zeta.
  rewrite E1, E2, E3, E4, E5.
  eexists. split; [reflexivity |]. repeat split.
Qed.

Lemma locate_s01e01_witness :
  (("Mr.S4mple" : str) <> [] /\ forallb plain "Mr.S4mple" = true /\
   forallb plain "720p.mkv" = true /\ earlier_marker "Mr.S4mple" = false) /\
  exists info,
    get_episode_info ("Mr.S4mple" ++ ".S01E01." ++ "720p.mkv") = Ok info /\
    season info = Some 1%Z /\ episodes info = [1%Z] /\
    is_multi_episode info = false.
Proof.
  split.
  - split; [discriminate | repeat split].
  - apply (@locate_s01e01 ("Mr.S4mple" : str) ("720p.mkv" : str));
      [discriminate | reflexivity | reflexivity | reflexivity].
Defined.

(** C5 as stated fails: these names have the form [*.S01E01.*]; the first
    has nothing in front of the marker and is not recognized, the second
    has an earlier marker, which is the one that is read. *)
Lemma locate_s01e01_counterexample :
  (".S01E01.mkv" : str) = [] ++ ".S01E01." ++ "mkv" /\
  get_episode_info ".S01E01.mkv" = Ok (mkEpisodeInfo None None [] None None false) /\
  ("Show.S02E03.S01E01.mkv" : str) = "Show.S02E03" ++ ".S01E01." ++ "mkv" /\
  (exists info, get_episode_info "Show.S02E03.S01E01.mkv" = Ok info /\
                season info = Some 2%Z /\ episodes info = [3%Z]).
Proof.
  repeat split. eexists. split; [vm_compute; reflexivity |]. split; reflexivity.
Qed.

(** * Further properties *)

(** ** Occurrences *)

Lemma starts_with_iff (p s : str) :
  starts_with p s = true <-> exists b, s = p ++ b.
Proof.
  revert s. induction p as [| a p IH]; intros s; simpl.
  - split; [intros _; exists s; reflexivity | reflexivity].
  - destruct s as [| c s].
    + split; [discriminate | intros (b & E); discriminate].
    + rewrite andb_true_iff, IH. split.
      * intros (E & b & ->). apply Ascii.eqb_eq in E. subst. exists b. reflexivity.
      * intros (b & E). injection E as -> ->.
        split; [apply Ascii.eqb_refl | exists b; reflexivity].
Qed.

Lemma contains_iff (x s : str) :
  contains x s = true <-> exists a b, s = a ++ x ++ b.
Proof.
  induction s as [| c s IH]; simpl.
  - rewrite orb_false_r, starts_with_iff. split.
    + intros (b & E). exists [], b. exact E.
    + intros (a & b & E). destruct a; [exists b; exact E | discriminate].
  - rewrite orb_true_iff, starts_with_iff, IH. split.
    + intros [(b & E) | (a & b & ->)].
      * exists [], b. exact E.
      * exists (c :: a), b. reflexivity.
    + intros (a & b & E). destruct a as [| c' a].
      * left. exists b. exact E.
      * right. injection E as _ ->. exists a, b. reflexivity.
Qed.

(** What occurs in an occurrence occurs in the whole. *)
Lemma contains_trans (y x s : str) :
  contains y x = true -> contains x s = true -> contains y s = true.
Proof.
  rewrite !contains_iff. intros (a & b & ->) (a' & b' & ->).
  exists (a' ++ a), (b ++ b'). app_norm.
Qed.

Lemma contains_lower (x s : str) :
  contains x s = true -> contains (lower x) (lower s) = true.
Proof.
  rewrite !contains_iff. intros (a & b & ->).
  exists (lower a), (lower b). unfold lower. rewrite !map_app. reflexivity.
Qed.

Lemma any_in_cons (x : str) (xs : list str) (s : str) :
  any_in (x :: xs) s = contains x s || any_in xs s.
Proof. reflexivity. Qed.

(** ** Quality scoring: what a name without any known tag gets, and what
    tags inside other tags trigger *)

Ltac tier_cases :=
  repeat match goal with
         | |- context [if ?b then _ else _] => destruct b eqn:?
         end.

Section ScoreSteps.
Variable fl : str.
Variable q : quality.

Ltac grows_done :=
  solve [ left; reflexivity
        | right; simpl; rewrite ?length_app; simpl; split; lia ].

Lemma score_resolution_grows : grows q (score_resolution fl q).
Proof. unfold score_resolution; tier_cases; grows_done. Qed.

Lemma score_source_grows : grows q (score_source fl q).
Proof. unfold score_source; tier_cases; grows_done. Qed.

Lemma score_codec_grows : grows q (score_codec fl q).
Proof. unfold score_codec; tier_cases; grows_done. Qed.

Lemma score_audio_grows : grows q (score_audio fl q).
Proof. unfold score_audio; tier_cases; grows_done. Qed.

Lemma score_hdr_grows : grows q (score_hdr fl q).
Proof. unfold score_hdr; tier_cases; grows_done. Qed.

(** Each category writes its own key only. *)
Lemma score_resolution_frame :
  let q' := score_resolution fl q in
  source q' = source q /\ codec q' = codec q /\ audio q' = audio q /\ hdr q' = hdr q.
Proof. unfold score_resolution; tier_cases; repeat split. Qed.

Lemma score_source_frame :
  let q' := score_source fl q in
  resolution q' = resolution q /\ codec q' = codec q /\ audio q' = audio q /\
  hdr q' = hdr q.
Proof. unfold score_source; tier_cases; repeat split. Qed.

Lemma score_codec_frame :
  let q' := score_codec fl q in
  resolution q' = resolution q /\ source q' = source q /\ audio q' = audio q /\
  hdr q' = hdr q.
Proof. unfold score_codec; tier_cases; repeat split. Qed.

Lemma score_audio_frame :
  let q' := score_audio fl q in
  resolution q' = resolution q /\ source q' = source q /\ codec q' = codec q /\
  hdr q' = hdr q.
Proof. unfold score_audio; tier_cases; repeat split. Qed.

Lemma score_hdr_frame :
  let q' := score_hdr fl q in
  resolution q' = resolution q /\ source q' = source q /\ codec q' = codec q /\
  audio q' = audio q.
Proof. unfold score_hdr; tier_cases; repeat split. Qed.
End ScoreSteps.

Lemma grows_score (q q' : quality) : grows q q' -> (score q <= score q')%Z.
Proof. intros [-> | [H _]]; lia. Qed.

Lemma grows_trans (q1 q2 q3 : quality) : grows q1 q2 -> grows q2 q3 -> grows q1 q3.
Proof.
  intros [-> | [H1 L1]] [-> | [H2 L2]];
    solve [left; reflexivity | right; split; lia].
Qed.

Lemma get_quality_score_grows (filename : str) :
  grows quality_init (get_quality_score filename).
Proof.
  unfold get_quality_score. cbv zeta.
  eapply grows_trans; [| apply score_hdr_grows].
  eapply grows_trans; [| apply score_audio_grows].
  eapply grows_trans; [| apply score_codec_grows].
  eapply grows_trans; [| apply score_source_grows].
  apply score_resolution_grows.
Qed.

(** The score is 0 exactly when the breakdown is empty, and exactly when
    the whole result is the initial dictionary: every category "Unknown",
    no HDR.  A recognized tag always gives at least 3 points. *)
Theorem quality_score_zero (filename : str) :
  let q := get_quality_score filename in
  (score q = 0%Z <-> details q = []) /\
  (score q = 0%Z <-> q = quality_init) /\
  (score q = 0 \/ 3 <= score q)%Z.
Proof.
  cbv zeta. destruct (get_quality_score_grows filename) as [-> | [H L]].
  - repeat split; auto.
  - simpl in H, L. repeat split; try (intros E; exfalso).
    + lia.
    + rewrite E in L. simpl in L. lia.
    + lia.
    + rewrite E in H. simpl in H. lia.
    + right. lia.
Qed.

Lemma score_hdr_flag (fl : str) (q : quality) :
  hdr (score_hdr fl q) =
  hdr q || any_in (strs ["hdr"; "dolby vision"; "dolbyvision"; "dovi"; " dv "]) fl.
Proof.
  assert (T1 : contains "hdr10+" fl = true -> contains "hdr" fl = true)
    by (apply contains_trans; reflexivity).
  assert (T2 : contains "hdr10plus" fl = true -> contains "hdr" fl = true)
    by (apply contains_trans; reflexivity).
  assert (T3 : contains "hdr10" fl = true -> contains "hdr" fl = true)
    by (apply contains_trans; reflexivity).
  unfold score_hdr, strs. cbn [map]. rewrite !any_in_cons.
  change (any_in [] fl) with false.
  destruct (contains "hdr10+" fl); [rewrite T1 by reflexivity |];
  destruct (contains "hdr10plus" fl); try rewrite T2 by reflexivity;
  destruct (contains "hdr10" fl); try rewrite T3 by reflexivity;
  destruct (contains "hdr" fl);
  destruct (contains "dolby vision" fl);
  destruct (contains "dolbyvision" fl);
  destruct (contains "dovi" fl);
  destruct (contains " dv " fl);
  simpl; rewrite ?orb_true_r, ?orb_false_r; reflexivity.
Qed.

Lemma score_hdr_points (fl : str) (q : quality) :
  contains "hdr" fl = true -> (score q + 10 <= score (score_hdr fl q))%Z.
Proof.
  intros H. unfold score_hdr. tier_cases; simpl; solve [lia | congruence].
Qed.

Lemma hdr_before_score_hdr (fl : str) :
  hdr (score_audio fl (score_codec fl (score_source fl
         (score_resolution fl quality_init)))) = false.
Proof.
  destruct (score_audio_frame fl (score_codec fl (score_source fl
              (score_resolution fl quality_init)))) as (_ & _ & _ & ->).
  destruct (score_codec_frame fl (score_source fl
              (score_resolution fl quality_init))) as (_ & _ & _ & ->).
  destruct (score_source_frame fl (score_resolution fl quality_init))
    as (_ & _ & _ & ->).
  destruct (score_resolution_frame fl quality_init) as (_ & _ & _ & ->).
  reflexivity.
Qed.

(** The scorer sets [hdr] exactly for the names that hold, in any case,
    "hdr" or one of the Dolby Vision spellings: the tiers HDR10+, HDR10 and
    HDR all hold "hdr". *)
Theorem hdr_flag_iff (filename : str) :
  hdr (get_quality_score filename) =
  any_in (strs ["hdr"; "dolby vision"; "dolbyvision"; "dovi"; " dv "])
         (lower filename).
Proof.
  unfold get_quality_score. cbv zeta.
  rewrite score_hdr_flag, hdr_before_score_hdr. reflexivity.
Qed.

(** A name that holds the release tag "HDRip", in any case, is scored as
    HDR: the flag is set and at least the 10 points of the HDR tier are
    given. *)
Theorem hdrip_scored_as_hdr (filename : str) :
  contains "hdrip" (lower filename) = true ->
  hdr (get_quality_score filename) = true /\
  (10 <= score (get_quality_score filename))%Z.
Proof.
  intros H.
  assert (Hh : contains "hdr" (lower filename) = true)
    by (eapply contains_trans; [| exact H]; reflexivity).
  unfold get_quality_score. cbv zeta. split.
  - rewrite score_hdr_flag, hdr_before_score_hdr.
    unfold strs. cbn [map]. rewrite any_in_cons, Hh. reflexivity.
  - set (q4 := score_audio _ _).
    pose proof (score_hdr_points (lower filename) q4 Hh) as P.
    assert (G : grows quality_init q4).
    { unfold q4.
      eapply grows_trans; [| apply score_audio_grows].
      eapply grows_trans; [| apply score_codec_grows].
      eapply grows_trans; [| apply score_source_grows].
      apply score_resolution_grows. }
    apply grows_score in G. simpl in G. lia.
Qed.

Lemma hdrip_scored_as_hdr_witness :
  contains "hdrip" (lower "Movie.2010.HDRip.XviD") = true /\
  hdr (get_quality_score "Movie.2010.HDRip.XviD") = true /\
  (10 <= score (get_quality_score "Movie.2010.HDRip.XviD"))%Z.
Proof.
  split; [reflexivity |].
  apply (@hdrip_scored_as_hdr ("Movie.2010.HDRip.XviD" : str)). reflexivity.
Defined.

Lemma score_resolution_dvd (fl : str) (q : quality) :
  contains "dvd" fl = true ->
  (score q + 40 <= score (score_resolution fl q))%Z /\
  resolution (score_resolution fl q) <> "Unknown".
Proof.
  intros H. unfold score_resolution, strs. cbn [map]. rewrite !any_in_cons, H.
  rewrite orb_true_r. tier_cases; simpl; split; solve [lia | discriminate].
Qed.

Lemma score_source_dvdrip (fl : str) (q : quality) :
  contains "dvdrip" fl = true ->
  (score q + 10 <= score (score_source fl q))%Z /\
  source (score_source fl q) <> "Unknown".
Proof.
  intros H. unfold score_source. rewrite H.
  tier_cases; simpl; split; solve [lia | discriminate].
Qed.

(** A name that holds "DVDRip", in any case, never has an unknown
    resolution: "dvdrip" holds "dvd", the trigger of the 480p tier.  It
    gets at least 40 + 10 points. *)
Theorem dvdrip_has_resolution (filename : str) :
  contains "dvdrip" (lower filename) = true ->
  let q := get_quality_score filename in
  resolution q <> "Unknown" /\ source q <> "Unknown" /\ (50 <= score q)%Z.
Proof.
  intros H.
  assert (Hd : contains "dvd" (lower filename) = true)
    by (eapply contains_trans; [| exact H]; reflexivity).
  unfold get_quality_score. cbv zeta.
  set (fl := lower filename) in *.
  destruct (score_resolution_dvd fl quality_init Hd) as [P1 R1].
  set (q1 := score_resolution fl quality_init) in *.
  destruct (score_source_dvdrip fl q1 H) as [P2 S2].
  destruct (score_source_frame fl q1) as (F2 & _).
  set (q2 := score_source fl q1) in *.
  destruct (score_codec_frame fl q2) as (F3r & F3s & _).
  pose proof (grows_score (score_codec_grows fl q2)) as G3.
  set (q3 := score_codec fl q2) in *.
  destruct (score_audio_frame fl q3) as (F4r & F4s & _).
  pose proof (grows_score (score_audio_grows fl q3)) as G4.
  set (q4 := score_audio fl q3) in *.
  destruct (score_hdr_frame fl q4) as (F5r & F5s & _).
  pose proof (grows_score (score_hdr_grows fl q4)) as G5.
  set (q5 := score_hdr fl q4) in *.
  simpl in P1.
  split; [| split].
  - rewrite F5r, F4r, F3r, F2. exact R1.
  - rewrite F5s, F4s, F3s. exact S2.
  - lia.
Qed.

Lemma dvdrip_has_resolution_witness :
  contains "dvdrip" (lower "Old.Movie.DVDRip.XviD") = true /\
  let q := get_quality_score "Old.Movie.DVDRip.XviD" in
  resolution q <> "Unknown" /\ source q <> "Unknown" /\ (50 <= score q)%Z.
Proof.
  split; [reflexivity |].
  apply (@dvdrip_has_resolution ("Old.Movie.DVDRip.XviD" : str)). reflexivity.
Defined.

(** ** Duplicate detection: what the groups are *)

Lemma bucket_snoc (k : str) (seen : list folder_item) (f : folder_item) :
  bucket k (seen ++ [f]) =
  bucket k seen ++ (if str_eqb (folder_key f) k then [make_entry f] else []).
Proof.
  unfold bucket. rewrite filter_app, map_app. simpl.
  destruct (str_eqb (folder_key f) k); reflexivity.
Qed.

Lemma bucket_nil_iff (k : str) (seen : list folder_item) :
  bucket k seen = [] <-> forall f, In f seen -> folder_key f <> k.
Proof.
  unfold bucket. induction seen as [| f seen IH]; simpl.
  - split; [intros _ f [] | reflexivity].
  - destruct (str_eqb (folder_key f) k) eqn:E; simpl.
    + split; [discriminate |]. intros H. exfalso.
      apply (H f); [left; reflexivity | apply str_eqb_eq; exact E].
    + rewrite IH. apply str_eqb_neq in E. split.
      * intros H f' [<- | Hin]; auto.
      * intros H f' Hin. apply H. right. exact Hin.
Qed.

Lemma lookup_append_keys (key : str) (e : entry) (d : lookup) :
  map fst (lookup_append key e d) =
  if existsb (str_eqb key) (map fst d) then map fst d else map fst d ++ [key].
Proof.
  induction d as [| [k es] d IH]; simpl; [reflexivity |].
  destruct (str_eqb k key) eqn:E.
  - apply str_eqb_eq in E. subst. rewrite str_eqb_refl. reflexivity.
  - assert (E' : str_eqb key k = false).
    { apply str_eqb_neq. apply str_eqb_neq in E. congruence. }
    rewrite E'. simpl. rewrite IH.
    destruct (existsb (str_eqb key) (map fst d)); reflexivity.
Qed.

Lemma lookup_append_in (key : str) (e : entry) (d : lookup) (k : str)
      (es : list entry) :
  NoDup (map fst d) -> In (k, es) (lookup_append key e d) ->
  (k <> key /\ In (k, es) d) \/
  (k = key /\ ((exists es0, In (key, es0) d /\ es = es0 ++ [e]) \/
               (~ In key (map fst d) /\ es = [e]))).
Proof.
  induction d as [| [k0 es0] d IH]; simpl; intros ND H.
  - destruct H as [H | []]. injection H as <- <-. right. auto.
  - inversion ND as [| ? ? Hk0 ND']; subst.
    destruct (str_eqb k0 key) eqn:E.
    + apply str_eqb_eq in E. subst k0. destruct H as [H | H].
      * injection H as <- <-. right. split; [reflexivity |]. left.
        exists es0. auto.
      * left. split; [| right; exact H].
        intros ->. apply Hk0. apply (in_map fst) in H. exact H.
    + apply str_eqb_neq in E. destruct H as [H | H].
      * injection H as <- <-. left. auto.
      * destruct (IH ND' H) as [[N Hin] | [-> [(es1 & Hin & ->) | [Hn ->]]]].
        -- left. auto.
        -- right. split; [reflexivity |]. left. exists es1. auto.
        -- right. split; [reflexivity |]. right. split; [| reflexivity].
           intros [C | C]; [congruence | auto].
Qed.

Lemma existsb_str_eqb (key : str) (l : list str) :
  existsb (str_eqb key) l = true <-> In key l.
Proof.
  rewrite existsb_exists. split.
  - intros (x & Hin & E). apply str_eqb_eq in E. subst. exact Hin.
  - intros H. exists key. split; [exact H | apply str_eqb_refl].
Qed.

Lemma bucket_in (k : str) (seen : list folder_item) (e : entry) :
  In e (bucket k seen) ->
  exists f, In f seen /\ folder_key f = k /\ e = make_entry f.
Proof.
  unfold bucket. intros H. apply in_map_iff in H. destruct H as (f & <- & H).
  apply filter_In in H. destruct H as [Hin E]. apply str_eqb_eq in E.
  exists f. auto.
Qed.

Lemma lookup_append_filed (d : lookup) (seen : list folder_item)
      (f : folder_item) :
  lookup_filed d seen ->
  lookup_filed (lookup_append (folder_key f) (make_entry f) d) (seen ++ [f]).
Proof.
  intros (ND & Hb & Hc).
  assert (K := lookup_append_keys (folder_key f) (make_entry f) d).
  split; [| split].
  - rewrite K. destruct (existsb (str_eqb (folder_key f)) (map fst d)) eqn:E;
      [exact ND |].
    apply NoDup_app; [exact ND | repeat constructor; intros [] |].
    intros x Hx [<- | []].
    apply existsb_str_eqb in Hx. congruence.
  - intros k es H. apply lookup_append_in in H; [| exact ND].
    rewrite bucket_snoc.
    destruct H as [[N Hin] | [-> [(es0 & Hin & ->) | [Hn ->]]]].
    + destruct (Hb k es Hin) as [-> Hne].
      assert (E : str_eqb (folder_key f) k = false)
        by (apply str_eqb_neq; congruence).
      rewrite E, app_nil_r. auto.
    + destruct (Hb _ _ Hin) as [-> _]. rewrite str_eqb_refl.
      split; [reflexivity |]. intros C. apply app_eq_nil in C.
      destruct C as [_ C]. discriminate.
    + rewrite str_eqb_refl.
      assert (B : bucket (folder_key f) seen = []).
      { apply bucket_nil_iff. intros f' Hin C. apply Hn. rewrite <- C.
        apply Hc. exact Hin. }
      rewrite B. split; [reflexivity | discriminate].
  - intros f' Hin. rewrite K. apply in_app_or in Hin.
    destruct (existsb (str_eqb (folder_key f)) (map fst d)) eqn:E.
    + destruct Hin as [Hin | [<- | []]]; [apply Hc; exact Hin |].
      apply existsb_str_eqb. exact E.
    + apply in_or_app. destruct Hin as [Hin | [<- | []]].
      * left. apply Hc. exact Hin.
      * right. left. reflexivity.
Qed.

Lemma build_lookup_filed (folders : list folder_item) :
  lookup_filed (build_lookup folders) folders.
Proof.
  unfold build_lookup.
  assert (G : forall rest seen d,
             lookup_filed d seen ->
             lookup_filed
               (fold_left (fun d folder =>
                             lookup_append
                               (lookup_key (get_normalized_title (folder_name folder)))
                               (make_entry folder) d) rest d)
               (seen ++ rest)).
  { induction rest as [| f rest IH]; intros seen d H; simpl.
    - rewrite app_nil_r. exact H.
    - replace (seen ++ f :: rest) with ((seen ++ [f]) ++ rest)
        by (rewrite <- app_assoc; reflexivity).
      apply IH. apply (lookup_append_filed f H). }
  apply (G folders [] []).
  split; [constructor | split]; [intros k es [] | intros f []].
Qed.

Lemma find_duplicate_movies_eq (listing : list folder_item) :
  find_duplicate_movies listing =
  filter (fun entries => 1 <? length entries)
         (map snd (build_lookup (movie_folders listing))).
Proof.
  unfold find_duplicate_movies.
  destruct (movie_folders listing); reflexivity.
Qed.

Lemma find_duplicate_movies_in (listing : list folder_item) (g : list entry) :
  In g (find_duplicate_movies listing) <->
  2 <= length g /\ exists k, g = bucket k (movie_folders listing).
Proof.
  rewrite find_duplicate_movies_eq, filter_In.
  destruct (build_lookup_filed (movie_folders listing)) as (ND & Hb & Hc).
  split.
  - intros [Hin Hl]. apply Nat.ltb_lt in Hl. split; [lia |].
    apply in_map_iff in Hin. destruct Hin as ([k es] & <- & Hin).
    exists k. apply (Hb k es Hin).
  - intros [Hl (k & ->)]. split; [| apply Nat.ltb_lt; lia].
    destruct (bucket k (movie_folders listing)) as [| e es] eqn:B;
      [simpl in Hl; lia |].
    destruct (bucket_in k (movie_folders listing) e) as (f & Hin & <- & _).
    { rewrite B. left. reflexivity. }
    specialize (Hc f Hin). apply in_map_iff in Hc.
    destruct Hc as ([k' es'] & Ek & Hin'). simpl in Ek. subst k'.
    destruct (Hb _ _ Hin') as [E _]. rewrite B in E. subst es'.
    apply in_map_iff. exists (folder_key f, e :: es). auto.
Qed.

(** The groups [find_duplicate_movies] returns are exactly the lists, of
    two entries or more, of all the movie folders of the listing that
    have one same key, in the order of the listing. *)
Theorem duplicate_groups_by_key (listing : list folder_item) (g : list entry) :
  In g (find_duplicate_movies listing) <->
  2 <= length g /\ exists k, g = bucket k (movie_folders listing).
Proof. apply find_duplicate_movies_in. Qed.

Lemma make_entry_key (f1 f2 : folder_item) :
  make_entry f1 = make_entry f2 -> folder_key f1 = folder_key f2.
Proof.
  intros E. apply (f_equal original_name) in E. simpl in E.
  unfold folder_key. rewrite E. reflexivity.
Qed.

(** No folder is reported in two groups: groups that share an entry are
    the same group. *)
Theorem duplicate_groups_disjoint (listing : list folder_item)
        (g1 g2 : list entry) (e : entry) :
  In g1 (find_duplicate_movies listing) ->
  In g2 (find_duplicate_movies listing) ->
  In e g1 -> In e g2 -> g1 = g2.
Proof.
  intros H1 H2 E1 E2.
  apply find_duplicate_movies_in in H1. destruct H1 as (_ & k1 & ->).
  apply find_duplicate_movies_in in H2. destruct H2 as (_ & k2 & ->).
  apply bucket_in in E1. destruct E1 as (f1 & _ & <- & ->).
  apply bucket_in in E2. destruct E2 as (f2 & _ & <- & E).
  rewrite (make_entry_key E). reflexivity.
Qed.

Lemma duplicate_groups_disjoint_witness :
  let A := mkFolder "/m/a" "Inception.2010.720p.BluRay.x264" true [] in
  let B := mkFolder "/m/b" "Inception.2010.1080p.WEB-DL.x264" true [] in
  let g := [make_entry A; make_entry B] in
  (In g (find_duplicate_movies [A; B]) /\ In (make_entry A) g) /\ g = g.
Proof.
  intros A B g.
  assert (Hg : In g (find_duplicate_movies [A; B])) by (left; reflexivity).
  assert (He : In (make_entry A) g) by (left; reflexivity).
  split; [split; assumption |].
  exact (@duplicate_groups_disjoint [A; B] g g (make_entry A) Hg Hg He He).
Defined.

(** Only directories of the listing other than "_Trailers" are reported,
    each by the entry made of its own name and path. *)
Theorem duplicate_groups_members (listing : list folder_item) :
  Forall (Forall (fun e =>
            exists f, In f listing /\ is_dir f = true /\
                      folder_name f <> "_Trailers" /\ e = make_entry f))
         (find_duplicate_movies listing).
Proof.
  apply Forall_forall. intros g Hg. apply Forall_forall. intros e He.
  apply find_duplicate_movies_in in Hg. destruct Hg as (_ & k & ->).
  apply bucket_in in He. destruct He as (f & Hin & _ & ->).
  unfold movie_folders in Hin. apply filter_In in Hin.
  destruct Hin as [Hin C]. apply andb_prop in C. destruct C as [Hd Hn].
  exists f. repeat split; auto.
  apply negb_true_iff in Hn. apply str_eqb_neq in Hn. exact Hn.
Qed.

(** In every group of the report the first line is the one to keep, all
    the others are to delete, at least one is, and none of them has a
    higher score than the one kept; the lines are those of one group of
    [find_duplicate_movies]. *)
Theorem report_keeps_best (listing : list folder_item) :
  Forall (fun lines =>
            exists e rest,
              lines = (KEEP, e) :: map (fun x => (DEL, x)) rest /\
              rest <> [] /\
              Forall (fun x => (entry_score x <= entry_score e)%Z) rest /\
              exists g, In g (find_duplicate_movies listing) /\
                        Permutation (e :: rest) g)
         (show_duplicate_report listing).
Proof.
  unfold show_duplicate_report. apply Forall_forall. intros lines H.
  apply in_map_iff in H. destruct H as (g & <- & Hg).
  pose proof (sorted_group_sorted g) as S.
  pose proof (sorted_group_perm g) as P.
  pose proof (proj1 (find_duplicate_movies_in listing g) Hg) as [L _].
  rewrite <- (Permutation_length P) in L.
  destruct (sorted_group g) as [| e rest]; [simpl in L; lia |].
  exists e, rest. split; [reflexivity |].
  split; [intros ->; simpl in L; lia |].
  inversion S as [| ? ? _ F]; subst.
  split; [exact F |]. exists g. auto.
Qed.

(** ** Title normalization: the shape of the title, and the year *)

(** Deleting the matches of a pattern leaves characters of the subject. *)
Lemma sub_from_delete_chars (r : regex) (P : ascii -> bool) (s : str) :
  forall pos skip,
    forallb P s = true -> forallb P (sub_from r [] pos s skip) = true.
Proof.
  induction s as [| c s IH]; intros pos skip H.
  - destruct skip; simpl; [| reflexivity].
    destruct (match_at r pos []); reflexivity.
  - simpl in H. apply andb_prop in H. destruct H as [Hc Hs].
    destruct skip as [| n]; [| simpl; apply IH; exact Hs].
    simpl. destruct (match_at r pos (c :: s)) as [m |].
    + simpl. destruct (m_end m - pos); [simpl; rewrite Hc |]; apply IH; exact Hs.
    + simpl. rewrite Hc. apply IH. exact Hs.
Qed.

Lemma truncate_title_chars (P : ascii -> bool) (b : str) :
  forallb P b = true -> forallb P (truncate_title b) = true.
Proof.
  intros H. unfold truncate_title, re_sub.
  apply sub_from_delete_chars, sub_from_delete_chars. exact H.
Qed.

(** Whatever the name, the normalized title is in lower case, holds no
    dot, underscore, hyphen or slash and no blank but the space, with no
    two spaces in a row and none at either end. *)
Theorem normalized_title_normal (name : str) : normal (nt name).
Proof.
  unfold nt, get_normalized_title. cbn [normalized_title].
  apply normal_remove_article, normal_normalize, truncate_title_chars.
  apply stem_no_slash.
Qed.

(** [re.search] returns the match at the first index that has one. *)
Lemma search_from_some (r : regex) (s : str) : forall pos start m,
  search_from r pos s = Some (start, m) ->
  exists n, start = pos + n /\ n <= length s /\
            match_at r start (skipn n s) = Some m /\
            forall k, k < n -> match_at r (pos + k) (skipn k s) = None.
Proof.
  induction s as [| c s IH]; intros pos start m H; simpl in H.
  - destruct (match_at r pos []) as [m' |] eqn:E; [| discriminate].
    injection H as <- <-. exists 0. rewrite Nat.add_0_r.
    repeat split; auto; intros k Hk; lia.
  - destruct (match_at r pos (c :: s)) as [m' |] eqn:E.
    + injection H as <- <-. exists 0. rewrite Nat.add_0_r.
      repeat split; auto; try (simpl; lia); intros k Hk; lia.
    + apply IH in H. destruct H as (n & -> & Hn & Hm & Hk).
      exists (S n). repeat split.
      * lia.
      * simpl. lia.
      * simpl skipn. replace (pos + S n) with (S pos + n) by lia. exact Hm.
      * intros [| k] Hlt; [rewrite Nat.add_0_r; exact E |].
        simpl skipn. replace (pos + S k) with (S pos + k) by lia.
        apply Hk. lia.
Qed.

Lemma search_from_none (r : regex) (s : str) : forall pos,
  search_from r pos s = None ->
  forall n, n <= length s -> match_at r (pos + n) (skipn n s) = None.
Proof.
  induction s as [| c s IH]; intros pos H n Hn; simpl in H.
  - simpl in Hn. assert (n = 0) as -> by lia. rewrite Nat.add_0_r. simpl.
    destruct (match_at r pos []); [discriminate | reflexivity].
  - destruct (match_at r pos (c :: s)) as [m' |] eqn:E; [discriminate |].
    destruct n as [| n]; [rewrite Nat.add_0_r; exact E |].
    simpl skipn. replace (pos + S n) with (S pos + n) by lia.
    apply IH; [exact H | simpl in Hn; lia].
Qed.

Lemma search_from_found (r : regex) (s : str) : forall pos n m,
  n <= length s -> match_at r (pos + n) (skipn n s) = Some m ->
  exists x, search_from r pos s = Some x.
Proof.
  intros pos n m Hn Hm.
  destruct (search_from r pos s) as [x |] eqn:E; [eauto |].
  rewrite (@search_from_none r s pos E n Hn) in Hm. discriminate.
Qed.

(** What [re_year] matches is a year token, and every year token is
    matched. *)
Lemma re_year_sound (pos : nat) (s : str) (m : match_obj) :
  match_at re_year pos s = Some m ->
  exists f rest, s = f ++ rest /\ year_tok f /\ m_end m = pos + length f.
Proof.
  intros H. apply match_at_sound in H. destruct H as (w & rest & -> & M & E).
  unfold re_year, seq in M. cbn [fold_right] in M.
  inversion M as [| | | r1 r2 p0 y w1 rest0 g0 g1 g2 My M1 | | | | | | |]; subst; clear M.
  inversion M1 as [| | | r1 r2 p0 dd w2 rest0 g0 g3 g4 Mdd M2 | | | | | | |]; subst; clear M1.
  inversion M2; subst; clear M2.
  inversion My as [| | | | | | | | n0 r0 p0 w0 rest0 g0 g0' Malt | |]; subst; clear My.
  inversion Mdd; subst; clear Mdd.
  destruct (two_chars dd) as (d1 & d2 & ->); [assumption.. |].
  assert (Hy : In y (strs ["19"; "20"])).
  { inversion Malt; subst;
      match goal with
      | H : Matches (lit _) _ _ _ _ _ |- _ => apply matches_lit in H; destruct H as [-> _]
      end; simpl; auto. }
  exists (y ++ [d1; d2]), rest. split; [app_norm |]. split.
  - exists y, d1, d2.
    match goal with
    | H : forallb is_digit [d1; d2] = true |- _ =>
        simpl in H; rewrite andb_true_r in H; apply andb_prop in H; destruct H
    end.
    auto.
  - rewrite E. reflexivity.
Qed.

Lemma re_year_complete (pos : nat) (f b : str) :
  year_tok f -> exists m, match_at re_year pos (f ++ b) = Some m.
Proof.
  intros (y & d1 & d2 & -> & Hy & H1 & H2).
  assert (M : Matches re_year pos (y ++ [d1; d2] ++ []) b
                no_groups (set_group 1 y no_groups)).
  { unfold re_year, seq. cbn [fold_right].
    eapply M_Seq.
    { constructor. simpl in Hy. destruct Hy as [<- | [<- | []]].
      - apply M_AltL. apply lit_matches.
      - apply M_AltR. apply lit_matches. }
    eapply M_Seq; [constructor; simpl; auto; rewrite H1, H2; reflexivity |].
    constructor. }
  apply match_at_complete in M. destruct M as [m M]. exists m.
  rewrite <- M. f_equal; app_norm.
Qed.

Lemma year_search_spec (name : str) :
  match year (get_normalized_title name) with
  | Some y =>
      year_tok y /\
      exists a b, stem name = a ++ y ++ b /\
        forall a' f b', stem name = a' ++ f ++ b' -> year_tok f ->
                        length a <= length a'
  | None => ~ has year_tok (stem name)
  end.
Proof.
  unfold get_normalized_title. cbn [year]. unfold re_search.
  set (s := stem name).
  destruct (search_from re_year 0 s) as [[start m] |] eqn:E.
  - apply search_from_some in E. destruct E as (n & -> & Hn & Hm & Hk).
    simpl in Hm. destruct (@re_year_sound _ _ _ Hm) as (f & rest & Es & Hf & He).
    assert (G : group0 s (0 + n) m = f).
    { unfold group0. simpl. rewrite Es, He.
      replace (n + length f - n) with (length f) by lia.
      rewrite firstn_app, Nat.sub_diag, firstn_all. simpl. apply app_nil_r. }
    rewrite G. split; [exact Hf |].
    exists (firstn n s), rest. split.
    + rewrite <- Es. symmetry. apply firstn_skipn.
    + intros a' f' b' Es' Hf'. rewrite length_firstn, Nat.min_l by exact Hn.
      destruct (le_lt_dec n (length a')) as [L | L]; [exact L | exfalso].
      specialize (Hk (length a') L). simpl in Hk.
      rewrite Es', skipn_app, skipn_all, Nat.sub_diag in Hk. simpl in Hk.
      destruct (@re_year_complete (length a') f' b' Hf') as [m' Hm'].
      congruence.
  - intros (a & f & b & Es & Hf).
    pose proof (@search_from_none re_year s 0 E (length a)) as H.
    rewrite Es, skipn_app, skipn_all, Nat.sub_diag in H. simpl in H.
    destruct (@re_year_complete (length a) f b Hf) as [m' Hm'].
    rewrite H in Hm'; [discriminate |].
    rewrite length_app. lia.
Qed.

(** The year of [get_normalized_title] is the first year token of the
    stem, 19 or 20 and two digits wherever they stand, and there is none
    exactly when the stem holds no such token. *)
Theorem year_is_first_token (name : str) :
  match year (get_normalized_title name) with
  | Some y =>
      year_tok y /\
      exists a b, stem name = a ++ y ++ b /\
        forall a' f b', stem name = a' ++ f ++ b' -> year_tok f ->
                        length a <= length a'
  | None => ~ has year_tok (stem name)
  end.
Proof. apply year_search_spec. Qed.

(** For a name without line feed, the normalized title holds no year
    token and none of the release tags the title is cut at. *)
Theorem normalized_title_cut (name : str) :
  forallb dot name = true ->
  ~ has year_tok (nt name) /\ ~ has (tag_tok title_tags) (nt name).
Proof.
  intros Hname.
  destruct (@truncate_title_clean (stem name) (@stem_no_newline name Hname))
    as (Hy & Ht & _).
  unfold nt, get_normalized_title. cbn [normalized_title].
  split; intros H; [apply Hy | apply Ht];
    apply has_remove_article in H;
    apply has_normalize in H;
    auto using year_tok_no_space, year_tok_lower,
               tag_tok_no_space, tag_tok_lower.
Qed.

Lemma normalized_title_cut_witness :
  forallb dot "The.Matrix.1999.1080p.BluRay.x264" = true /\
  ~ has year_tok (nt "The.Matrix.1999.1080p.BluRay.x264") /\
  ~ has (tag_tok title_tags) (nt "The.Matrix.1999.1080p.BluRay.x264").
Proof.
  split; [reflexivity |].
  apply (normalized_title_cut "The.Matrix.1999.1080p.BluRay.x264"). reflexivity.
Defined.

(** ** Episode parsing: the numbers and the titles *)

Lemma match_re_opt_seq (A : Type) (x rest : regex) (pos : nat) (s : str)
      (g : groups) (k : nat -> str -> groups -> option A) :
  match_re (Seq (Opt x) rest) pos s g k =
  match match_re x pos s g (fun pos' s' g' => match_re rest pos' s' g' k) with
  | Some a => Some a
  | None => match_re rest pos s g k
  end.
Proof. reflexivity. Qed.

Lemma short_number_intro (w : str) :
  forallb is_digit w = true -> 1 <= length w -> within (Some 2) (length w) ->
  short_number (Some w).
Proof. intros Hd Hl Hh. exists w. simpl in Hh. auto. Qed.

Ltac group_fact :=
  solve [ eexists; reflexivity
        | apply short_number_intro; assumption
        | right; apply short_number_intro; assumption
        | left; reflexivity
        | left; assumption
        | intros _; discriminate
        | intros C; exfalso; apply C; assumption
        | intros [| [| [| [| n]]]] Hn; try lia; reflexivity ].

Ltac group_facts :=
  unfold set_group; cbn [Nat.eqb];
  repeat match goal with |- _ /\ _ => split end; group_fact.

(** When the second optional episode is captured, so is the first: the
    engine tries the first one first, and what follows accepts the same
    text either way. *)
Lemma pattern1_more_order (pos : nat) (s : str) (g : groups) (m : match_obj) :
  g 4 = None -> g 5 = None ->
  match_re pattern1_more pos s g accept = Some m ->
  (m_groups m 4 = None \/ short_number (m_groups m 4)) /\
  (m_groups m 5 = None \/ short_number (m_groups m 5)) /\
  (m_groups m 5 <> None -> m_groups m 4 <> None) /\
  (forall n, n < 4 -> m_groups m n = g n).
Proof.
  intros G4 G5 H.
  unfold pattern1_more, seq, digits12 in H. cbn [fold_right] in H.
  rewrite match_re_opt_seq in H.
  match type of H with
  | match ?first with _ => _ end = _ => destruct first as [m' |] eqn:E
  end.
  - injection H as ->.
    apply match_re_sound in E. destruct E as (w & rest & g' & -> & M & K).
    apply match_re_sound in K. destruct K as (w5 & rest5 & g5 & -> & M5 & K).
    injection K as <-. cbn [m_groups].
    inv_matches; group_facts.
  - apply match_re_sound in H. destruct H as (w5 & rest5 & g5 & -> & M5 & K).
    injection K as <-. cbn [m_groups].
    inv_matches;
      lazymatch goal with
      | Hc : one_of _ ?c = true |- _ => exfalso
      | _ => group_facts
      end.
    match goal with
    | Hc : one_of _ ?c = true, Hd : forallb is_digit ?ds = true,
      Hw : forallb dot ?w6 = true, He : [] ++ ?rest = [] \/ _ |- _ =>
        match type of E with
        | match_re ?x4 ?p ?S ?G ?K = None =>
            assert (T : exists a, match_re x4 p S G K = Some a);
            [ replace S with (([c] ++ ds ++ []) ++ (([] ++ w6 ++ [] ++ []) ++ rest))
                by app_norm;
              assert (M : Matches x4 p ([c] ++ ds ++ [])
                            (([] ++ w6 ++ [] ++ []) ++ rest) G (set_group 4 ds G));
              [ eapply M_Seq; [constructor; exact Hc |];
                eapply M_Seq; [constructor; constructor; assumption | constructor]
              | assert (M' : Matches
                               (Seq (Opt (Seq (Chr (one_of "Ee-"))
                                              (Seq (Grp 5 digits12) Eps)))
                                    (Seq (Grp 6 (Rep dot 0 None true))
                                         (Seq Eos Eps)))
                               (p + length ([c] ++ ds ++ []))
                               ([] ++ w6 ++ [] ++ []) rest
                               (set_group 4 ds G)
                               (set_group 6 w6 (set_group 4 ds G)));
                [ eapply M_Seq; [apply M_OptNone |];
                  eapply M_Seq; [constructor; constructor; assumption |];
                  eapply M_Seq; [constructor; exact He | constructor]
                | destruct (match_re_complete M' accept eq_refl) as [a1 E1];
                  exact (match_re_complete M K E1) ] ]
            | destruct T as [a T]; rewrite T in E; discriminate ]
        end
    end.
Qed.

Lemma match_re_seq (A : Type) (r1 r2 : regex) (pos : nat) (s : str)
      (g : groups) (k : nat -> str -> groups -> option A) (a : A) :
  match_re (Seq r1 r2) pos s g k = Some a ->
  exists w rest g', s = w ++ rest /\ Matches r1 pos w rest g g' /\
                    match_re r2 (pos + length w) rest g' k = Some a.
Proof. intros H. cbn [match_re] in H. apply match_re_sound in H. exact H. Qed.

Lemma pattern1_numbers (s : str) (m : match_obj) :
  re_match pattern1 s = Some m ->
  (exists t, m_groups m 1 = Some t) /\
  short_number (m_groups m 2) /\ short_number (m_groups m 3) /\
  (m_groups m 4 = None \/ short_number (m_groups m 4)) /\
  (m_groups m 5 = None \/ short_number (m_groups m 5)) /\
  (m_groups m 5 <> None -> m_groups m 4 <> None).
Proof.
  unfold re_match, match_at, pattern1, seq. cbn [fold_right]. intros H.
  apply match_re_seq in H. destruct H as (w0 & r0 & g0 & -> & M0 & H).
  apply match_re_seq in H. destruct H as (w1 & r1 & g1 & -> & M1 & H).
  apply match_re_seq in H. destruct H as (ws & rs & gs & -> & Ms & H).
  apply match_re_seq in H. destruct H as (wS & rS & gS & -> & MS & H).
  apply match_re_seq in H. destruct H as (w2 & r2 & g2 & -> & M2 & H).
  apply match_re_seq in H. destruct H as (wE & rE & gE & -> & ME & H).
  apply match_re_seq in H. destruct H as (w3 & r3 & g3 & -> & M3 & H).
  unfold digits12 in *. inv_matches.
  apply pattern1_more_order in H; [| reflexivity | reflexivity].
  destruct H as (H4 & H5 & H45 & Hn).
  rewrite (Hn 1), (Hn 2), (Hn 3) by lia.
  unfold set_group at 1 3 4 6 7 8; cbn [Nat.eqb].
  repeat match goal with |- _ /\ _ => split end;
    solve [ eexists; reflexivity
          | apply short_number_intro; assumption
          | assumption ].
Qed.

Lemma pattern2_numbers (s : str) (m : match_obj) :
  re_match pattern2 s = Some m ->
  (exists t, m_groups m 1 = Some t) /\
  short_number (m_groups m 2) /\ short_number (m_groups m 3).
Proof.
  intros H. apply match_at_sound in H. destruct H as (w & rest & _ & M & _).
  unfold pattern2, seq, digits12 in M. cbn [fold_right] in M.
  inv_matches; unfold set_group, no_groups; cbn [Nat.eqb];
    (split; [eexists; reflexivity |]);
    split; apply short_number_intro; assumption.
Qed.

Lemma pattern3_numbers (s : str) (m : match_obj) :
  re_match pattern3 s = Some m ->
  (exists t, m_groups m 1 = Some t) /\
  short_number (m_groups m 2) /\ short_number (m_groups m 3).
Proof.
  intros H. apply match_at_sound in H. destruct H as (w & rest & _ & M & _).
  unfold pattern3, lit_ci, seq, digits12 in M.
  cbn [fold_right map list_ascii_of_string] in M.
  inv_matches; unfold set_group, no_groups; cbn [Nat.eqb];
    (split; [eexists; reflexivity |]);
    split; apply short_number_intro; assumption.
Qed.

Lemma digit_val_range (c : ascii) :
  is_digit c = true -> (0 <= digit_val c <= 9)%Z.
Proof.
  unfold is_digit, in_range, digit_val. intros H.
  apply andb_prop in H. destruct H as [H1 H2].
  apply Nat.leb_le in H1. apply Nat.leb_le in H2. lia.
Qed.

Lemma py_int_short (o : option str) :
  short_number o ->
  exists z, py_int o = Ok z /\ truthy o = true /\ two_digits z.
Proof.
  intros (w & -> & Hd & Hl & Hh). unfold py_int, truthy, two_digits.
  destruct w as [| c1 [| c2 [| c3 w]]]; simpl in Hl, Hh; try lia;
    cbn [nonempty]; rewrite Hd; cbn [andb fold_left];
    simpl in Hd; repeat (apply andb_prop in Hd; destruct Hd as [?H Hd]);
    repeat match goal with
           | H : is_digit _ = true |- _ => apply digit_val_range in H
           end;
    eexists; (split; [reflexivity |]); split; [reflexivity | lia | reflexivity | lia].
Qed.

Ltac shape_done :=
  cbn [season episode episodes show_title is_multi_episode episode_title
       episode_info_init length];
  repeat match goal with |- _ /\ _ => split end;
  first [ reflexivity
        | assumption
        | repeat (apply Forall_cons; [assumption |]); apply Forall_nil
        | simpl; lia
        | left; reflexivity
        | split; [ first [discriminate | intros _; discriminate]
                 | first [ reflexivity
                         | intros C; exfalso; apply C; reflexivity ] ] ].

(** What [get_episode_info] returns: the initial dictionary, or a season,
    an episode that is the first of the list, at most two more, a show
    title, and the flag set exactly when there are more. *)
Lemma get_episode_info_shape (filename : str) :
  exists info, get_episode_info filename = Ok info /\
    (info = episode_info_init \/
     exists s e more g1,
       season info = Some s /\ episode info = Some e /\
       episodes info = e :: more /\
       show_title info = Some (strip (re_sub re_dot [Lit " "] g1)) /\
       two_digits s /\ Forall two_digits (e :: more) /\ length more <= 2 /\
       (is_multi_episode info = true <-> more <> []) /\
       (episode_title info = None \/
        exists r, nonempty (strip r) = true /\
                  episode_title info = Some (strip r))).
Proof.
  unfold get_episode_info.
  destruct (re_match pattern1 (stem filename)) as [m |] eqn:E1.
  - apply pattern1_numbers in E1.
    destruct E1 as ((t1 & ->) & G2 & G3 & G4 & G5 & G45).
    cbn [title_of_group bind].
    destruct (py_int_short G2) as (z2 & -> & _ & R2).
    destruct (py_int_short G3) as (z3 & -> & _ & R3).
    cbn [bind].
    assert (T : episode_title episode_info_init = None \/
                exists r, nonempty (strip r) = true /\
                          episode_title episode_info_init = Some (strip r))
      by (left; reflexivity).
    assert (ET : forall o : option str,
               let et := match o with
                         | Some g6 =>
                             if nonempty g6 then
                               if nonempty (strip (clean_remainder g6))
                               then Some (strip (clean_remainder g6))
                               else episode_title episode_info_init
                             else episode_title episode_info_init
                         | None => episode_title episode_info_init
                         end in
               et = None \/
               exists r, nonempty (strip r) = true /\ et = Some (strip r)).
    { intros [g6 |]; cbn zeta; [| exact T].
      destruct (nonempty g6); [| exact T].
      destruct (nonempty (strip (clean_remainder g6))) eqn:N; [| exact T].
      right. exists (clean_remainder g6). auto. }
    specialize (ET (m_groups m 6)). cbn zeta in ET.
    destruct G4 as [E4 | G4].
    + destruct G5 as [E5 | G5].
      * rewrite E4, E5. cbn [bind truthy fst snd].
        eexists. split; [reflexivity |]. right.
        exists z2, z3, [], t1. shape_done.
      * exfalso. destruct G5 as (w & E5 & _). apply G45; congruence.
    + destruct (py_int_short G4) as (z4 & -> & -> & R4).
      destruct G5 as [E5 | G5].
      * rewrite E5. cbn [bind truthy fst snd app].
        eexists. split; [reflexivity |]. right.
        exists z2, z3, [z4], t1. shape_done.
      * destruct (py_int_short G5) as (z5 & -> & -> & R5).
        cbn [bind truthy fst snd app].
        eexists. split; [reflexivity |]. right.
        exists z2, z3, [z4; z5], t1. shape_done.
  - destruct (re_match pattern2 (stem filename)) as [m |] eqn:E2.
    + apply pattern2_numbers in E2. destruct E2 as ((t1 & ->) & G2 & G3).
      cbn [title_of_group bind].
      destruct (py_int_short G2) as (z2 & -> & _ & R2).
      destruct (py_int_short G3) as (z3 & -> & _ & R3).
      cbn [bind]. eexists. split; [reflexivity |]. right.
      exists z2, z3, [], t1. shape_done.
    + destruct (re_match pattern3 (stem filename)) as [m |] eqn:E3.
      * apply pattern3_numbers in E3. destruct E3 as ((t1 & ->) & G2 & G3).
        cbn [title_of_group bind].
        destruct (py_int_short G2) as (z2 & -> & _ & R2).
        destruct (py_int_short G3) as (z3 & -> & _ & R3).
        cbn [bind]. eexists. split; [reflexivity |]. right.
        exists z2, z3, [], t1. shape_done.
      * eexists. split; [reflexivity |]. left. reflexivity.
Qed.

(** The season and the episodes [get_episode_info] returns are numbers
    from 0 to 99, there are at most three episodes, and [episode] is the
    first of them. *)
Theorem episode_numbers_two_digits (filename : str) :
  exists info, get_episode_info filename = Ok info /\
    (forall s, season info = Some s -> two_digits s) /\
    Forall two_digits (episodes info) /\
    length (episodes info) <= 3 /\
    episode info = hd_error (episodes info).
Proof.
  destruct (get_episode_info_shape filename)
    as (info & E & [-> | (s & e & more & g1 & Hs & He & Hl & _ & Rs & Re & Hm & _)]).
  - eexists. split; [exact E |]. simpl.
    split; [discriminate |]. split; [constructor |]. split; [lia | reflexivity].
  - exists info. split; [exact E |]. rewrite Hs, He, Hl.
    split; [intros s' [= <-]; exact Rs |]. split; [exact Re |].
    split; [simpl; lia | reflexivity].
Qed.

(** [is_multi_episode] is set exactly when the list of episodes holds two
    of them or more. *)
Theorem multi_episode_iff (filename : str) :
  exists info, get_episode_info filename = Ok info /\
    (is_multi_episode info = true <-> 2 <= length (episodes info)).
Proof.
  destruct (get_episode_info_shape filename)
    as (info & E & [-> | (s & e & more & g1 & _ & _ & Hl & _ & _ & _ & _ & Hm & _)]).
  - eexists. split; [exact E |]. simpl. split; [discriminate | lia].
  - exists info. split; [exact E |]. rewrite Hl, Hm. simpl.
    destruct more; simpl; split; intros H; try lia; try discriminate.
    contradiction.
Qed.

Lemma sub_dot_no_dot (w : str) :
  forallb not_dot (re_sub re_dot [Lit " "] w) = true.
Proof.
  unfold re_sub, re_dot. rewrite sub_chr_space, forallb_map.
  apply forallb_forall. intros c _. unfold not_dot.
  destruct (Ascii.eqb_spec "."%char c) as [<- | N]; [reflexivity |].
  apply negb_true_iff, Ascii.eqb_neq. congruence.
Qed.

(** The show title is set exactly when the season is; it holds no dot
    and no blank at either end.  The episode title, when set, is not
    empty and has no blank at either end. *)
Theorem episode_titles_clean (filename : str) :
  exists info, get_episode_info filename = Ok info /\
    (show_title info = None <-> season info = None) /\
    (forall t, show_title info = Some t ->
               forallb not_dot t = true /\
               stripped t = true) /\
    (forall t, episode_title info = Some t -> t <> [] /\ stripped t = true).
Proof.
  destruct (get_episode_info_shape filename)
    as (info & E & [-> | (s & e & more & g1 & Hs & _ & _ & Ht & _ & _ & _ & _ & Het)]).
  - eexists. split; [exact E |]. simpl.
    split; [split; reflexivity |]. split; discriminate.
  - exists info. split; [exact E |]. rewrite Hs, Ht.
    split; [split; discriminate |]. split.
    + intros t [= <-]. split; [| apply stripped_strip].
      apply forallb_strip, sub_dot_no_dot.
    + intros t Ht'. destruct Het as [C | (r & Hr & C)]; [congruence |].
      rewrite C in Ht'. injection Ht' as <-.
      split; [| apply stripped_strip].
      intros C'. rewrite C' in Hr. discriminate.
Qed.

(** ** Season folders *)

Lemma format_02d_two_digits (s : Z) :
  two_digits s ->
  exists d1 d2, format_02d s = [d1; d2] /\ is_digit d1 = true /\
                is_digit d2 = true /\ py_int (Some [d1; d2]) = Ok s.
Proof.
  intros R. unfold two_digits in R.
  pose (check := fun n : nat =>
          match format_02d (Z.of_nat n) with
          | [d1; d2] =>
              is_digit d1 && is_digit d2 &&
              match py_int (Some [d1; d2]) with
              | Ok z => (z =? Z.of_nat n)%Z
              | Raise _ => false
              end
          | _ => false
          end).
  assert (C : forallb check (List.seq 0 100) = true) by (vm_compute; reflexivity).
  rewrite forallb_forall in C.
  specialize (C (Z.to_nat s)).
  rewrite in_seq in C. specialize (C ltac:(lia)).
  unfold check in C. rewrite Z2Nat.id in C by lia.
  destruct (format_02d s) as [| d1 [| d2 [| d3 l]]]; try discriminate.
  apply andb_prop in C. destruct C as [C C3].
  apply andb_prop in C. destruct C as [C1 C2].
  exists d1, d2. repeat split; try assumption.
  destruct (py_int (Some [d1; d2])) as [z | e]; [| discriminate].
  apply Z.eqb_eq in C3. congruence.
Qed.

(** The folder an episode goes to is named "Season " and exactly two
    digits, which read back as the season found in the file name; the file
    stays where it is when no season is found, and when its folder already
    has that name. *)
Theorem season_target_folder (file_name parent_name : str) :
  exists info, get_episode_info file_name = Ok info /\
    match season info with
    | None => season_target file_name parent_name = Ok None
    | Some s =>
        exists d1 d2,
          is_digit d1 = true /\ is_digit d2 = true /\
          py_int (Some [d1; d2]) = Ok s /\
          season_target file_name parent_name =
          Ok (if str_eqb parent_name ("Season " ++ [d1; d2]) then None
              else Some ("Season " ++ [d1; d2]))
    end.
Proof.
  unfold season_target.
  destruct (get_episode_info_shape file_name)
    as (info & E & [-> | (s & e & more & g1 & Hs & _ & _ & _ & Rs & _)]).
  - eexists. split; [exact E |]. rewrite E. reflexivity.
  - exists info. split; [exact E |]. rewrite E. cbn [bind]. rewrite Hs.
    destruct (format_02d_two_digits Rs) as (d1 & d2 & F & D1 & D2 & P).
    exists d1, d2. repeat split; try assumption.
    unfold season_folder_name. rewrite F.
    destruct (str_eqb parent_name ("Season " ++ [d1; d2])); reflexivity.
Qed.

(** ** Subtitles *)

(** A search passes over a prefix at no index of which the pattern can
    start. *)
Lemma search_from_skip (r : regex) (p : ascii -> bool) (base t : str) :
  (forall pos c rest, p c = true -> match_at r pos (c :: rest) = None) ->
  forallb p base = true ->
  forall pos, search_from r pos (base ++ t) = search_from r (pos + length base) t.
Proof.
  intros Hr. induction base as [| c base IH]; intros Hb pos.
  - simpl. rewrite Nat.add_0_r. reflexivity.
  - simpl in Hb. apply andb_prop in Hb. destruct Hb as [Hc Hb].
    cbn [app search_from]. rewrite (Hr pos c (base ++ t) Hc).
    rewrite (IH Hb). f_equal. simpl. lia.
Qed.

Lemma lower_char_dot (c : ascii) :
  Ascii.eqb (lower_char c) "." = Ascii.eqb c ".".
Proof. all_chars c. Qed.

Lemma re_language_tag_start (pos : nat) (c : ascii) (rest : str) :
  not_dot c = true -> match_at re_language_tag pos (c :: rest) = None.
Proof.
  intros Hc. destruct (match_at re_language_tag pos (c :: rest)) as [m |] eqn:E;
    [exfalso | reflexivity].
  apply match_at_sound in E. destruct E as (w & rest' & Es & M & _).
  unfold re_language_tag, seq in M. cbn [fold_right] in M.
  inversion M as [| | | r1 r2 p0 w1 w2 rest0 g0 g1 g2 M1 M2 | | | | | | |]; subst.
  inversion M1; subst. injection Es as Ec _.
  match goal with
  | H : Ascii.eqb "." _ = true |- _ => apply Ascii.eqb_eq in H; rewrite <- H in Ec
  end.
  rewrite Ec in Hc. discriminate.
Qed.

Lemma re_language_start (lang : str) (pos : nat) (c : ascii) (rest : str) :
  not_dot_underscore c = true ->
  match_at (re_language lang) pos (c :: rest) = None.
Proof.
  intros Hc.
  destruct (match_at (re_language lang) pos (c :: rest)) as [m |] eqn:E;
    [exfalso | reflexivity].
  apply match_at_sound in E. destruct E as (w & rest' & Es & M & _).
  unfold re_language, seq in M. cbn [fold_right alts] in M.
  unfold not_dot_underscore in Hc. apply negb_true_iff in Hc.
  assert (F : forall w2 x, c :: rest = ([x] ++ w2) ++ rest' ->
                           one_of "._" x = true -> False).
  { intros w2 x Ex Hx. injection Ex as Ec _. rewrite Ec in Hc. congruence. }
  repeat match goal with
  | H : Matches (Alt _ _) _ _ _ _ _ |- _ => inversion H; subst; clear H
  end;
    match goal with
    | H : Matches (Seq (Chr _) _) _ _ _ _ _ |- _ =>
        inversion H as [| | | r1 r2 p0 w1 w2 rest0 g0 g1 g2 M1 M2 | | | | | | |];
        subst; inversion M1; subst
    end;
    match goal with
    | H : Ascii.eqb _ ?x = true |- _ =>
        apply (F _ x Es); apply Ascii.eqb_eq in H; subst x; reflexivity
    end.
Qed.

Lemma forallb_lower_not_dot (s : str) :
  forallb not_dot (lower s) = forallb not_dot s.
Proof.
  unfold lower. rewrite forallb_map. apply forallb_ext. intros c.
  unfold not_dot. rewrite lower_char_dot. reflexivity.
Qed.

(** A subtitle whose stem holds no dot carries no language tag, and is
    kept when subtitles are. *)
Theorem untagged_subtitle_kept (preferred : list str) (sub : str) :
  forallb not_dot (stem sub) = true ->
  keeps_subtitle true preferred sub = true.
Proof.
  intros H. unfold keeps_subtitle, is_preferred_subtitle. cbn [andb].
  rewrite <- forallb_lower_not_dot in H.
  unfold re_search.
  rewrite <- (app_nil_r (lower (stem sub))).
  rewrite (search_from_skip re_language_tag not_dot (lower (stem sub)) []
             re_language_tag_start H).
  reflexivity.
Qed.

Lemma untagged_subtitle_kept_witness :
  forallb not_dot (stem "/tv/Show/Show S01E01.srt") = true /\
  keeps_subtitle true preferred_subtitle_languages "/tv/Show/Show S01E01.srt"
  = true.
Proof.
  split; [reflexivity |].
  apply (@untagged_subtitle_kept preferred_subtitle_languages
           "/tv/Show/Show S01E01.srt").
  reflexivity.
Defined.

Lemma re_language_end (lang : str) (pos : nat) :
  exists m, match_at (re_language lang) pos ("." ++ lang) = Some m.
Proof.
  assert (M : Matches (re_language lang) pos (["."%char] ++ lang ++ [] ++ []) []
                no_groups no_groups).
  { unfold re_language, seq. cbn [fold_right alts]. apply M_AltL.
    eapply M_Seq; [constructor; reflexivity |].
    eapply M_Seq; [apply lit_matches |].
    eapply M_Seq; [constructor; left; reflexivity | constructor]. }
  apply match_at_complete in M. destruct M as [m M]. exists m.
  rewrite <- M. f_equal; app_norm.
Qed.

(** With preferred languages made of letters, a subtitle whose stem ends
    with a dot and one of them, whatever the case of its letters, is kept
    when subtitles are. *)
Theorem preferred_subtitle_kept (preferred : list str) (sub base l : str) :
  forallb (forallb is_letter) preferred = true ->
  In (lower l) preferred ->
  stem sub = base ++ "." ++ l ->
  keeps_subtitle true preferred sub = true.
Proof.
  intros _ Hin Es. unfold keeps_subtitle, is_preferred_subtitle. cbn [andb].
  destruct (negb (found (re_search re_language_tag (lower (stem sub)))));
    [reflexivity |].
  apply existsb_exists. exists (lower l). split; [exact Hin |].
  rewrite Es. unfold lower at 2. rewrite !map_app. fold (lower base) (lower l).
  destruct (re_language_end (lower l) (0 + length (lower base))) as [m Hm].
  unfold re_search.
  destruct (@search_from_found (re_language (lower l)) (lower base ++ map lower_char "." ++ lower l)
              0 (length (lower base)) m) as [x Hx].
  - rewrite length_app. lia.
  - rewrite skipn_app, skipn_all, Nat.sub_diag. exact Hm.
  - rewrite Hx. reflexivity.
Qed.

Lemma preferred_subtitle_kept_witness :
  (forallb (forallb is_letter) preferred_subtitle_languages = true /\
   In (lower "ENG") preferred_subtitle_languages /\
   stem "/tv/Show/Show.S01E01.ENG.srt" = "Show.S01E01" ++ "." ++ "ENG") /\
  keeps_subtitle true preferred_subtitle_languages
                 "/tv/Show/Show.S01E01.ENG.srt" = true.
Proof.
  assert (Hl : forallb (forallb is_letter) preferred_subtitle_languages = true)
    by reflexivity.
  assert (Hin : In (lower "ENG") preferred_subtitle_languages)
    by (left; reflexivity).
  assert (Es : stem "/tv/Show/Show.S01E01.ENG.srt" = "Show.S01E01" ++ "." ++ "ENG")
    by reflexivity.
  split; [repeat split; assumption |].
  exact (@preferred_subtitle_kept preferred_subtitle_languages
           "/tv/Show/Show.S01E01.ENG.srt" "Show.S01E01" "ENG" Hl Hin Es).
Defined.

(** A subtitle whose stem is a text without dot or underscore, a dot and
    one of the other languages of the tag list is not kept. *)
Theorem foreign_subtitle_not_kept (keep : bool) (sub base tag : str) :
  forallb not_dot_underscore base = true ->
  In tag foreign_tags ->
  lower (stem sub) = base ++ "." ++ tag ->
  keeps_subtitle keep preferred_subtitle_languages sub = false.
Proof.
  intros Hb Hin Es. unfold keeps_subtitle, is_preferred_subtitle.
  rewrite Es. unfold re_search.
  assert (Hb' : forallb not_dot base = true).
  { rewrite forallb_forall in *. intros c Hc. specialize (Hb c Hc).
    revert Hb. unfold not_dot_underscore, not_dot, one_of. simpl.
    destruct (Ascii.eqb c "."); [discriminate | reflexivity]. }
  rewrite (search_from_skip re_language_tag not_dot base ("." ++ tag)
             re_language_tag_start Hb').
  unfold preferred_subtitle_languages, strs. cbn [map existsb].
  rewrite !(fun lang =>
              search_from_skip (re_language lang) not_dot_underscore base
                ("." ++ tag) (re_language_start lang) Hb).
  generalize (0 + length base). intros pos.
  apply andb_false_iff. right.
  unfold foreign_tags, strs in Hin. cbn [map] in Hin.
  repeat (destruct Hin as [<- | Hin]; [vm_compute; reflexivity |]).
  contradiction.
Qed.

Lemma foreign_subtitle_not_kept_witness :
  (forallb not_dot_underscore "show s01e01" = true /\
   In (list_ascii_of_string "spa") foreign_tags /\
   lower (stem "/tv/Show/Show S01E01.spa.srt") = "show s01e01" ++ "." ++ "spa") /\
  keeps_subtitle true preferred_subtitle_languages
                 "/tv/Show/Show S01E01.spa.srt" = false.
Proof.
  assert (Hb : forallb not_dot_underscore "show s01e01" = true) by reflexivity.
  assert (Hin : In (list_ascii_of_string "spa") foreign_tags)
    by (left; reflexivity).
  assert (Es : lower (stem "/tv/Show/Show S01E01.spa.srt")
               = "show s01e01" ++ "." ++ "spa") by reflexivity.
  split; [repeat split; assumption |].
  exact (@foreign_subtitle_not_kept true "/tv/Show/Show S01E01.spa.srt"
           "show s01e01" "spa" Hb Hin Es).
Defined.

(** ** Unnecessary files *)

Lemma contains_char (c : ascii) (s : str) :
  contains [c] s = existsb (Ascii.eqb c) s.
Proof.
  induction s as [| x s IH]; [reflexivity |].
  cbn [contains starts_with existsb]. rewrite IH.
  destruct s; rewrite andb_true_r; reflexivity.
Qed.

Lemma glob_regex_plain (t tail : str) :
  forallb glob_plain t = true ->
  glob_regex (t ++ tail) =
  fold_right (fun c r => Seq (Chr (Ascii.eqb c)) r) (glob_regex tail) t.
Proof.
  induction t as [| c t IH]; intros H; [reflexivity |].
  simpl in H. apply andb_prop in H. destruct H as [Hc Ht].
  cbn [app glob_regex fold_right]. rewrite (IH Ht).
  unfold glob_plain, one_of in Hc. simpl in Hc.
  destruct (Ascii.eqb c "*"); [discriminate |].
  destruct (Ascii.eqb c "?"); [discriminate |]. reflexivity.
Qed.

Lemma matches_plain (R : regex) (t : str) : forall pos w rest g g',
  Matches (fold_right (fun c r => Seq (Chr (Ascii.eqb c)) r) R t) pos w rest g g' ->
  exists w', w = t ++ w'.
Proof.
  induction t as [| c t IH]; intros pos w rest g g' M; cbn [fold_right] in M.
  - exists w. reflexivity.
  - inversion M as [| | | r1 r2 p0 w1 w2 rest0 g0 g1 g2 M1 M2 | | | | | | |]; subst.
    inversion M1; subst.
    match goal with
    | H : Ascii.eqb _ _ = true |- _ => apply Ascii.eqb_eq in H; subst
    end.
    apply IH in M2. destruct M2 as [w' ->]. exists w'. reflexivity.
Qed.

Lemma plain_matches (R : regex) (t : str) : forall pos w' rest g g',
  (forall pos', Matches R pos' w' rest g g') ->
  Matches (fold_right (fun c r => Seq (Chr (Ascii.eqb c)) r) R t) pos
          (t ++ w') rest g g'.
Proof.
  induction t as [| c t IH]; intros pos w' rest g g' M; cbn [fold_right].
  - apply M.
  - change ((c :: t) ++ w') with ([c] ++ t ++ w'). eapply M_Seq.
    + constructor. apply Ascii.eqb_refl.
    + apply IH. exact M.
Qed.

Lemma forallb_any_char (w : str) : forallb any_char w = true.
Proof. induction w; [reflexivity | exact IHw]. Qed.

Lemma full_match_iff (r : regex) (s : str) :
  full_match r s = true <-> exists g', Matches r 0 s [] no_groups g'.
Proof.
  unfold full_match. split.
  - destruct (match_re r 0 s no_groups at_end) as [x |] eqn:E; [| discriminate].
    intros _. apply match_re_sound in E.
    destruct E as (w & rest & g' & -> & M & K).
    unfold at_end in K. destruct rest; [| discriminate].
    exists g'. rewrite app_nil_r. exact M.
  - intros (g' & M).
    destruct (match_re_complete M at_end (a := tt) eq_refl) as [a E].
    rewrite app_nil_r in E. rewrite E. reflexivity.
Qed.

(** A pattern made of a text between two stars matches the names that
    hold the text. *)
Lemma fnmatch_star (t name : str) :
  forallb glob_plain t = true ->
  fnmatch name ("*" ++ t ++ "*") = Some (contains t name).
Proof.
  intros Ht. unfold fnmatch.
  assert (B : contains "[" ("*" ++ t ++ "*") = false).
  { change (list_ascii_of_string "[") with ["["%char].
    rewrite contains_char. cbn [app list_ascii_of_string existsb].
    rewrite existsb_app. cbn [existsb Ascii.eqb orb]. simpl.
    rewrite orb_false_r. apply not_true_is_false. intros C.
    apply existsb_exists in C. destruct C as (c & Hin & Hc).
    apply Ascii.eqb_eq in Hc. subst c.
    rewrite forallb_forall in Ht. specialize (Ht _ Hin). discriminate. }
  rewrite B. f_equal. apply eq_true_iff_eq.
  rewrite full_match_iff, contains_iff.
  change (list_ascii_of_string "*" ++ t ++ list_ascii_of_string "*")
    with ("*"%char :: (t ++ ["*"%char])).
  cbn [glob_regex Ascii.eqb]. simpl (Ascii.eqb "*" "*").
  cbv iota. rewrite (glob_regex_plain t ["*"%char] Ht).
  split.
  - intros (g' & M).
    inversion M as [| | | r1 r2 p0 a w2 rest0 g0 g1 g2 M1 M2 | | | | | | |]; subst.
    apply matches_plain in M2. destruct M2 as [b ->]. exists a, b. reflexivity.
  - intros (a & b & ->). exists no_groups.
    eapply M_Seq.
    + constructor; [apply forallb_any_char | lia | exact I].
    + apply plain_matches. intros pos'. cbn [glob_regex Ascii.eqb].
      simpl (Ascii.eqb "*" "*"). cbv iota.
      rewrite <- (app_nil_r b) at 1. eapply M_Seq.
      * constructor; [apply forallb_any_char | lia | exact I].
      * constructor.
Qed.

(** With the patterns of the configuration, a name is unnecessary
    exactly when, in lower case, it holds "sample", "proof" or
    "screens". *)
Theorem unnecessary_iff_holds_word (name : str) :
  matches_pattern name unnecessary_patterns =
  Some (any_in (strs ["sample"; "proof"; "screens"]) (lower name)).
Proof.
  unfold unnecessary_patterns, strs, any_in. cbn [map matches_pattern existsb].
  assert (L : forall T : string,
             forallb glob_plain T = true ->
             forallb glob_plain (lower T) = true ->
             fnmatch name ("*" ++ T ++ "*") = Some (contains T name) /\
             fnmatch (lower name) (lower ("*" ++ T ++ "*"))
             = Some (contains (lower T) (lower name)) /\
             (contains T name = true -> contains (lower T) (lower name) = true)).
  { intros T H1 H2. split; [apply fnmatch_star; exact H1 |].
    split; [| apply contains_lower].
    unfold lower at 2. rewrite !map_app. apply (fnmatch_star _ _ H2). }
  destruct (L "Sample" eq_refl eq_refl) as (A1 & A2 & A3).
  destruct (L "Proof" eq_refl eq_refl) as (B1 & B2 & B3).
  destruct (L "Screens" eq_refl eq_refl) as (C1 & C2 & C3).
  change (list_ascii_of_string "*Sample*") with ("*" ++ "Sample" ++ "*").
  change (list_ascii_of_string "*Proof*") with ("*" ++ "Proof" ++ "*").
  change (list_ascii_of_string "*Screens*") with ("*" ++ "Screens" ++ "*").
  rewrite A1, A2, B1, B2, C1, C2.
  change (lower "Sample") with (list_ascii_of_string "sample") in *.
  change (lower "Proof") with (list_ascii_of_string "proof") in *.
  change (lower "Screens") with (list_ascii_of_string "screens") in *.
  destruct (contains "Sample" name);
    [rewrite A3 by reflexivity; reflexivity |].
  destruct (contains "sample" (lower name)); [reflexivity |].
  destruct (contains "Proof" name);
    [rewrite B3 by reflexivity; reflexivity |].
  destruct (contains "proof" (lower name)); [reflexivity |].
  destruct (contains "Screens" name);
    [rewrite C3 by reflexivity; reflexivity |].
  destruct (contains "screens" (lower name)); reflexivity.
Qed.

(** ** The title of an NFO file *)

(** The title taken from the folder name holds no dot and no blank at
    either end. *)
Theorem nfo_title_clean (folder_name : str) :
  forallb not_dot (nfo_title_of_folder folder_name) = true /\
  stripped (nfo_title_of_folder folder_name) = true.
Proof.
  unfold nfo_title_of_folder. split; [| apply stripped_strip].
  apply forallb_strip, sub_dot_no_dot.
Qed.

Lemma nfo_year_to_end (y : str) (pos : nat) (s : str) (m : match_obj) :
  forallb dot s = true -> match_at (re_nfo_year y) pos s = Some m ->
  m_end m = pos + length s.
Proof.
  intros Hs H. apply match_at_sound in H. destruct H as (w & rest & -> & M & E).
  rewrite E. f_equal. rewrite length_app.
  apply forallb_dot_app in Hs. destruct Hs as [_ Hr].
  unfold re_nfo_year, seq in M. cbn [fold_right] in M.
  inv_matches.
  match goal with
  | H : _ = [] \/ _ = [newline] |- _ =>
      simpl in H; rewrite (eos_no_newline Hr H)
  end.
  simpl. lia.
Qed.

Lemma nfo_year_complete (y : str) (pos : nat) (f b : str) :
  f = y -> forallb dot b = true ->
  exists m, match_at (re_nfo_year y) pos (f ++ b) = Some m.
Proof.
  intros -> Hb.
  assert (M : Matches (re_nfo_year y) pos ([] ++ [] ++ y ++ [] ++ b ++ [] ++ []) []
                no_groups no_groups).
  { unfold re_nfo_year, seq. cbn [fold_right].
    eapply M_Seq; [constructor; simpl; auto; lia |].
    eapply M_Seq; [constructor; simpl; auto; lia |].
    eapply M_Seq; [apply lit_matches |].
    eapply M_Seq; [constructor; simpl; auto; lia |].
    eapply M_Seq; [constructor; simpl; auto; lia |].
    eapply M_Seq; [constructor; auto | constructor]. }
  apply match_at_complete in M. destruct M as [m M]. exists m.
  rewrite <- M. f_equal; app_norm.
Qed.

Lemma digit_not_dot_to_space (c : ascii) :
  is_digit (if Ascii.eqb "." c then " "%char else c) = true ->
  (if Ascii.eqb "." c then " "%char else c) = c.
Proof.
  destruct (Ascii.eqb "." c); [discriminate | reflexivity].
Qed.

(** For a folder name without line feed in which a year is found, the
    title taken from the folder name does not hold that year. *)
Theorem nfo_title_without_year (folder_name y : str) :
  forallb dot folder_name = true ->
  year (get_normalized_title folder_name) = Some y ->
  contains y (nfo_title_of_folder folder_name) = false.
Proof.
  intros Hdot Hy.
  pose proof (year_search_spec folder_name) as Y. rewrite Hy in Y.
  destruct Y as [Tok _].
  assert (Ny : y <> []) by (apply year_tok_nonempty; exact Tok).
  unfold nfo_title_of_folder. rewrite Hy.
  destruct y as [| y0 y']; [contradiction |]. cbn [nonempty].
  set (y := y0 :: y') in *.
  apply not_true_is_false. intros C. apply contains_iff in C.
  assert (H : has (eq y)
                (strip (re_sub re_dot [Lit " "]
                          (re_sub (re_nfo_year y) [] folder_name)))).
  { destruct C as (a & b & E). exists a, y, b. auto. }
  apply has_strip in H.
  unfold re_sub at 1, re_dot in H. rewrite sub_chr_space in H.
  destruct H as (a & f & b & E & <-).
  apply map_eq_app in E. destruct E as (a' & r & E & _ & E').
  apply map_eq_app in E'. destruct E' as (f' & b' & -> & Ef & _).
  assert (F : f' = y).
  { rewrite <- Ef. symmetry.
    apply (map_fixed (fun c => if Ascii.eqb "." c then " "%char else c)
                     is_digit f' digit_not_dot_to_space).
    rewrite Ef. apply year_tok_digits. exact Tok. }
  subst f'. unfold re_sub in E.
  rewrite (sub_cut (re_nfo_year y) (@nfo_year_to_end y) folder_name 0 Hdot) in E.
  apply (@cut_at_clean (re_nfo_year y) (eq y)
           (fun pos f0 b0 H => @nfo_year_complete y pos f0 b0 (eq_sym H))
           (fun f0 H => eq_ind y (fun x => x <> []) Ny f0 H)
           folder_name 0 Hdot).
  exists a', y, b'. auto.
Qed.

Lemma nfo_title_without_year_witness :
  (forallb dot "The.Matrix.1999.1080p" = true /\
   year (get_normalized_title "The.Matrix.1999.1080p")
   = Some (list_ascii_of_string "1999")) /\
  contains "1999" (nfo_title_of_folder "The.Matrix.1999.1080p") = false.
Proof.
  assert (Hd : forallb dot "The.Matrix.1999.1080p" = true) by reflexivity.
  assert (Hy : year (get_normalized_title "The.Matrix.1999.1080p")
               = Some (list_ascii_of_string "1999")) by reflexivity.
  split; [split; assumption |].
  exact (@nfo_title_without_year "The.Matrix.1999.1080p" "1999" Hd Hy).
Defined.

(** ** Folder name cleaning: the new name *)

Lemma remove_tag_part (new_name tag : str) :
  (exists a b, new_name = a ++ remove_tag new_name tag ++ b) /\
  (new_name <> [] -> remove_tag new_name tag <> []).
Proof.
  unfold remove_tag.
  assert (Same : (exists a b, new_name = a ++ new_name ++ b) /\
                 (new_name <> [] -> new_name <> [])).
  { split; [| auto]. exists [], []. rewrite app_nil_r. reflexivity. }
  destruct (contains (lower tag) (lower new_name)); [| exact Same].
  destruct (nonempty (strip_punct (split_first (lit_ci tag) new_name))) eqn:N;
    [| exact Same].
  split.
  - assert (P : exists rest, new_name = split_first (lit_ci tag) new_name ++ rest).
    { unfold split_first.
      destruct (re_search (lit_ci tag) new_name) as [[start m] |].
      - exists (skipn start new_name). symmetry. apply firstn_skipn.
      - exists []. rewrite app_nil_r. reflexivity. }
    destruct P as [rest P].
    destruct (strip_by_factor (one_of " .-") (split_first (lit_ci tag) new_name))
      as (pre & post & F).
    exists pre, (post ++ rest). rewrite P at 1. rewrite F at 1.
    unfold strip_punct. app_norm.
  - intros _ E. rewrite E in N. discriminate.
Qed.

(** Whatever the tags, what the loop over the tags leaves of a folder
    name is a part of it in one piece, and is empty only if the folder
    name is. *)
Theorem tag_loop_keeps_part (tags : list str) (folder_name : str) :
  (exists a b, folder_name = a ++ fold_left remove_tag tags folder_name ++ b) /\
  (folder_name <> [] -> fold_left remove_tag tags folder_name <> []).
Proof.
  revert folder_name. induction tags as [| tag tags IH]; intros name.
  - simpl. split; [| auto]. exists [], []. rewrite app_nil_r. reflexivity.
  - cbn [fold_left].
    destruct (remove_tag_part name tag) as [(a & b & E) N].
    destruct (IH (remove_tag name tag)) as [(a' & b' & E') N'].
    split; [| auto].
    exists (a ++ a'), (b' ++ b). rewrite E at 1. rewrite E' at 1. app_norm.
Qed.

Lemma sub_from_chars (r : regex) (repl : list repl_item) (P : ascii -> bool) :
  (forall pos s m, match_at r pos s = Some m -> forallb P s = true ->
                   forallb P (expand repl (m_groups m)) = true) ->
  forall s pos skip,
    forallb P s = true -> forallb P (sub_from r repl pos s skip) = true.
Proof.
  intros Hr. induction s as [| c s IH]; intros pos skip H.
  - destruct skip; simpl; [| reflexivity].
    destruct (match_at r pos []) as [m |] eqn:E; [| reflexivity].
    rewrite app_nil_r. apply (Hr pos [] m E). reflexivity.
  - pose proof H as Hcs.
    simpl in H. apply andb_prop in H. destruct H as [Hc Hs].
    destruct skip as [| n]; [| simpl; apply IH; exact Hs].
    simpl. destruct (match_at r pos (c :: s)) as [m |] eqn:E.
    + rewrite forallb_app, (Hr pos (c :: s) m E Hcs). simpl.
      destruct (m_end m - pos); [simpl; rewrite Hc |]; apply IH; exact Hs.
    + simpl. rewrite Hc. apply IH. exact Hs.
Qed.

Lemma forallb_squeeze (P : ascii -> bool) (v : str) :
  P " "%char = true -> forallb P v = true -> forallb P (squeeze v) = true.
Proof.
  intros Hsp. induction v as [| c v IH]; simpl; [auto |].
  intros H. apply andb_prop in H. destruct H as [Hc Hv].
  destruct (is_space c).
  - destruct (starts_in is_space v); simpl; [| rewrite Hsp]; auto.
  - simpl. rewrite Hc. auto.
Qed.

Lemma trailing_year_expand (pos : nat) (s : str) (m : match_obj) :
  match_at re_trailing_year pos s = Some m -> forallb not_dot s = true ->
  forallb not_dot (expand [Lit " ("; Ref 1; Lit ")"] (m_groups m)) = true.
Proof.
  intros H Hs. apply match_at_sound in H.
  destruct H as (w & rest & -> & M & _).
  apply forallb_prefix in Hs.
  unfold re_trailing_year, seq in M. cbn [fold_right] in M.
  inv_matches; unfold expand, set_group; cbn [flat_map Nat.eqb];
    rewrite !forallb_app in *; simpl in *;
    repeat match goal with
           | H : _ && _ = true |- _ => apply andb_prop in H; destruct H
           end;
    repeat (apply andb_true_intro; split); auto.
Qed.

(** The new name [clean_folder_names] computes never holds a dot. *)
Theorem clean_name_no_dot (tags : list str) (folder_name : str) :
  forallb not_dot (clean_name tags folder_name) = true.
Proof.
  unfold clean_name.
  set (n1 := fold_left remove_tag tags folder_name).
  assert (H2 : forallb not_dot
                 (if contains "." n1
                  then strip (re_sub re_spaces [Lit " "]
                                (re_sub re_dot [Lit " "] n1))
                  else n1) = true).
  { destruct (contains "." n1) eqn:C.
    - apply forallb_strip. unfold re_sub at 1. rewrite sub_spaces_squeeze.
      apply forallb_squeeze; [reflexivity | apply sub_dot_no_dot].
    - change (list_ascii_of_string ".") with ["."%char] in C.
      rewrite contains_char in C.
      apply forallb_forall. intros c Hin. unfold not_dot.
      apply negb_true_iff. apply not_true_is_false. intros E.
      apply Ascii.eqb_eq in E. subst c.
      assert (T : existsb (Ascii.eqb ".") n1 = true).
      { apply existsb_exists. exists "."%char. split; [exact Hin | reflexivity]. }
      congruence. }
  set (n2 := if contains "." n1 then _ else n1) in *.
  destruct (re_search re_trailing_year_search n2); [| exact H2].
  apply (sub_from_chars re_trailing_year [Lit " ("; Ref 1; Lit ")"] not_dot
           trailing_year_expand). exact H2.
Qed.

Lemma sub_from_prefix (r : regex) (repl : list repl_item) (base t : str) :
  forall pos,
    (forall k, k < length base ->
               match_at r (pos + k) (skipn k (base ++ t)) = None) ->
    sub_from r repl pos (base ++ t) 0 =
    base ++ sub_from r repl (pos + length base) t 0.
Proof.
  induction base as [| c base IH]; intros pos H.
  - simpl. rewrite Nat.add_0_r. reflexivity.
  - pose proof (H 0 ltac:(simpl; lia)) as H0. rewrite Nat.add_0_r in H0.
    simpl skipn in H0. cbn [app]. rewrite (@sub_from_none r repl pos c (base ++ t) H0).
    rewrite IH.
    + replace (pos + length (c :: base)) with (S pos + length base)
        by (simpl; lia).
      reflexivity.
    + intros k Hk. specialize (H (S k) ltac:(simpl; lia)).
      simpl skipn in H. replace (S pos + k) with (pos + S k) by lia. exact H.
Qed.

Lemma no_tag_loop (tags : list str) (name : str) :
  any_in (map lower tags) (lower name) = false ->
  fold_left remove_tag tags name = name.
Proof.
  induction tags as [| tag tags IH]; [reflexivity |].
  unfold any_in. cbn [map existsb]. intros H.
  apply orb_false_iff in H. destruct H as [H1 H2].
  cbn [fold_left]. unfold remove_tag at 2. rewrite H1. apply IH. exact H2.
Qed.

Lemma year_not_newline_end (base y w : str) (k : nat) :
  year_tok y -> skipn k (base ++ " " ++ y) = w ++ [newline] -> False.
Proof.
  intros (y0 & d1 & d2 & -> & _ & _ & H2) E.
  assert (R : rev (base ++ " " ++ y0 ++ [d1; d2]) =
              rev (firstn k (base ++ " " ++ y0 ++ [d1; d2]) ++ w ++ [newline])).
  { rewrite <- E, firstn_skipn. reflexivity. }
  rewrite !rev_app_distr in R. simpl in R. injection R as -> _.
  discriminate.
Qed.

Lemma trailing_year_match (pos : nat) (s : str) (m : match_obj) :
  match_at re_trailing_year pos s = Some m ->
  exists c y rest, s = (c :: y) ++ rest /\ length y = 4 /\
                   (rest = [] \/ rest = [newline]) /\
                   m_end m = pos + 5 /\ m_groups m 1 = Some y.
Proof.
  intros H. apply match_at_sound in H. destruct H as (w & rest & -> & M & E).
  unfold re_trailing_year, seq in M. cbn [fold_right] in M.
  inversion M as [| | | r1_1 r2_1 p0_1 w1 w2 rest0_1 g0_1 g1_1 g2_1 M1 M2 | | | | | | |]; subst; clear M.
  inversion M1; subst; clear M1.
  inversion M2 as [| | | r1_2 r2_2 p0_2 w3 w4 rest0_2 g0_2 g1_2 g2_2 M3 M4 | | | | | | |]; subst; clear M2.
  inversion M4 as [| | | r1_3 r2_3 p0_3 w5 w6 rest0_3 g0_3 g1_3 g2_3 M5 M6 | | | | | | |]; subst; clear M4.
  inversion M5 as [| | | | | | | | | | p0_4 rest0_4 g0_4 Hrest]; subst; clear M5.
  inversion M6; subst; clear M6.
  inversion M3 as [| | | | | | | | n0_5 r0_5 p0_5 w0_5 rest0_5 g0_5 g0p_5 MG | |]; subst; clear M3.
  inversion MG as [| | | r1_6 r2_6 p0_6 y0 w7 rest0_6 g0_6 g1_6 g2_6 My Md | | | | | | |]; subst; clear MG.
  inversion Md as [| | | r1_7 r2_7 p0_7 dd w8 rest0_7 g0_7 g1_7 g2_7 Mdd Me | | | | | | |]; subst; clear Md.
  inversion Me; subst; clear Me.
  inversion Mdd; subst; clear Mdd.
  destruct (two_chars dd) as (d1 & d2 & ->); [assumption.. |].
  assert (Ly : length y0 = 2).
  { inversion My as [| | | | | | | | n0 r0 p0 w0 rest0 g0 g0' Malt | |]; subst.
    inversion Malt; subst;
      match goal with
      | H : Matches (lit _) _ _ _ _ _ |- _ =>
          apply matches_lit in H; destruct H as [-> _]
      end; reflexivity. }
  match goal with
  | H : is_space ?c = true |- _ => exists c, (y0 ++ [d1; d2]), rest
  end.
  simpl in Hrest.
  split; [app_norm; cbn [app]; app_norm |].
  split; [rewrite length_app; simpl; lia |].
  split; [exact Hrest |]. split.
  - rewrite E. f_equal. rewrite !length_app. simpl. lia.
  - unfold set_group. cbn [Nat.eqb]. f_equal; app_norm.
Qed.

Lemma trailing_year_found (r : regex) (pos : nat) (y : str) :
  r = re_trailing_year \/ r = re_trailing_year_search ->
  year_tok y -> exists m, match_at r pos (" " ++ y) = Some m.
Proof.
  intros Hr (y0 & d1 & d2 & -> & Hy & H1 & H2).
  assert (Y : forall p rest g, Matches (Alt (lit "19") (lit "20")) p y0 rest g g).
  { intros p rest g. simpl in Hy. destruct Hy as [<- | [<- | []]].
    - apply M_AltL, lit_matches.
    - apply M_AltR, lit_matches. }
  assert (D : forall p rest g,
             Matches (Rep is_digit 2 (Some 2) true) p [d1; d2] rest g g).
  { intros p rest g. constructor; simpl; auto. rewrite H1, H2. reflexivity. }
  destruct Hr as [-> | ->].
  - assert (M : Matches re_trailing_year pos
                  ([" "%char] ++ (y0 ++ [d1; d2] ++ []) ++ [] ++ []) []
                  no_groups
                  (set_group 1 (y0 ++ [d1; d2] ++ []) (set_group 2 y0 no_groups))).
    { unfold re_trailing_year, seq. cbn [fold_right].
      eapply M_Seq; [constructor; reflexivity |].
      eapply M_Seq.
      { constructor. eapply M_Seq; [constructor; apply Y |].
        eapply M_Seq; [apply D | constructor]. }
      eapply M_Seq; [constructor; auto | constructor]. }
    apply match_at_complete in M. destruct M as [m M]. exists m.
    rewrite <- M. f_equal; app_norm.
  - assert (M : Matches re_trailing_year_search pos
                  ([" "%char] ++ y0 ++ [d1; d2] ++ [] ++ []) []
                  no_groups
                  (set_group 2 [d1; d2] (set_group 1 y0 no_groups))).
    { unfold re_trailing_year_search, seq. cbn [fold_right].
      eapply M_Seq; [constructor; reflexivity |].
      eapply M_Seq; [constructor; apply Y |].
      eapply M_Seq; [constructor; apply D |].
      eapply M_Seq; [constructor; auto | constructor]. }
    apply match_at_complete in M. destruct M as [m M]. exists m.
    rewrite <- M. f_equal; app_norm.
Qed.

(** A folder name that holds no tag and no dot and ends with a space and
    a year gets the year in parentheses. *)
Theorem trailing_year_in_parentheses (tags : list str) (base y : str) :
  any_in (map lower tags) (lower (base ++ " " ++ y)) = false ->
  contains "." (base ++ " " ++ y) = false ->
  year_tok y ->
  clean_name tags (base ++ " " ++ y) = base ++ " (" ++ y ++ ")".
Proof.
  intros Htags Hdot Tok. unfold clean_name.
  rewrite (@no_tag_loop tags _ Htags), Hdot.
  destruct (@trailing_year_found re_trailing_year_search (0 + length base) y
              (or_intror eq_refl) Tok)
    as [ms Hms].
  destruct (@search_from_found re_trailing_year_search (base ++ " " ++ y)
              0 (length base) ms) as [x Hx].
  { rewrite length_app. lia. }
  { rewrite skipn_app, skipn_all, Nat.sub_diag. exact Hms. }
  unfold re_search. rewrite Hx. destruct x as [start m0].
  unfold re_sub. rewrite sub_from_prefix.
  - f_equal.
    destruct (@trailing_year_found re_trailing_year (0 + length base) y
                (or_introl eq_refl) Tok)
      as [m Hm].
    destruct (@trailing_year_match _ _ _ Hm) as (c & y' & rest & E & Ly & Hrest & He & Hg).
    assert (Ey : y' = y /\ rest = []).
    { destruct Hrest as [-> | ->].
      - rewrite app_nil_r in E. injection E as _ ->. auto.
      - exfalso. apply (@year_not_newline_end [] y (c :: y') 0 Tok). exact E. }
    destruct Ey as [-> ->].
    assert (L4 : skipn 4 y = []).
    { apply skipn_all2. lia. }
    change (list_ascii_of_string " " ++ y) with (" "%char :: y) in *.
    rewrite (@sub_from_some re_trailing_year [Lit " ("; Ref 1; Lit ")"]
               (0 + length base) 4 " "%char y m Hm) by (try lia; exact He).
    rewrite L4. unfold expand. cbn [flat_map]. rewrite Hg.
    assert (N : forall p, sub_from re_trailing_year [Lit " ("; Ref 1; Lit ")"] p [] 0 = []).
    { intros p. reflexivity. }
    rewrite N. app_norm.
  - intros k Hk.
    destruct (match_at re_trailing_year (0 + k) (skipn k (base ++ " " ++ y)))
      as [m |] eqn:E; [exfalso | reflexivity].
    destruct (@trailing_year_match _ _ _ E) as (c & y' & rest & Es & Ly & Hrest & _).
    destruct Hrest as [-> | ->].
    + apply (f_equal (@length ascii)) in Es.
      rewrite length_skipn, !length_app in Es. simpl in Es.
      destruct Tok as (y0 & d1 & d2 & -> & Hy & _).
      rewrite length_app in Es. simpl in Es.
      assert (length y0 = 2)
        by (simpl in Hy; destruct Hy as [<- | [<- | []]]; reflexivity).
      lia.
    + apply (@year_not_newline_end base y (c :: y') k Tok). exact Es.
Qed.

Lemma trailing_year_in_parentheses_witness :
  (any_in (map lower config_tags) (lower ("Blade Runner" ++ " " ++ "1982")) = false /\
   contains "." ("Blade Runner" ++ " " ++ "1982") = false /\
   year_tok "1982") /\
  clean_name config_tags ("Blade Runner" ++ " " ++ "1982")
  = "Blade Runner" ++ " (" ++ "1982" ++ ")".
Proof.
  assert (H1 : any_in (map lower config_tags)
                 (lower ("Blade Runner" ++ " " ++ "1982")) = false)
    by (vm_compute; reflexivity).
  assert (H2 : contains "." ("Blade Runner" ++ " " ++ "1982") = false)
    by reflexivity.
  assert (H3 : year_tok "1982").
  { exists (list_ascii_of_string "19"), "8"%char, "2"%char.
    repeat split. left. reflexivity. }
  split; [repeat split; assumption |].
  exact (@trailing_year_in_parentheses config_tags "Blade Runner" "1982" H1 H2 H3).
Defined.

(** ** The year after the last dot *)

Lemma rfind_last (c : ascii) (t ext : str) :
  forallb (fun x => negb (Ascii.eqb x c)) ext = true ->
  rfind c (t ++ c :: ext) = Some (length t).
Proof.
  intros H. induction t as [| x t IH]; simpl.
  - rewrite (rfind_none c ext H), Ascii.eqb_refl. reflexivity.
  - rewrite IH. reflexivity.
Qed.

Lemma digit_not_slash_dot (c : ascii) :
  is_digit c = true -> not_slash c = true /\ not_dot c = true.
Proof. all_chars_imp c; split; reflexivity. Qed.

(** The stem of a name that ends with a dot and a text without dot is
    what stands before that dot. *)
Lemma stem_dotted (t ext : str) :
  t <> [] -> ext <> [] ->
  forallb not_slash t = true -> forallb not_slash ext = true ->
  forallb not_dot ext = true ->
  stem (t ++ "." ++ ext) = t.
Proof.
  intros Nt Ne Ht He Hd.
  change (t ++ "." ++ ext) with (t ++ "."%char :: ext).
  assert (L : 2 <= length t + length ext).
  { destruct t; [contradiction |]. destruct ext; [contradiction |]. simpl. lia. }
  assert (Ep : path_name (t ++ "."%char :: ext) = t ++ "."%char :: ext).
  { unfold path_name. rewrite split_on_none.
    - destruct (t ++ "."%char :: ext) as [| c0 l] eqn:El.
      { apply (f_equal (@length ascii)) in El. rewrite length_app in El.
        simpl in El. lia. }
      cbn [filter nonempty andb].
      assert (D : str_eqb (c0 :: l) "." = false).
      { unfold str_eqb.
        destruct (list_eq_dec ascii_dec (c0 :: l) ".") as [E |]; [| reflexivity].
        rewrite <- El in E. apply (f_equal (@length ascii)) in E.
        rewrite length_app in E. simpl in E. lia. }
      rewrite D. reflexivity.
    - rewrite forallb_app, Ht. simpl. exact He. }
  unfold stem. rewrite Ep. unfold stem_of_name, suffix_index.
  rewrite (rfind_last "." t ext Hd).
  assert (C : (0 <? length t) && (length t <? length (t ++ "."%char :: ext) - 1)
              = true).
  { rewrite length_app. simpl. apply andb_true_intro. split.
    - apply Nat.ltb_lt. destruct t; [contradiction | simpl; lia].
    - apply Nat.ltb_lt. destruct ext; [contradiction | simpl; lia]. }
  rewrite C. rewrite firstn_app, Nat.sub_diag, firstn_all. simpl.
  apply app_nil_r.
Qed.

(** A year that stands after the last dot of a name is taken for the
    extension: when no year stands before that dot, none is found. *)
Theorem year_after_last_dot_lost (t y : str) :
  t <> [] -> forallb not_slash t = true -> ~ has year_tok t -> year_tok y ->
  year (get_normalized_title (t ++ "." ++ y)) = None.
Proof.
  intros Nt Ht Hno Tok.
  assert (Dy : forallb is_digit y = true) by (apply year_tok_digits; exact Tok).
  assert (S : stem (t ++ "." ++ y) = t).
  { apply stem_dotted; try assumption.
    - apply year_tok_nonempty. exact Tok.
    - rewrite forallb_forall in *. intros c Hc.
      apply (digit_not_slash_dot c (Dy c Hc)).
    - rewrite forallb_forall in *. intros c Hc.
      apply (digit_not_slash_dot c (Dy c Hc)). }
  pose proof (year_search_spec (t ++ "." ++ y)) as Y.
  destruct (year (get_normalized_title (t ++ "." ++ y))) as [y' |];
    [exfalso | reflexivity].
  destruct Y as (Tok' & a & b & E & _). apply Hno.
  exists a, y', b. rewrite <- S. auto.
Qed.

Lemma year_after_last_dot_lost_witness :
  (list_ascii_of_string "Inception" <> [] /\
   forallb not_slash "Inception" = true /\
   ~ has year_tok "Inception" /\ year_tok "2010") /\
  year (get_normalized_title ("Inception" ++ "." ++ "2010")) = None.
Proof.
  assert (H1 : list_ascii_of_string "Inception" <> []) by discriminate.
  assert (H2 : forallb not_slash "Inception" = true) by reflexivity.
  assert (H3 : ~ has year_tok "Inception").
  { exact (year_search_spec "Inception"). }
  assert (H4 : year_tok "2010").
  { exists (list_ascii_of_string "20"), "1"%char, "0"%char.
    repeat split. right. left. reflexivity. }
  split; [repeat split; assumption |].
  exact (@year_after_last_dot_lost "Inception" "2010" H1 H2 H3 H4).
Defined.
